(** * HW08_AddressBook: a shallow embedding of the address-book core

    The development follows [HW08_AddressBook.py]: the field classes
    ([Field], [Name], [Phone], [Birthday]), the contact [Record], the
    [AddressBook] container and its upcoming-birthdays query, the command
    handlers with their decorator [input_error], and the command loop of
    [main].

    Python values are modelled as follows.
    - [str] is a list of Unicode code points ([list N]).
    - An exception is a constructor of [exception]; a call that may raise
      returns a [result].
    - [datetime.date] is a record of three integers together with the
      arithmetic of CPython's [datetime] module ([_ymd2ord], [_ord2ymd],
      [weekday], [replace], [__add__], [__sub__]).
    - [dict] is an association list in insertion order, the order in which
      Python iterates over it.
    - [date.today()] is an input of the query. *)

From Stdlib Require Import ZArith NArith List Lia String Ascii Bool.
From stdpp Require Import base tactics option list numbers.

Open Scope Z_scope.

(** ** Python run-time: strings, exceptions, results *)

Definition pystr := list N.

(** An ASCII literal as a Python string. *)
Definition str (s : string) : pystr := map N_of_ascii (list_ascii_of_string s).

Inductive exception : Type :=
| ValueError
| KeyError
| OverflowError.

Inductive result (A : Type) : Type :=
| Ok (a : A)
| Raise (e : exception).

Arguments Ok {A} a.
Arguments Raise {A} e.

Definition bind {A B : Type} (m : result A) (k : A -> result B) : result B :=
  match m with
  | Ok a => k a
  | Raise e => Raise e
  end.

Notation "x <- m ;; k" := (bind m (fun x => k))
  (at level 100, m at next level, right associativity).

(** A [for] loop that threads an accumulator and stops at the first
    exception. *)
Fixpoint for_each {A S : Type} (body : S -> A -> result S) (s : S) (l : list A)
  : result S :=
  match l with
  | [] => Ok s
  | a :: l' => s' <- body s a ;; for_each body s' l'
  end.

Definition raises {A : Type} (m : result A) : Prop :=
  exists e, m = Raise e.

Definition returns {A : Type} (m : result A) : Prop :=
  exists a, m = Ok a.

(** ** Unicode character classes used by [str.isdigit], [\d] and [int] *)

Module Unicode.

(** Code points with Numeric_Type=Decimal (general category Nd), Unicode
    14.0, as inclusive ranges.  Every range is a run of digits 0..9
    (the last one is five such runs). *)
Definition decimal_ranges : list (N * N) :=
  [ (48, 57); (1632, 1641); (1776, 1785); (1984, 1993); (2406, 2415);
    (2534, 2543); (2662, 2671); (2790, 2799); (2918, 2927); (3046, 3055);
    (3174, 3183); (3302, 3311); (3430, 3439); (3558, 3567); (3664, 3673);
    (3792, 3801); (3872, 3881); (4160, 4169); (4240, 4249); (6112, 6121);
    (6160, 6169); (6470, 6479); (6608, 6617); (6784, 6793); (6800, 6809);
    (6992, 7001); (7088, 7097); (7232, 7241); (7248, 7257); (42528, 42537);
    (43216, 43225); (43264, 43273); (43472, 43481); (43504, 43513);
    (43600, 43609); (44016, 44025); (65296, 65305); (66720, 66729);
    (68912, 68921); (69734, 69743); (69872, 69881); (69942, 69951);
    (70096, 70105); (70384, 70393); (70736, 70745); (70864, 70873);
    (71248, 71257); (71360, 71369); (71472, 71481); (71904, 71913);
    (72016, 72025); (72784, 72793); (73040, 73049); (73120, 73129);
    (92768, 92777); (92864, 92873); (93008, 93017); (120782, 120831);
    (123200, 123209); (123632, 123641); (125264, 125273);
    (130032, 130041) ]%N.

(** Code points with Numeric_Type=Digit that are not decimal: superscripts,
    subscripts, circled and parenthesised digits and the like. *)
Definition digit_only_ranges : list (N * N) :=
  [ (178, 179); (185, 185); (4969, 4977); (6618, 6618); (8304, 8304);
    (8308, 8313); (8320, 8329); (9312, 9320); (9332, 9340); (9352, 9360);
    (9450, 9450); (9461, 9469); (9471, 9471); (10102, 10110);
    (10112, 10120); (10122, 10130); (68160, 68163); (69216, 69224);
    (69714, 69722); (127232, 127242) ]%N.

Definition in_range (c : N) (r : N * N) : bool :=
  ((fst r <=? c) && (c <=? snd r))%N.

Definition in_ranges (c : N) (rs : list (N * N)) : bool :=
  existsb (in_range c) rs.

(** [Py_UNICODE_ISDECIMAL]: what [\d] matches in a [str] pattern and what
    [int] accepts as a digit. *)
Definition isdecimal (c : N) : bool := in_ranges c decimal_ranges.

(** [Py_UNICODE_ISDIGIT]: the test behind [str.isdigit]. *)
Definition isdigit (c : N) : bool :=
  in_ranges c decimal_ranges || in_ranges c digit_only_ranges.

(** [Py_UNICODE_TODECIMAL]: the value of a decimal digit. *)
Definition todecimal (c : N) : option Z :=
  match find (in_range c) decimal_ranges with
  | Some r => Some (Z.of_N (c - fst r) mod 10)
  | None => None
  end.

(** The ASCII digits ['0'..'9']. *)
Definition is_ascii_digit (c : N) : bool := ((48 <=? c) && (c <=? 57))%N.

End Unicode.

(** [str.isdigit()]: every character is a digit and there is at least one. *)
Definition str_isdigit (s : pystr) : bool :=
  negb (Nat.eqb (length s) 0) && forallb Unicode.isdigit s.

(** [len(s)] *)
Definition len {A : Type} (s : list A) : Z := Z.of_nat (length s).

(** ** [datetime.date] *)

Module datetime.

Definition MINYEAR : Z := 1.
Definition MAXYEAR : Z := 9999.

(** Indexing a Python list of integers with an in-range index. *)
Definition index (l : list Z) (i : Z) : Z := nth (Z.to_nat i) l 0.

Definition _DAYS_IN_MONTH : list Z :=
  [-1; 31; 28; 31; 30; 31; 30; 31; 31; 30; 31; 30; 31].

Definition _DAYS_BEFORE_MONTH : list Z :=
  [-1; 0; 31; 59; 90; 120; 151; 181; 212; 243; 273; 304; 334].

Definition _is_leap (year : Z) : bool :=
  (year mod 4 =? 0) && (negb (year mod 100 =? 0) || (year mod 400 =? 0)).

Definition _days_before_year (year : Z) : Z :=
  let y := year - 1 in
  y * 365 + y / 4 - y / 100 + y / 400.

Definition _days_in_month (year month : Z) : Z :=
  if (month =? 2) && _is_leap year then 29 else index _DAYS_IN_MONTH month.

Definition _days_before_month (year month : Z) : Z :=
  index _DAYS_BEFORE_MONTH month
  + (if (2 <? month) && _is_leap year then 1 else 0).

Definition _ymd2ord (year month day : Z) : Z :=
  _days_before_year year + _days_before_month year month + day.

Definition _DI400Y : Z := Eval cbv in _days_before_year 401.
Definition _DI100Y : Z := Eval cbv in _days_before_year 101.
Definition _DI4Y : Z := Eval cbv in _days_before_year 5.

Definition _ord2ymd (n : Z) : Z * Z * Z :=
  let n := n - 1 in
  let n400 := n / _DI400Y in
  let n := n mod _DI400Y in
  let year := n400 * 400 + 1 in
  let n100 := n / _DI100Y in
  let n := n mod _DI100Y in
  let n4 := n / _DI4Y in
  let n := n mod _DI4Y in
  let n1 := n / 365 in
  let n := n mod 365 in
  let year := year + (n100 * 100 + n4 * 4 + n1) in
  if (n1 =? 4) || (n100 =? 4) then (year - 1, 12, 31)
  else
    let leapyear := (n1 =? 3) && (negb (n4 =? 24) || (n100 =? 3)) in
    let month := Z.shiftr (n + 50) 5 in
    let preceding :=
      index _DAYS_BEFORE_MONTH month
      + (if (2 <? month) && leapyear then 1 else 0) in
    let '(month, preceding) :=
      if n <? preceding then
        (month - 1,
         preceding
         - (index _DAYS_IN_MONTH (month - 1)
            + (if (month - 1 =? 2) && leapyear then 1 else 0)))
      else (month, preceding) in
    (year, month, n - preceding + 1).

Record date : Type := mkdate { year : Z; month : Z; day : Z }.

(** [_check_date_fields] followed by object creation: [date(y, m, d)]. *)
Definition new (y m d : Z) : result date :=
  if negb ((MINYEAR <=? y) && (y <=? MAXYEAR)) then Raise ValueError
  else if negb ((1 <=? m) && (m <=? 12)) then Raise ValueError
  else if negb ((1 <=? d) && (d <=? _days_in_month y m)) then Raise ValueError
  else Ok (mkdate y m d).

(** The class invariant of [date]: what [new] checks. *)
Definition valid (d : date) : Prop :=
  MINYEAR <= year d <= MAXYEAR /\ 1 <= month d <= 12 /\
  1 <= day d <= _days_in_month (year d) (month d).

Definition toordinal (self : date) : Z :=
  _ymd2ord (year self) (month self) (day self).

Definition _MAXORDINAL : Z := Eval cbv in toordinal (mkdate 9999 12 31).

Definition fromordinal (n : Z) : result date :=
  let '(y, m, d) := _ord2ymd n in new y m d.

(** [self.replace(year=y)] *)
Definition replace_year (self : date) (y : Z) : result date :=
  new y (month self) (day self).

(** [_cmp] on the [(year, month, day)] tuples, as [self < other]. *)
Definition lt (self other : date) : bool :=
  (year self <? year other)
  || ((year self =? year other)
      && ((month self <? month other)
          || ((month self =? month other) && (day self <? day other)))).

(** [self + timedelta(days=n)] *)
Definition add_days (self : date) (n : Z) : result date :=
  let o := toordinal self + n in
  if (0 <? o) && (o <=? _MAXORDINAL) then fromordinal o
  else Raise OverflowError.

(** [(self - other).days] *)
Definition sub_days (self other : date) : Z :=
  toordinal self - toordinal other.

(** Monday is 0, Sunday is 6. *)
Definition weekday (self : date) : Z := (toordinal self + 6) mod 7.

End datetime.

Import datetime.

(** ** [date.strftime]

    [date.strftime] hands the format to the C library.  [%m] and [%d] are
    two digits everywhere.  [%Y] is the one directive whose output depends
    on the platform for years below 1000: glibc prints the year without
    padding, other C libraries pad it to four digits. *)

Variant libc : Type :=
| pads_year      (* %Y of year 999 is 0999 *)
| plain_year.    (* %Y of year 999 is 999 *)

Definition chr (a : ascii) : N := N_of_ascii a.

Definition digit (n : Z) : N := (48 + Z.to_N n)%N.

Definition two_digits (n : Z) : pystr :=
  [digit (n / 10 mod 10); digit (n mod 10)].

Definition four_digits (n : Z) : pystr :=
  [digit (n / 1000 mod 10); digit (n / 100 mod 10);
   digit (n / 10 mod 10); digit (n mod 10)].

(** Drop leading zeros, keeping the last digit. *)
Fixpoint strip_zeros (s : pystr) : pystr :=
  match s with
  | c :: (_ :: _) as s' => if (c =? 48)%N then strip_zeros s' else s
  | _ => s
  end.

Definition directive_Y (c : libc) (y : Z) : pystr :=
  match c with
  | pads_year => four_digits y
  | plain_year => strip_zeros (four_digits y)
  end.

(** The output of one directive.  Only [%Y], [%m] and [%d] are modelled;
    any other directive is left as it is written. *)
Definition strftime_directive (c : libc) (k : N) (self : date) : pystr :=
  if (k =? chr "Y")%N then directive_Y c (year self)
  else if (k =? chr "m")%N then two_digits (month self)
  else if (k =? chr "d")%N then two_digits (day self)
  else [chr "%"; k].

Fixpoint strftime (c : libc) (format : pystr) (self : date) : pystr :=
  match format with
  | [] => []
  | ch :: rest =>
      if (ch =? chr "%")%N then
        match rest with
        | [] => [ch]
        | k :: rest' => strftime_directive c k self ++ strftime c rest' self
        end
      else ch :: strftime c rest self
  end.

(** ** The regular expressions of [_strptime] *)

Module re.

(** The fragment of [re] that the patterns of [%d], [%m] and [%Y] use.  The
    patterns contain digits, a dot and a space only, so [IGNORECASE] has
    no effect on them. *)
Inductive regex : Type :=
| Lit (c : N)                      (* one literal character *)
| Range (lo hi : N)                (* [lo-hi] *)
| Digit                            (* \d on str: any decimal digit *)
| Cat (r1 r2 : regex)
| Alt (r1 r2 : regex)
| Group (name : ascii) (r : regex). (* (?P<name>r) *)

Definition groupdict := list (ascii * pystr).

(** A way of matching a prefix: the matched text, the named groups and the
    remaining input. *)
Definition found := (pystr * groupdict * pystr)%type.

Definition text (f : found) : pystr := fst (fst f).
Definition groups (f : found) : groupdict := snd (fst f).
Definition rest (f : found) : pystr := snd f.

(** The match [f2] continued after the text [t1] with groups [g1]. *)
Definition prepend (t1 : pystr) (g1 : groupdict) (f2 : found) : found :=
  (t1 ++ text f2, g1 ++ groups f2, rest f2).

(** The text of [f] recorded under [name]. *)
Definition capture (name : ascii) (f : found) : found :=
  (text f, groups f ++ [(name, text f)], rest f).

Definition one (p : N -> bool) (s : pystr) : list found :=
  match s with
  | x :: s' => if p x then [([x], [], s')] else []
  | [] => []
  end.

(** All the ways [r] matches a prefix of [s], in the order in which the
    backtracking matcher tries them. *)
Fixpoint run (r : regex) (s : pystr) : list found :=
  match r with
  | Lit c => one (N.eqb c) s
  | Range lo hi => one (fun x => Unicode.in_range x (lo, hi)) s
  | Digit => one Unicode.isdecimal s
  | Cat r1 r2 =>
      flat_map
        (fun f1 => map (prepend (text f1) (groups f1)) (run r2 (rest f1)))
        (run r1 s)
  | Alt r1 r2 => run r1 s ++ run r2 s
  | Group name r => map (capture name) (run r s)
  end.

(** [pattern.match(s)]: the first way, if any. *)
Definition match_ (r : regex) (s : pystr) : option found := head (run r s).

(** [found.end()] *)
Definition end_ (f : found) : Z := len (text f).

Definition get (g : groupdict) (name : ascii) : option pystr :=
  snd <$> find (fun kv => Ascii.eqb (fst kv) name) g.

(** The strings that a pattern matches, with the groups it records: the
    declarative reading of a pattern, against which [run] is checked. *)
Inductive matches : regex -> pystr -> groupdict -> Prop :=
| matches_lit c : matches (Lit c) [c] []
| matches_range lo hi x :
    Unicode.in_range x (lo, hi) = true -> matches (Range lo hi) [x] []
| matches_digit x : Unicode.isdecimal x = true -> matches Digit [x] []
| matches_cat r1 r2 t1 g1 t2 g2 :
    matches r1 t1 g1 -> matches r2 t2 g2 ->
    matches (Cat r1 r2) (t1 ++ t2) (g1 ++ g2)
| matches_alt_l r1 r2 t g : matches r1 t g -> matches (Alt r1 r2) t g
| matches_alt_r r1 r2 t g : matches r2 t g -> matches (Alt r1 r2) t g
| matches_group name r t g :
    matches r t g -> matches (Group name r) t (g ++ [(name, t)]).

(** Patterns without groups. *)
Fixpoint groupless (r : regex) : bool :=
  match r with
  | Lit _ | Range _ _ | Digit => true
  | Cat r1 r2 | Alt r1 r2 => groupless r1 && groupless r2
  | Group _ _ => false
  end.

End re.

Module _strptime.

Import re.

(** [(?P<d>3[0-1]|[1-2]\d|0[1-9]|[1-9]| [1-9])] *)
Definition re_d : regex :=
  Group "d"
    (Alt (Cat (Lit (chr "3")) (Range (chr "0") (chr "1")))
    (Alt (Cat (Range (chr "1") (chr "2")) Digit)
    (Alt (Cat (Lit (chr "0")) (Range (chr "1") (chr "9")))
    (Alt (Range (chr "1") (chr "9"))
         (Cat (Lit (chr " ")) (Range (chr "1") (chr "9"))))))).

(** [(?P<m>1[0-2]|0[1-9]|[1-9])] *)
Definition re_m : regex :=
  Group "m"
    (Alt (Cat (Lit (chr "1")) (Range (chr "0") (chr "2")))
    (Alt (Cat (Lit (chr "0")) (Range (chr "1") (chr "9")))
         (Range (chr "1") (chr "9")))).

(** [(?P<Y>\d\d\d\d)] *)
Definition re_Y : regex := Group "Y" (Cat Digit (Cat Digit (Cat Digit Digit))).

(** [TimeRE.__getitem__], for the directives the address book uses. *)
Definition directive (k : N) : option regex :=
  if (k =? chr "d")%N then Some re_d
  else if (k =? chr "m")%N then Some re_m
  else if (k =? chr "Y")%N then Some re_Y
  else None.

(** [TimeRE.pattern]: literal characters stand for themselves (the dot is
    escaped), a directive is replaced by its pattern.  [None] is the
    [KeyError] of an unknown directive or the [IndexError] of a stray
    percent sign.  The format of the address book has no white space, so
    the rewriting of white space is left out. *)
Fixpoint pattern (format : pystr) : option regex :=
  match format with
  | [] => None
  | ch :: rest =>
      if (ch =? chr "%")%N then
        match rest with
        | [] => None
        | k :: rest' =>
            match directive k, rest' with
            | None, _ => None
            | Some r, [] => Some r
            | Some r, _ :: _ => Cat r <$> pattern rest'
            end
        end
      else
        match rest with
        | [] => Some (Lit ch)
        | _ :: _ => Cat (Lit ch) <$> pattern rest
        end
  end.

(** White space that [int] skips around the digits: the ASCII white space
    of C and the Unicode spaces beyond ASCII. *)
Definition isspace (c : N) : bool :=
  ((9 <=? c) && (c <=? 13) || (c =? 32) || (c =? 133) || (c =? 160)
   || (c =? 5760) || (8192 <=? c) && (c <=? 8202) || (c =? 8232)
   || (c =? 8233) || (c =? 8239) || (c =? 8287) || (c =? 12288))%N.

Fixpoint lstrip (s : pystr) : pystr :=
  match s with
  | c :: s' => if isspace c then lstrip s' else s
  | [] => []
  end.

Definition strip (s : pystr) : pystr := rev (lstrip (rev (lstrip s))).

Fixpoint digits_value (acc : Z) (s : pystr) : option Z :=
  match s with
  | [] => Some acc
  | c :: s' =>
      match Unicode.todecimal c with
      | Some v => digits_value (10 * acc + v) s'
      | None => None
      end
  end.

(** [int(s)] on an unsigned decimal literal.  Signs and underscores are not
    modelled: no group of the patterns above can contain them. *)
Definition int (s : pystr) : result Z :=
  match strip s with
  | [] => Raise ValueError
  | t =>
      match digits_value 0 t with
      | Some v => Ok v
      | None => Raise ValueError
      end
  end.

Definition int_group (g : groupdict) (name : ascii) (default : option Z)
  : result (option Z) :=
  match get g name with
  | Some t => v <- int t ;; Ok (Some v)
  | None => Ok default
  end.

(** [_strptime] for formats made of [%d], [%m], [%Y] and literals, followed
    by the construction of the date ([_strptime_datetime] and [.date()]). *)
Definition strptime (data_string format : pystr) : result date :=
  match pattern format with
  | None => Raise ValueError
  | Some format_regex =>
      match match_ format_regex data_string with
      | None => Raise ValueError
      | Some f =>
          if negb (len data_string =? end_ f) then Raise ValueError
          else
            let g := groups f in
            year <- int_group g "Y" None ;;
            month <- int_group g "m" (Some 1) ;;
            day <- int_group g "d" (Some 1) ;;
            let month := default 1 month in
            let day := default 1 day in
            let leap_year_fix :=
              match year with
              | None => (month =? 2) && (day =? 29)
              | Some _ => false
              end in
            let year :=
              match year with
              | Some y => y
              | None => if leap_year_fix then 1904 else 1900
              end in
            _ <- new year month day ;;
            let year := if leap_year_fix then 1900 else year in
            new year month day
      end
  end.

End _strptime.

(** ** The field classes *)

(** [class Field]: a value in a box. *)
Record Field (A : Type) : Type := mkField { value : A }.

Arguments mkField {A} value.
Arguments value {A} _.

(** [Field.__str__] for a string value. *)
Definition Field_str (f : Field pystr) : pystr := value f.

(** [class Name(Field)]: nothing is checked. *)
Definition Name := Field pystr.

Definition Name_init (v : pystr) : Name := mkField v.

(** [class Phone(Field)] *)
Definition Phone := Field pystr.

(** [Phone.__init__]; the argument is a [str] by its type, so the
    [isinstance] test passes. *)
Definition Phone_init (v : pystr) : result Phone :=
  if negb (str_isdigit v && (len v =? 10)) then Raise ValueError
  else Ok (mkField v).

(** [class Birthday(Field)] *)
Definition Birthday := Field date.

Definition Birthday_format : pystr := str "%d.%m.%Y".

(** [Birthday.__init__]: a [ValueError] of [strptime] is raised again as
    a [ValueError] with the message of the address book. *)
Definition Birthday_init (v : pystr) : result Birthday :=
  match _strptime.strptime v Birthday_format with
  | Ok parsed => Ok (mkField parsed)
  | Raise ValueError => Raise ValueError
  | Raise e => Raise e
  end.

(** [Birthday.__str__] *)
Definition Birthday_str (c : libc) (b : Birthday) : pystr :=
  strftime c Birthday_format (value b).

(** ** [class Record] *)

Record record : Type := mkRecord {
  name : Name;
  phones : list Phone;
  birthday : option Birthday
}.

Definition set_phones (self : record) (ps : list Phone) : record :=
  mkRecord (name self) ps (birthday self).

Definition set_birthday (self : record) (b : option Birthday) : record :=
  mkRecord (name self) (phones self) b.

(** [Record.__init__] *)
Definition Record_init (n : pystr) : record := mkRecord (Name_init n) [] None.

Definition value_is (s : pystr) (p : Phone) : bool :=
  bool_decide (value p = s).

(** [Record.add_phone] *)
Definition Record_add_phone (self : record) (phone_str : pystr) : result record :=
  phone_obj <- Phone_init phone_str ;;
  if negb (existsb (value_is (value phone_obj)) (phones self))
  then Ok (set_phones self (phones self ++ [phone_obj]))
  else Ok self.

(** The position at which a [for] loop over the phones first meets the
    value [s]. *)
Fixpoint first_index (s : pystr) (ps : list Phone) : option nat :=
  match ps with
  | [] => None
  | ph :: ps' => if value_is s ph then Some 0%nat else S <$> first_index s ps'
  end.

(** [Record.remove_phone]: [list.remove] drops the object the loop stopped
    at, which is the first one with this value. *)
Definition Record_remove_phone (self : record) (phone_str : pystr) : record :=
  match first_index phone_str (phones self) with
  | Some idx => set_phones self (delete idx (phones self))
  | None => self
  end.

(** [Record.edit_phone]: the record after the call and the returned flag. *)
Definition Record_edit_phone (self : record) (old_phone new_phone : pystr)
  : result (record * bool) :=
  match first_index old_phone (phones self) with
  | Some idx =>
      new_phone_obj <- Phone_init new_phone ;;
      Ok (set_phones self (<[idx := new_phone_obj]> (phones self)), true)
  | None => Ok (self, false)
  end.

(** [Record.add_birthday] *)
Definition Record_add_birthday (self : record) (bday_str : pystr) : result record :=
  b <- Birthday_init bday_str ;;
  Ok (set_birthday self (Some b)).

(** ** [class AddressBook(UserDict)] *)

(** [self.data]: keys in insertion order, no key twice. *)
Abbreviation AddressBook := (list (pystr * record)).

Definition key_is (k : pystr) (kv : pystr * record) : bool :=
  bool_decide (fst kv = k).

(** [d.get(k)] *)
Definition dict_get (d : AddressBook) (k : pystr) : option record :=
  snd <$> find (key_is k) d.

(** [k in d] *)
Definition dict_contains (d : AddressBook) (k : pystr) : bool :=
  existsb (key_is k) d.

(** [d[k] = v]: an existing key keeps its place, a new one goes last. *)
Fixpoint dict_set (d : AddressBook) (k : pystr) (v : record) : AddressBook :=
  match d with
  | [] => [(k, v)]
  | kv :: d' => if key_is k kv then (k, v) :: d' else kv :: dict_set d' k v
  end.

(** [del d[k]]: [KeyError] when the key is absent. *)
Fixpoint dict_del (d : AddressBook) (k : pystr) : result AddressBook :=
  match d with
  | [] => Raise KeyError
  | kv :: d' =>
      if key_is k kv then Ok d'
      else d'' <- dict_del d' k ;; Ok (kv :: d'')
  end.

(** [d.values()] *)
Definition dict_values (d : AddressBook) : list record := map snd d.

(** [AddressBook.add_record] *)
Definition AddressBook_add_record (self : AddressBook) (r : record) : AddressBook :=
  dict_set self (value (name r)) r.

(** [AddressBook.find] *)
Definition AddressBook_find (self : AddressBook) (n : pystr) : result record :=
  match dict_get self n with
  | None => Raise KeyError
  | Some rec => Ok rec
  end.

(** [AddressBook.delete]: the book after the call and the returned flag. *)
Definition AddressBook_delete (self : AddressBook) (n : pystr)
  : result (AddressBook * bool) :=
  if dict_contains self n then
    self' <- dict_del self n ;; Ok (self', true)
  else Ok (self, false).

(** One element of the list that [get_upcoming_birthdays] returns. *)
Record greeting : Type := mkGreeting {
  greeting_name : pystr;
  congratulation_date : pystr
}.

Definition Ymd_format : pystr := str "%Y.%m.%d".

(** The body of the loop of [get_upcoming_birthdays] for one record. *)
Definition upcoming_body (c : libc) (today : date)
    (upcoming : list greeting) (r : record) : result (list greeting) :=
  match birthday r with
  | None => Ok upcoming
  | Some b =>
      let bday := value b in
      birthday_this_year <- replace_year bday (year today) ;;
      birthday_this_year <-
        (if lt birthday_this_year today
         then replace_year birthday_this_year (year today + 1)
         else Ok birthday_this_year) ;;
      let days_ahead := sub_days birthday_this_year today in
      if (0 <=? days_ahead) && (days_ahead <=? 6) then
        congratulation <-
          (if weekday birthday_this_year =? 5
           then add_days birthday_this_year 2
           else if weekday birthday_this_year =? 6
           then add_days birthday_this_year 1
           else Ok birthday_this_year) ;;
        Ok (upcoming
            ++ [mkGreeting (value (name r))
                           (strftime c Ymd_format congratulation)])
      else Ok upcoming
  end.

(** [AddressBook.get_upcoming_birthdays], with [date.today()] as [today]. *)
Definition AddressBook_get_upcoming_birthdays (c : libc) (today : date)
    (self : AddressBook) : result (list greeting) :=
  for_each (upcoming_body c today) [] (dict_values self).

(** ** The scheduling algorithm in the words of the specification

    Section 4.5 of the specification, step by step, with total operations:
    [withYear] changes the year and checks nothing, [plusDays] moves through
    the calendar by ordinals. *)

Module Spec.

Definition withYear (b : date) (y : Z) : date := mkdate y (month b) (day b).

(** Steps 1 and 2. *)
Definition projected (today b : date) : date :=
  let p := withYear b (year today) in
  if lt p today then withYear b (year today + 1) else p.

(** Step 3. *)
Definition daysAhead (today b : date) : Z :=
  toordinal (projected today b) - toordinal today.

(** Step 4. *)
Definition qualifies (today b : date) : bool :=
  (0 <=? daysAhead today b) && (daysAhead today b <=? 6).

Definition of_triple (t : Z * Z * Z) : date :=
  let '(y, m, d) := t in mkdate y m d.

Definition plusDays (d : date) (k : Z) : date :=
  of_triple (_ord2ymd (toordinal d + k)).

Definition Saturday : Z := 5.
Definition Sunday : Z := 6.

(** Step 5. *)
Definition congratulationDate (today b : date) : date :=
  let p := projected today b in
  if weekday p =? Saturday then plusDays p 2
  else if weekday p =? Sunday then plusDays p 1
  else p.

(** [YYYY.MM.DD] *)
Definition format_YYYY_MM_DD (d : date) : pystr :=
  four_digits (year d) ++ [chr "."] ++ two_digits (month d) ++ [chr "."]
  ++ two_digits (day d).

(** Step 6, for one record. *)
Definition entry (today : date) (r : record) : option greeting :=
  match birthday r with
  | Some b =>
      if qualifies today (value b)
      then Some (mkGreeting (value (name r))
                   (format_YYYY_MM_DD (congratulationDate today (value b))))
      else None
  | None => None
  end.

(** Step 6: one entry per qualifying record, in iteration order. *)
Definition upcomingBirthdays (today : date) (book : AddressBook)
  : list greeting :=
  omap (entry today) (dict_values book).

End Spec.

(** [date(y, m, d)] exists. *)
Definition exists_date (y m d : Z) : bool :=
  (MINYEAR <=? y) && (y <=? MAXYEAR) && (1 <=? m) && (m <=? 12)
  && (1 <=? d) && (d <=? _days_in_month y m).

(** The projections that the query makes for the birthday [b] exist: the
    month and day of [b] in the year of [today], and in the next year when
    that date is before [today]. *)
Definition projectable (today b : date) : bool :=
  exists_date (year today) (month b) (day b)
  && (if lt (Spec.withYear b (year today)) today
      then exists_date (year today + 1) (month b) (day b)
      else true).

Definition feb29 (b : date) : bool := (month b =? 2) && (day b =? 29).

(** ** Auxiliary definitions for the proofs *)

(** The last steps of [_ord2ymd]: month and day from the offset in the
    year. *)
Definition month_day (leapyear : bool) (n : Z) : Z * Z :=
  let month := Z.shiftr (n + 50) 5 in
  let preceding :=
    index _DAYS_BEFORE_MONTH month
    + (if (2 <? month) && leapyear then 1 else 0) in
  let '(month, preceding) :=
    if n <? preceding then
      (month - 1,
       preceding
       - (index _DAYS_IN_MONTH (month - 1)
          + (if (month - 1 =? 2) && leapyear then 1 else 0)))
    else (month, preceding) in
  (month, n - preceding + 1).

Definition month_day_check (leapyear : bool) (n : Z) : bool :=
  let '(m, d) := month_day leapyear n in
  (1 <=? m) && (m <=? 12) && (1 <=? d)
  && (d <=? (if (m =? 2) && leapyear then 29 else index _DAYS_IN_MONTH m))
  && (index _DAYS_BEFORE_MONTH m
      + (if (2 <? m) && leapyear then 1 else 0) + d =? n + 1).

(** The congratulation string of [g] is the date [d] in the form
    [%Y.%m.%d]. *)
Definition greets_on (c : libc) (g : greeting) (d : date) : Prop :=
  valid d /\ congratulation_date g = strftime c Ymd_format d.

(** The congratulation string is a date, and that date is a working day. *)
Definition on_weekday (c : libc) (g : greeting) : Prop :=
  (exists d, greets_on c g d)
  /\ (forall d, greets_on c g d -> 0 <= weekday d <= 4).

(** ** Sample address books

    The contacts of the scenario in the specification, and two books with
    a single contact each. *)

Definition contact (n : string) (b : option date) : record :=
  mkRecord (Name_init (str n)) [] (mkField <$> b).

Definition scenario_book : AddressBook :=
  fold_left AddressBook_add_record
    [ contact "Alice" (Some (mkdate 1990 6 15));
      contact "Bob" (Some (mkdate 1985 6 16));
      contact "Carol" (Some (mkdate 2000 6 20));
      contact "Dave" None ] [].

Definition scenario_today : date := mkdate 2024 6 10.

Definition leap_day_book : AddressBook :=
  AddressBook_add_record [] (contact "Ann" (Some (mkdate 2000 2 29))).

Definition new_year_book : AddressBook :=
  AddressBook_add_record [] (contact "Eve" (Some (mkdate 2000 1 1))).

(** ** Objects and books that the program can build *)

(** One call of a method of [Record] on the object [r], leaving [r']. *)
Inductive record_op : record -> record -> Prop :=
| op_add_phone r s r' :
    Record_add_phone r s = Ok r' -> record_op r r'
| op_remove_phone r s :
    record_op r (Record_remove_phone r s)
| op_edit_phone r old new r' changed :
    Record_edit_phone r old new = Ok (r', changed) -> record_op r r'
| op_add_birthday r s r' :
    Record_add_birthday r s = Ok r' -> record_op r r'.

(** A [Record] object: created by the constructor, then changed by its
    methods only. *)
Inductive created : record -> Prop :=
| created_init n : created (Record_init n)
| created_op r r' : created r -> record_op r r' -> created r'.

(** The address books that [add_record] and [delete] build.  A record found
    in the book is the stored object itself, so a method called on it
    changes the entry in place. *)
Inductive reachable : AddressBook -> Prop :=
| reach_empty : reachable []
| reach_add_record book r :
    reachable book -> created r -> reachable (AddressBook_add_record book r)
| reach_delete book n book' removed :
    reachable book -> AddressBook_delete book n = Ok (book', removed) ->
    reachable book'
| reach_method book n r r' :
    reachable book -> AddressBook_find book n = Ok r -> record_op r r' ->
    reachable (dict_set book n r').

(** The values of the stored phones, in order. *)
Definition phone_values (r : record) : list pystr := value <$> phones r.

(** Ten Arabic-Indic digits, U+0660 to U+0669. *)
Definition arabic_indic_digits : pystr :=
  [1632; 1633; 1634; 1635; 1636; 1637; 1638; 1639; 1640; 1641]%N.

(** A contact with two phones. *)
Definition ann : record :=
  mkRecord (Name_init (str "Ann"))
           [mkField (str "1111111111"); mkField (str "2222222222")] None.

(** ** Birthday strings in the strict [DD.MM.YYYY] form *)

Definition digit_value (c : N) : Z := Z.of_N c - 48.

(** The date that a string of two ASCII digits, a dot, two ASCII digits, a
    dot and four ASCII digits spells, real or not. *)
Definition strict_DD_MM_YYYY (s : pystr) : option date :=
  match s with
  | [d1; d2; p1; m1; m2; p2; y1; y2; y3; y4] =>
      if forallb Unicode.is_ascii_digit [d1; d2; m1; m2; y1; y2; y3; y4]
         && (p1 =? chr ".")%N && (p2 =? chr ".")%N
      then Some (mkdate
                   (1000 * digit_value y1 + 100 * digit_value y2
                    + 10 * digit_value y3 + digit_value y4)
                   (10 * digit_value m1 + digit_value m2)
                   (10 * digit_value d1 + digit_value d2))
      else None
  | _ => None
  end.

(** The number that a string of ASCII digits spells. *)
Definition ascii_number (s : pystr) : Z :=
  fold_left (fun acc c => 10 * acc + digit_value c) s 0.

(** The pattern that [TimeRE.pattern] builds for [%d.%m.%Y]. *)
Definition birthday_pattern : re.regex :=
  re.Cat _strptime.re_d
    (re.Cat (re.Lit (chr "."))
       (re.Cat _strptime.re_m (re.Cat (re.Lit (chr ".")) _strptime.re_Y))).

(** ** Birthday strings that [strptime] reads

    The string [s] is a day, a dot, a month, a dot and a year as the
    patterns of [%d], [%m] and [%Y] match them, and the three texts are
    the numbers of the date [d]. *)
Definition spells (s : pystr) (d : date) : Prop :=
  exists D M Y,
    s = D ++ chr "." :: M ++ chr "." :: Y
    /\ re.matches _strptime.re_d D [("d"%char, D)]
    /\ re.matches _strptime.re_m M [("m"%char, M)]
    /\ re.matches _strptime.re_Y Y [("Y"%char, Y)]
    /\ _strptime.int D = Ok (day d)
    /\ _strptime.int M = Ok (month d)
    /\ _strptime.int Y = Ok (year d).

(** ** Text of the messages

    The messages of the program are Ukrainian.  A literal is written in
    UTF-8 and decoded to code points. *)

Fixpoint utf8_decode (bytes : list N) : pystr :=
  match bytes with
  | [] => []
  | b0 :: rest =>
      if (b0 <? 128)%N then b0 :: utf8_decode rest
      else
        match rest with
        | [] => []
        | b1 :: rest1 =>
            if (b0 <? 224)%N
            then ((b0 - 192) * 64 + (b1 - 128))%N :: utf8_decode rest1
            else
              match rest1 with
              | [] => []
              | b2 :: rest2 =>
                  if (b0 <? 240)%N
                  then ((b0 - 224) * 4096 + (b1 - 128) * 64 + (b2 - 128))%N
                       :: utf8_decode rest2
                  else
                    match rest2 with
                    | [] => []
                    | b3 :: rest3 =>
                        ((b0 - 240) * 262144 + (b1 - 128) * 4096
                         + (b2 - 128) * 64 + (b3 - 128))%N
                        :: utf8_decode rest3
                    end
              end
        end
  end.

(** A literal of the source as a Python string. *)
Definition u (s : string) : pystr := utf8_decode (str s).

(** [sep.join(l)] *)
Fixpoint join (sep : pystr) (l : list pystr) : pystr :=
  match l with
  | [] => []
  | [x] => x
  | x :: l' => x ++ sep ++ join sep l'
  end.

(** ** The rest of [class Record] *)

Definition birthday_not_set : pystr := u "День народження не задано".

(** [Record.show_birthday]; a [Birthday] object is always true. *)
Definition Record_show_birthday (c : libc) (self : record) : pystr :=
  match birthday self with
  | Some b => Birthday_str c b
  | None => birthday_not_set
  end.

(** [Record.__str__] *)
Definition Record_str (c : libc) (self : record) : pystr :=
  let phones_str := join (u ", ") (value <$> phones self) in
  match birthday self with
  | Some b =>
      value (name self) ++ u ": " ++ phones_str ++ u ", birthday: "
      ++ Birthday_str c b
  | None => value (name self) ++ u ": " ++ phones_str
  end.

(** ** The command handlers

    What a handler body does: it returns a string or an exception leaves
    it, and the address book is the one it was given or a changed one.
    [ValueError] carries the message that the raising line gave it. *)

Inductive raised : Type :=
| Raised_KeyError
| Raised_ValueError (message : pystr)
| Raised_IndexError
| Raised_Exception (message : pystr).

Inductive outcome : Type :=
| Returned (s : pystr)
| Threw (e : raised).

(** An exception of the classes below, with the message of the line that
    raised it. *)
Definition thrown (message : pystr) (e : exception) : raised :=
  match e with
  | ValueError => Raised_ValueError message
  | KeyError => Raised_KeyError
  | OverflowError => Raised_Exception message
  end.

(** The message of [Phone.__init__] for a string argument. *)
Definition Phone_message : pystr :=
  u "Телефонний номер повинен складатися рівно з 10 цифр.".

(** The message of [Birthday.__init__]. *)
Definition Birthday_message : pystr :=
  u "Дата повинна бути у форматі DD.MM.YYYY і бути коректною датою.".

(** [add_contact], before decoration. *)
Definition add_contact (args : list pystr) (book : AddressBook)
  : outcome * AddressBook :=
  match args with
  | name :: phone :: _ =>
      match AddressBook_find book name with
      | Ok record =>
          match Record_add_phone record phone with
          | Ok record' =>
              (Returned (u "Для контакту " ++ name ++ u " додано номер "
                         ++ phone ++ u "."),
               dict_set book name record')
          | Raise e => (Threw (thrown Phone_message e), book)
          end
      | Raise KeyError =>
          let record := Record_init name in
          match Record_add_phone record phone with
          | Ok record' =>
              (Returned (u "Створено новий контакт: " ++ name
                         ++ u " з номером " ++ phone ++ u "."),
               AddressBook_add_record book record')
          | Raise e => (Threw (thrown Phone_message e), book)
          end
      | Raise e => (Threw (thrown [] e), book)
      end
  | _ => (Threw Raised_IndexError, book)
  end.

(** [change_phone], before decoration. *)
Definition change_phone (args : list pystr) (book : AddressBook)
  : outcome * AddressBook :=
  match args with
  | name :: old_phone :: new_phone :: _ =>
      match AddressBook_find book name with
      | Ok record =>
          match Record_edit_phone record old_phone new_phone with
          | Ok (record', changed) =>
              (Returned
                 (if changed
                  then u "У " ++ name ++ u " замінено номер " ++ old_phone
                       ++ u " на " ++ new_phone ++ u "."
                  else u "У " ++ name ++ u " не знайдено номер "
                       ++ old_phone ++ u "."),
               dict_set book name record')
          | Raise e => (Threw (thrown Phone_message e), book)
          end
      | Raise e => (Threw (thrown [] e), book)
      end
  | _ => (Threw Raised_IndexError, book)
  end.

(** [show_phones], before decoration. *)
Definition show_phones (args : list pystr) (book : AddressBook)
  : outcome * AddressBook :=
  match args with
  | name :: _ =>
      match AddressBook_find book name with
      | Ok record =>
          match phones record with
          | [] =>
              (Returned (u "У " ++ name ++ u " немає телефонних номерів."),
               book)
          | _ :: _ =>
              (Returned (u "Контакт " ++ name ++ u ", телефони: "
                         ++ join (u ", ") (value <$> phones record)),
               book)
          end
      | Raise e => (Threw (thrown [] e), book)
      end
  | [] => (Threw Raised_IndexError, book)
  end.

Definition newline : pystr := [10%N].

(** [show_all], before decoration. *)
Definition show_all (c : libc) (args : list pystr) (book : AddressBook)
  : outcome * AddressBook :=
  match book with
  | [] => (Returned (u "Адресна книга порожня."), book)
  | _ :: _ =>
      (Returned (join newline (Record_str c <$> dict_values book)), book)
  end.

(** The handler [add_birthday], before decoration. *)
Definition add_birthday (args : list pystr) (book : AddressBook)
  : outcome * AddressBook :=
  match args with
  | name :: bday_str :: _ =>
      match AddressBook_find book name with
      | Ok record =>
          match Record_add_birthday record bday_str with
          | Ok record' =>
              (Returned (u "Для " ++ name
                         ++ u " встановлено день народження: " ++ bday_str),
               dict_set book name record')
          | Raise e => (Threw (thrown Birthday_message e), book)
          end
      | Raise e => (Threw (thrown [] e), book)
      end
  | _ => (Threw Raised_IndexError, book)
  end.

(** The handler [show_birthday], before decoration. *)
Definition show_birthday (c : libc) (args : list pystr) (book : AddressBook)
  : outcome * AddressBook :=
  match args with
  | name :: _ =>
      match AddressBook_find book name with
      | Ok record =>
          let bday_info := Record_show_birthday c record in
          if bool_decide (bday_info = birthday_not_set)
          then (Returned (u "У " ++ name ++ u " день народження не вказано."),
                book)
          else (Returned (u "День народження " ++ name ++ u ": " ++ bday_info),
                book)
      | Raise e => (Threw (thrown [] e), book)
      end
  | [] => (Threw Raised_IndexError, book)
  end.

Definition no_birthdays : pystr := u "На наступному тижні немає іменинників.".

Definition birthdays_header : pystr :=
  u "Ось хто святкує День народження протягом наступних 7 днів:".

(** [show_upcoming_birthdays], before decoration.  [library_message] is the
    text that [datetime] gives the exception it raises in the query. *)
Definition show_upcoming_birthdays (c : libc) (today : date)
    (library_message : exception -> pystr) (args : list pystr)
    (book : AddressBook)
  : outcome * AddressBook :=
  match AddressBook_get_upcoming_birthdays c today book with
  | Ok [] => (Returned no_birthdays, book)
  | Ok upcoming =>
      (Returned
         (join newline
            (birthdays_header
             :: ((fun person => greeting_name person ++ u " => "
                                ++ congratulation_date person) <$> upcoming))),
       book)
  | Raise e => (Threw (thrown (library_message e) e), book)
  end.

(** [greet], before decoration. *)
Definition greet (args : list pystr) (book : AddressBook)
  : outcome * AddressBook :=
  (Returned (u "Привіт! Чим можу допомогти?"), book).

(** ** The decorator [input_error] *)

(** The escape sequences of [colorama]. *)
Definition Fore_RED : pystr := [27; 91; 51; 49; 109]%N.
Definition Style_RESET_ALL : pystr := [27; 91; 48; 109]%N.

(** What a decorated handler does: the line that the decorator prints, if
    any, and the value that the call returns.  Writing to the log file is
    left out. *)
Record handled : Type := mkHandled {
  printed : option pystr;
  returned : option pystr
}.

Definition input_error (o : outcome) : handled :=
  match o with
  | Returned s => mkHandled None (Some s)
  | Threw Raised_KeyError =>
      mkHandled
        (Some (Fore_RED ++ u "Контакт з таким іменем не знайдено."
               ++ Style_RESET_ALL))
        None
  | Threw (Raised_ValueError e) =>
      mkHandled (Some (Fore_RED ++ e ++ Style_RESET_ALL)) None
  | Threw Raised_IndexError =>
      mkHandled
        (Some (Fore_RED
               ++ u "Неправильний формат команди або недостатньо аргументів."
               ++ Style_RESET_ALL))
        None
  | Threw (Raised_Exception e) =>
      mkHandled
        (Some (Fore_RED ++ u "Сталася несподівана помилка: " ++ e
               ++ Style_RESET_ALL))
        None
  end.

(** The commands of [COMMANDS]. *)
Inductive command : Type :=
| cmd_add
| cmd_change
| cmd_phone
| cmd_all
| cmd_add_birthday
| cmd_show_birthday
| cmd_birthdays
| cmd_hello.

(** The run-time of one command: the C library, the day, and the text of
    the exceptions of [datetime]. *)
Record runtime : Type := mkRuntime {
  rt_libc : libc;
  rt_today : date;
  rt_library_message : exception -> pystr
}.

(** The number of arguments that the handler of a command reads. *)
Definition arity (k : command) : nat :=
  match k with
  | cmd_add => 2
  | cmd_change => 3
  | cmd_phone => 1
  | cmd_all => 0
  | cmd_add_birthday => 2
  | cmd_show_birthday => 1
  | cmd_birthdays => 0
  | cmd_hello => 0
  end.

(** The commands that only show something. *)
Definition read_only (k : command) : bool :=
  match k with
  | cmd_add | cmd_change | cmd_add_birthday => false
  | _ => true
  end.

(** The commands whose handler lets the [KeyError] of [find] through. *)
Definition looks_up (k : command) : bool :=
  match k with
  | cmd_change | cmd_phone | cmd_add_birthday | cmd_show_birthday => true
  | _ => false
  end.

Definition handler (rt : runtime) (k : command)
  : list pystr -> AddressBook -> outcome * AddressBook :=
  match k with
  | cmd_add => add_contact
  | cmd_change => change_phone
  | cmd_phone => show_phones
  | cmd_all => show_all (rt_libc rt)
  | cmd_add_birthday => add_birthday
  | cmd_show_birthday => show_birthday (rt_libc rt)
  | cmd_birthdays =>
      show_upcoming_birthdays (rt_libc rt) (rt_today rt)
        (rt_library_message rt)
  | cmd_hello => greet
  end.

(** The address books that a session builds from the empty book, one
    command after the other. *)
Inductive session (rt : runtime) : AddressBook -> Prop :=
| session_start : session rt []
| session_command book k args :
    session rt book -> session rt (snd (handler rt k args book)).

(** What every handler keeps true of the address book. *)
Definition phone_ok (p : Phone) : Prop :=
  str_isdigit (value p) = true /\ len (value p) = 10.

Definition record_ok (r : record) : Prop :=
  Forall phone_ok (phones r)
  /\ (forall b, birthday r = Some b -> valid (value b)).

Definition book_ok (book : AddressBook) : Prop :=
  NoDup book.*1
  /\ (forall k r, (k, r) ∈ book -> value (name r) = k /\ record_ok r).

(** ** The command loop of [main]

    One pass of the [while] loop as a function of the line that [input]
    returns: what it prints, and the book it leaves.  [lower] stands for
    [str.lower], of which the loop needs no property but that it is a
    function.  Loading and saving the book are left out. *)

(** [Py_UNICODE_ISSPACE]: the white space of [str.strip] and
    [str.split]. *)
Definition str_isspace (c : N) : bool :=
  Unicode.in_ranges c
    [(9, 13); (28, 32); (133, 133); (160, 160); (5760, 5760); (8192, 8202);
     (8232, 8233); (8239, 8239); (8287, 8287); (12288, 12288)]%N.

Fixpoint str_lstrip (s : pystr) : pystr :=
  match s with
  | c :: s' => if str_isspace c then str_lstrip s' else s
  | [] => []
  end.

(** [s.strip()] *)
Definition str_strip (s : pystr) : pystr :=
  rev (str_lstrip (rev (str_lstrip s))).

(** [s.split()], with the word that is being read in [word]. *)
Fixpoint split_words (s : pystr) (word : pystr) : list pystr :=
  match s with
  | [] => match word with [] => [] | _ => [word] end
  | c :: s' =>
      if str_isspace c then
        match word with
        | [] => split_words s' []
        | _ => word :: split_words s' []
        end
      else split_words s' (word ++ [c])
  end.

Definition str_split (s : pystr) : list pystr := split_words s [].

Definition Fore_YELLOW : pystr := [27; 91; 51; 51; 109]%N.
Definition Fore_CYAN : pystr := [27; 91; 51; 54; 109]%N.

Definition goodbye : pystr := u "До побачення! Зберігаю книгу...".

Definition help_text : pystr :=
  Fore_YELLOW ++ u "Підтримувані команди:" ++ newline ++ Style_RESET_ALL
  ++ u "  hello" ++ newline
  ++ u "  add [name] [phone]" ++ newline
  ++ u "  change [name] [old_phone] [new_phone]" ++ newline
  ++ u "  phone [name]" ++ newline
  ++ u "  all" ++ newline
  ++ u "  add-birthday [name] [DD.MM.YYYY]" ++ newline
  ++ u "  show-birthday [name]" ++ newline
  ++ u "  birthdays" ++ newline
  ++ u "  close або exit (для завершення)" ++ newline.

Definition unknown_command : pystr :=
  Fore_CYAN
  ++ u "Невідома команда. Спробуйте 'help' для перегляду доступних команд."
  ++ Style_RESET_ALL.

(** [COMMANDS.get(command)] *)
Definition COMMANDS (key : pystr) : option command :=
  if bool_decide (key = str "add") then Some cmd_add
  else if bool_decide (key = str "change") then Some cmd_change
  else if bool_decide (key = str "phone") then Some cmd_phone
  else if bool_decide (key = str "all") then Some cmd_all
  else if bool_decide (key = str "add-birthday") then Some cmd_add_birthday
  else if bool_decide (key = str "show-birthday")
  then Some cmd_show_birthday
  else if bool_decide (key = str "birthdays") then Some cmd_birthdays
  else if bool_decide (key = str "hello") then Some cmd_hello
  else None.

(** How one pass of the loop ends: the loop goes on, the loop is left,
    or [parts[0]] raises [IndexError].  [output] is what the pass
    prints, line by line. *)
Inductive pass : Type :=
| Continues (output : list pystr) (book : AddressBook)
| Exits (output : list pystr) (book : AddressBook)
| Fails_IndexError.

Section main.

Variable lower : pystr -> pystr.

Definition main_pass (rt : runtime) (line : pystr) (address_book : AddressBook)
  : pass :=
  let user_input := str_strip line in
  match user_input with
  | [] => Continues [] address_book
  | _ :: _ =>
      match str_split user_input with
      | [] => Fails_IndexError
      | part0 :: args =>
          let command := lower part0 in
          if bool_decide (command = str "exit")
             || bool_decide (command = str "close")
          then Exits [goodbye] address_book
          else if bool_decide (command = str "help")
          then Continues [help_text] address_book
          else
            match COMMANDS command with
            | Some k =>
                let result := input_error (handler rt k args address_book).1 in
                Continues
                  (option_list (printed result)
                   ++ option_list (returned result))
                  (handler rt k args address_book).2
            | None => Continues [unknown_command] address_book
            end
      end
  end.

(** The loop on the lines that the user types, each with the run-time of
    its pass. *)
Fixpoint main_loop (inputs : list (runtime * pystr))
    (address_book : AddressBook) : pass :=
  match inputs with
  | [] => Continues [] address_book
  | (rt, line) :: inputs' =>
      match main_pass rt line address_book with
      | Continues output book' =>
          match main_loop inputs' book' with
          | Continues output' book'' => Continues (output ++ output') book''
          | Exits output' book'' => Exits (output ++ output') book''
          | Fails_IndexError => Fails_IndexError
          end
      | end_of_loop => end_of_loop
      end
  end.

End main.

(** The book that a pass leaves, if any. *)
Definition book_of (p : pass) : option AddressBook :=
  match p with
  | Continues _ book | Exits _ book => Some book
  | Fails_IndexError => None
  end.

(** A word of a command line: not empty, no white space. *)
Definition word (s : pystr) : Prop :=
  s <> [] /\ Forall (fun c => str_isspace c = false) s.

(** * Properties *)

(** ** The calendar *)

Lemma month_day_checked (leapyear : bool) :
  forallb (month_day_check leapyear)
          (map Z.of_nat (seq 0 (if leapyear then 366 else 365))) = true.
Proof. destruct leapyear; vm_compute; reflexivity. Qed.

Lemma month_day_ok (leapyear : bool) (n : Z) :
  0 <= n < (if leapyear then 366 else 365) ->
  month_day_check leapyear n = true.
Proof.
  intros Hn.
  pose proof (month_day_checked leapyear) as Hall.
  rewrite forallb_forall in Hall. apply Hall.
  apply in_map_iff. exists (Z.to_nat n). split; [lia|].
  apply in_seq. destruct leapyear; lia.
Qed.

Lemma is_leap_parts (a b c e : Z) :
  0 <= b <= 3 -> 0 <= c <= 24 -> 0 <= e <= 3 ->
  _is_leap (a * 400 + 1 + (b * 100 + c * 4 + e))
  = (e =? 3) && (negb (c =? 24) || (b =? 3)).
Proof.
  intros Hb Hc He. unfold _is_leap.
  repeat match goal with
         | |- context [?x =? ?y] => destruct (Z.eqb_spec x y)
         end; simpl; try reflexivity; exfalso;
    Z.div_mod_to_equations; lia.
Qed.

Lemma days_before_year_parts (a b c e : Z) :
  0 <= b <= 3 -> 0 <= c <= 24 -> 0 <= e <= 3 ->
  _days_before_year (a * 400 + 1 + (b * 100 + c * 4 + e))
  = a * _DI400Y + b * _DI100Y + c * _DI4Y + e * 365.
Proof.
  intros Hb Hc He. unfold _days_before_year, _DI400Y, _DI100Y, _DI4Y.
  Z.div_mod_to_equations; lia.
Qed.

Lemma ord2ymd_unfold (n : Z) :
  _ord2ymd n =
  let a := (n - 1) / _DI400Y in
  let r := (n - 1) mod _DI400Y in
  let b := r / _DI100Y in
  let c := (r mod _DI100Y) / _DI4Y in
  let r4 := (r mod _DI100Y) mod _DI4Y in
  let e := r4 / 365 in
  let f := r4 mod 365 in
  let y := a * 400 + 1 + (b * 100 + c * 4 + e) in
  if (e =? 4) || (b =? 4) then (y - 1, 12, 31)
  else
    let '(m, d) := month_day ((e =? 3) && (negb (c =? 24) || (b =? 3))) f in
    (y, m, d).
Proof.
  unfold _ord2ymd, month_day. cbv zeta.
  destruct (_ || _); [reflexivity|].
  destruct (_ <? _); reflexivity.
Qed.

Lemma ord2ymd_ymd2ord (n : Z) :
  let '(y, m, d) := _ord2ymd n in
  1 <= m <= 12 /\ 1 <= d <= _days_in_month y m /\ _ymd2ord y m d = n.
Proof.
  rewrite ord2ymd_unfold. cbv zeta.
  set (a := (n - 1) / _DI400Y).
  set (r := (n - 1) mod _DI400Y).
  set (b := r / _DI100Y).
  set (r1 := r mod _DI100Y).
  set (c := r1 / _DI4Y).
  set (r4 := r1 mod _DI4Y).
  set (e := r4 / 365).
  set (f := r4 mod 365).
  assert (Hn : n - 1 = a * _DI400Y + r /\ 0 <= r < _DI400Y).
  { subst a r. unfold _DI400Y. Z.div_mod_to_equations. lia. }
  assert (Hr : r = b * _DI100Y + r1 /\ 0 <= r1 < _DI100Y /\ 0 <= b <= 4).
  { subst b r1. unfold _DI100Y, _DI400Y in *. Z.div_mod_to_equations. lia. }
  assert (Hr1 : r1 = c * _DI4Y + r4 /\ 0 <= r4 < _DI4Y /\ 0 <= c <= 24).
  { subst c r4. unfold _DI4Y, _DI100Y in *. Z.div_mod_to_equations. lia. }
  assert (Hr4 : r4 = e * 365 + f /\ 0 <= f < 365 /\ 0 <= e <= 4).
  { subst e f. unfold _DI4Y in *. Z.div_mod_to_equations. lia. }
  clearbody a r b r1 c r4 e f.
  destruct Hn as [Hn Hrb], Hr as (Hr & Hr1b & Hb), Hr1 as (Hr1 & Hr4b & Hc),
    Hr4 as (Hr4 & Hf & He).
  destruct (Z.eqb_spec e 4) as [He4|He4]; simpl orb.
  - (* the last day of a four-year cycle *)
    assert (c <= 23 /\ b <= 3 /\ f = 0) as (Hc' & Hb' & Hf0)
      by (unfold _DI4Y, _DI100Y, _DI400Y in *; lia).
    replace (a * 400 + 1 + (b * 100 + c * 4 + e) - 1)
      with (a * 400 + 1 + (b * 100 + c * 4 + 3)) by lia.
    unfold _ymd2ord, _days_in_month, _days_before_month.
    rewrite days_before_year_parts, is_leap_parts by lia.
    replace (c =? 24) with false by (symmetry; apply Z.eqb_neq; lia).
    change (index _DAYS_IN_MONTH 12) with 31.
    change (index _DAYS_BEFORE_MONTH 12) with 334.
    simpl. unfold _DI4Y, _DI100Y, _DI400Y in *. lia.
  - destruct (Z.eqb_spec b 4) as [Hb4|Hb4].
    + (* the last day of a 400-year cycle *)
      assert (r1 = 0 /\ c = 0 /\ e = 0 /\ f = 0) as (? & ? & ? & ?)
        by (unfold _DI4Y, _DI100Y, _DI400Y in *; lia).
      subst.
      replace (a * 400 + 1 + (4 * 100 + 0 * 4 + 0) - 1)
        with (a * 400 + 1 + (3 * 100 + 24 * 4 + 3)) by lia.
      unfold _ymd2ord, _days_in_month, _days_before_month.
      rewrite days_before_year_parts, is_leap_parts by lia.
      change (index _DAYS_IN_MONTH 12) with 31.
    change (index _DAYS_BEFORE_MONTH 12) with 334.
    simpl. unfold _DI4Y, _DI100Y, _DI400Y in *. lia.
    + set (leap := (e =? 3) && (negb (c =? 24) || (b =? 3))).
      pose proof (month_day_ok leap f) as Hmd.
      destruct (month_day leap f) as [m d] eqn:Emd.
      unfold month_day_check in Hmd. rewrite Emd in Hmd.
      assert (Hrange : 0 <= f < (if leap then 366 else 365))
        by (destruct leap; lia).
      specialize (Hmd Hrange).
      rewrite !andb_true_iff in Hmd.
      destruct Hmd as ((((Hm1 & Hm2) & Hd1) & Hd2) & Hsum).
      unfold _ymd2ord, _days_in_month, _days_before_month.
      rewrite days_before_year_parts, is_leap_parts by lia.
      fold leap.
      unfold _DI4Y, _DI100Y, _DI400Y in *. lia.
Qed.

Ltac month_cases m :=
  let H := fresh "Hm" in
  assert (H : m = 1 \/ m = 2 \/ m = 3 \/ m = 4 \/ m = 5 \/ m = 6 \/ m = 7
              \/ m = 8 \/ m = 9 \/ m = 10 \/ m = 11 \/ m = 12) by lia;
  repeat (destruct H as [H|H]); subst m.

Ltac eval_index :=
  repeat match goal with
         | |- context [index ?l ?k] =>
             let v := eval vm_compute in (index l k) in
             change (index l k) with v
         | H : context [index ?l ?k] |- _ =>
             let v := eval vm_compute in (index l k) in
             change (index l k) with v in H
         end.

Lemma days_before_year_succ (y : Z) :
  _days_before_year (y + 1)
  = _days_before_year y + 365 + (if _is_leap y then 1 else 0).
Proof.
  unfold _days_before_year, _is_leap.
  repeat match goal with
         | |- context [?x =? ?y] => destruct (Z.eqb_spec x y)
         end; simpl; Z.div_mod_to_equations; lia.
Qed.

Lemma days_before_year_mono (y1 y2 : Z) :
  y1 <= y2 -> _days_before_year y1 <= _days_before_year y2.
Proof.
  intros H. unfold _days_before_year. Z.div_mod_to_equations. lia.
Qed.

Lemma day_of_year_bounds (y m d : Z) :
  1 <= m <= 12 -> 1 <= d <= _days_in_month y m ->
  1 <= _days_before_month y m + d <= 365 + (if _is_leap y then 1 else 0).
Proof.
  intros Hm Hd. unfold _days_in_month, _days_before_month in *.
  month_cases m; destruct (_is_leap y); eval_index; cbn in *; lia.
Qed.

Lemma ymd2ord_year_bounds (y m d : Z) :
  1 <= m <= 12 -> 1 <= d <= _days_in_month y m ->
  (1 <= _ymd2ord y m d <= _MAXORDINAL <-> MINYEAR <= y <= MAXYEAR).
Proof.
  intros Hm Hd. unfold _ymd2ord, MINYEAR, MAXYEAR.
  pose proof (day_of_year_bounds y m d Hm Hd) as Hdoy.
  pose proof (days_before_year_succ y) as Hsucc.
  change _MAXORDINAL with (_days_before_year 10000).
  split.
  - intros [Hlo Hhi]. split.
    + destruct (Z_le_gt_dec 1 y); [assumption|].
      pose proof (days_before_year_mono (y + 1) 1 ltac:(lia)).
      change (_days_before_year 1) with 0 in *. lia.
    + destruct (Z_le_gt_dec y 9999); [assumption|].
      pose proof (days_before_year_mono 10000 y ltac:(lia)). lia.
  - intros [Hlo Hhi]. split.
    + pose proof (days_before_year_mono 1 y ltac:(lia)).
      change (_days_before_year 1) with 0 in *. lia.
    + pose proof (days_before_year_mono (y + 1) 10000 ltac:(lia)). lia.
Qed.

Lemma valid_toordinal (d : date) :
  valid d -> 1 <= toordinal d <= _MAXORDINAL.
Proof.
  intros (Hy & Hm & Hd). unfold toordinal.
  apply ymd2ord_year_bounds; assumption.
Qed.

Lemma new_ok (y m d : Z) :
  valid (mkdate y m d) -> new y m d = Ok (mkdate y m d).
Proof.
  unfold valid, new. cbn. intros (Hy & Hm & Hd).
  repeat match goal with
         | |- context [?a <=? ?b] =>
             destruct (Z.leb_spec a b); [|exfalso; lia]
         end.
  reflexivity.
Qed.

Lemma new_inv (y m d : Z) (x : date) :
  new y m d = Ok x -> x = mkdate y m d /\ valid x.
Proof.
  unfold valid, new.
  repeat match goal with
         | |- context [?a <=? ?b] => destruct (Z.leb_spec a b)
         end; cbn; try discriminate.
  intros [= <-]. split; [reflexivity|]. cbn. lia.
Qed.

Lemma new_raises (y m d : Z) (e : exception) :
  new y m d = Raise e -> e = ValueError.
Proof.
  unfold new.
  repeat match goal with
         | |- context [if ?b then _ else _] => destruct b
         end; congruence.
Qed.

Lemma fromordinal_ok (n : Z) :
  1 <= n <= _MAXORDINAL ->
  exists d, fromordinal n = Ok d /\ valid d /\ toordinal d = n.
Proof.
  intros Hn. unfold fromordinal.
  pose proof (ord2ymd_ymd2ord n) as H.
  destruct (_ord2ymd n) as [[y m] d].
  destruct H as (Hm & Hd & Hord).
  assert (Hv : valid (mkdate y m d)).
  { repeat split; cbn; try lia;
      apply (ymd2ord_year_bounds y m d Hm Hd); lia. }
  exists (mkdate y m d). split; [apply new_ok, Hv|]. split; [exact Hv|].
  exact Hord.
Qed.

Lemma add_days_inv (d d' : date) (k : Z) :
  add_days d k = Ok d' -> valid d' /\ toordinal d' = toordinal d + k.
Proof.
  unfold add_days.
  destruct (Z.ltb_spec 0 (toordinal d + k)); cbn; [|discriminate].
  destruct (Z.leb_spec (toordinal d + k) _MAXORDINAL); cbn; [|discriminate].
  destruct (fromordinal_ok (toordinal d + k)) as (x & Hx & Hv & Ho); [lia|].
  rewrite Hx. intros [= <-]. auto.
Qed.

Lemma add_days_ok (d : date) (k : Z) :
  1 <= toordinal d + k <= _MAXORDINAL ->
  exists d', add_days d k = Ok d' /\ valid d'
             /\ toordinal d' = toordinal d + k.
Proof.
  intros H. unfold add_days.
  destruct (Z.ltb_spec 0 (toordinal d + k)); [|lia].
  destruct (Z.leb_spec (toordinal d + k) _MAXORDINAL); [|lia]. cbn.
  apply fromordinal_ok. lia.
Qed.

Lemma weekday_range (d : date) : 0 <= weekday d <= 6.
Proof. unfold weekday. Z.div_mod_to_equations. lia. Qed.

(** ** Printing a date *)

Lemma strftime_Ymd (c : libc) (d : date) :
  strftime c Ymd_format d
  = directive_Y c (year d) ++ [chr "."] ++ two_digits (month d) ++ [chr "."]
    ++ two_digits (day d).
Proof. reflexivity. Qed.

Lemma digit_value_digit (n : Z) : 0 <= n -> digit_value (digit n) = n.
Proof. intros H. unfold digit_value, digit. lia. Qed.

Lemma ascii_number_two_digits (n : Z) :
  0 <= n <= 99 -> ascii_number (two_digits n) = n.
Proof.
  intros H. unfold ascii_number, two_digits. cbn [fold_left].
  rewrite !digit_value_digit by (Z.div_mod_to_equations; lia).
  Z.div_mod_to_equations. lia.
Qed.

Lemma ascii_number_four_digits (n : Z) :
  0 <= n <= 9999 -> ascii_number (four_digits n) = n.
Proof.
  intros H. unfold ascii_number, four_digits. cbn [fold_left].
  rewrite !digit_value_digit by (Z.div_mod_to_equations; lia).
  Z.div_mod_to_equations. lia.
Qed.

Lemma ascii_number_strip_zeros (s : pystr) :
  ascii_number (strip_zeros s) = ascii_number s.
Proof.
  induction s as [|c s IH]; [reflexivity|].
  destruct s as [|c' s]; [reflexivity|].
  change (strip_zeros (c :: c' :: s))
    with (if (c =? 48)%N then strip_zeros (c' :: s) else c :: c' :: s).
  destruct (N.eqb_spec c 48) as [->|_]; [|reflexivity].
  rewrite IH. reflexivity.
Qed.

Lemma ascii_number_directive_Y (c : libc) (y : Z) :
  0 <= y <= 9999 -> ascii_number (directive_Y c y) = y.
Proof.
  intros H. destruct c; cbn [directive_Y];
    rewrite ?ascii_number_strip_zeros; apply ascii_number_four_digits, H.
Qed.

Lemma valid_fields (d : date) :
  valid d -> 1 <= year d <= 9999 /\ 1 <= month d <= 12 /\ 1 <= day d <= 31.
Proof.
  intros (Hy & Hm & Hd). destruct d as [y m dd]. cbn [year month day] in *.
  split; [exact Hy|]. split; [exact Hm|]. unfold _days_in_month in Hd.
  month_cases m; destruct (_is_leap y); eval_index; cbn in Hd; lia.
Qed.

(** A date can be read back from its [%Y.%m.%d] form. *)
Lemma strftime_Ymd_inj (c : libc) (d1 d2 : date) :
  valid d1 -> valid d2 ->
  strftime c Ymd_format d1 = strftime c Ymd_format d2 -> d1 = d2.
Proof.
  intros H1 H2. rewrite !strftime_Ymd. intros Heq.
  apply valid_fields in H1 as (Hy1 & Hm1 & Hd1).
  apply valid_fields in H2 as (Hy2 & Hm2 & Hd2).
  apply app_inj_2 in Heq as [HY Heq]; [|reflexivity].
  unfold two_digits in Heq. cbn [app] in Heq. inversion Heq.
  assert (HM : two_digits (month d1) = two_digits (month d2))
    by (unfold two_digits; congruence).
  assert (HD : two_digits (day d1) = two_digits (day d2))
    by (unfold two_digits; congruence).
  apply (f_equal ascii_number) in HY, HM, HD.
  rewrite !ascii_number_directive_Y in HY by lia.
  rewrite !ascii_number_two_digits in HM, HD by lia.
  destruct d1, d2. cbn in *. congruence.
Qed.

(** ** The loop of the query *)

(** An invariant of the accumulator that every step keeps is kept by the
    loop. *)
Lemma for_each_invariant {A S : Type} (I : S -> Prop)
    (body : S -> A -> result S) (l : list A) :
  (forall s a s', I s -> body s a = Ok s' -> I s') ->
  forall s s', I s -> for_each body s l = Ok s' -> I s'.
Proof.
  intros Hstep. induction l as [|a l IH]; intros s s' Hs; cbn.
  - intros [= <-]. exact Hs.
  - destruct (body s a) as [s1|e] eqn:E; cbn; [|discriminate].
    apply IH. eapply Hstep; eauto.
Qed.

Lemma weekday_add_days (d d' : date) (k : Z) :
  add_days d k = Ok d' -> weekday d' = (weekday d + k) mod 7.
Proof.
  intros H. apply add_days_inv in H as [_ Ho].
  unfold weekday. rewrite Ho. Z.div_mod_to_equations. lia.
Qed.

(** One pass of the loop body either leaves the list alone or appends a
    greeting dated on a working day. *)
Lemma upcoming_body_weekday (c : libc) (today : date) (acc acc' : list greeting)
    (r : record) :
  upcoming_body c today acc r = Ok acc' ->
  acc' = acc
  \/ exists g d, acc' = acc ++ [g] /\ greets_on c g d /\ 0 <= weekday d <= 4.
Proof.
  unfold upcoming_body.
  destruct (birthday r) as [b|]; [|intros [= <-]; auto].
  destruct (replace_year (value b) (year today)) as [p0|] eqn:E0; cbn [bind];
    [|discriminate].
  apply new_inv in E0 as [_ Hv0].
  set (p1 := if lt p0 today then _ else _).
  destruct p1 as [p|] eqn:E1; cbn [bind]; [|discriminate].
  assert (Hv : valid p).
  { subst p1. destruct (lt p0 today).
    - apply new_inv in E1 as [_ ?]; assumption.
    - injection E1 as <-. assumption. }
  destruct (_ && _); [|intros [= <-]; auto].
  pose proof (weekday_range p) as Hr.
  destruct (Z.eqb_spec (weekday p) 5) as [H5|H5].
  - destruct (add_days p 2) as [q|] eqn:Eq; cbn [bind]; [|discriminate].
    intros [= <-]. right. eexists _, q; split; [reflexivity|].
    pose proof (weekday_add_days _ _ _ Eq) as Hw.
    apply add_days_inv in Eq as [Hq _].
    split; [split; [exact Hq|reflexivity]|].
    rewrite Hw, H5. change ((5 + 2) mod 7) with 0. lia.
  - destruct (Z.eqb_spec (weekday p) 6) as [H6|H6].
    + destruct (add_days p 1) as [q|] eqn:Eq; cbn [bind]; [|discriminate].
      intros [= <-]. right. eexists _, q; split; [reflexivity|].
      pose proof (weekday_add_days _ _ _ Eq) as Hw.
      apply add_days_inv in Eq as [Hq _].
      split; [split; [exact Hq|reflexivity]|].
      rewrite Hw, H6. change ((6 + 1) mod 7) with 0. lia.
    + cbn [bind]. intros [= <-]. right. eexists _, p; split; [reflexivity|].
      split; [split; [exact Hv|reflexivity]|lia].
Qed.

(** Claim C10.  Whatever the address book and whatever day it is, every
    entry that the upcoming-birthdays query returns carries a
    congratulation date that falls on a working day, Monday to Friday:
    never a Saturday, never a Sunday. *)
Theorem upcoming_birthdays_on_weekdays (c : libc) (today : date)
    (book : AddressBook) (upcoming : list greeting) :
  AddressBook_get_upcoming_birthdays c today book = Ok upcoming ->
  forall g, g ∈ upcoming -> on_weekday c g.
Proof.
  unfold AddressBook_get_upcoming_birthdays. intros H.
  apply (for_each_invariant (fun acc => forall g, g ∈ acc -> on_weekday c g)
           (upcoming_body c today) (dict_values book)) with (s := []);
    [|intros g Hg; inversion Hg|exact H].
  intros acc r acc' Hacc Hbody g Hg.
  apply upcoming_body_weekday in Hbody as [->|(g0 & d0 & -> & Hg0 & Hw)];
    [auto|].
  apply elem_of_app in Hg as [Hg|Hg]; [auto|].
  apply list_elem_of_singleton in Hg as ->.
  split; [exists d0; exact Hg0|].
  intros d [Hd Hs]. destruct Hg0 as [Hd0 Hs0].
  rewrite (strftime_Ymd_inj c d d0 Hd Hd0) by congruence. exact Hw.
Qed.

(** ** The query against the algorithm of the specification *)

Lemma exists_date_valid (y m d : Z) :
  exists_date y m d = true <-> valid (mkdate y m d).
Proof.
  unfold exists_date, valid. cbn.
  rewrite !andb_true_iff, !Z.leb_le. tauto.
Qed.

Lemma ymd2ord_in_year (y m d : Z) :
  1 <= m <= 12 -> 1 <= d <= _days_in_month y m ->
  _days_before_year y < _ymd2ord y m d <= _days_before_year (y + 1).
Proof.
  intros Hm Hd. unfold _ymd2ord.
  pose proof (day_of_year_bounds y m d Hm Hd).
  rewrite days_before_year_succ. lia.
Qed.

(** Dates in an earlier year have smaller ordinals. *)
Lemma toordinal_year_mono (d1 d2 : date) :
  valid d1 -> valid d2 -> toordinal d1 <= toordinal d2 -> year d1 <= year d2.
Proof.
  intros (_ & Hm1 & Hd1) (_ & Hm2 & Hd2) Hle.
  destruct (Z_le_gt_dec (year d1) (year d2)) as [|Hgt]; [assumption|].
  pose proof (ymd2ord_in_year _ _ _ Hm1 Hd1).
  pose proof (ymd2ord_in_year _ _ _ Hm2 Hd2).
  pose proof (days_before_year_mono (year d2 + 1) (year d1) ltac:(lia)).
  unfold toordinal in Hle. lia.
Qed.

(** A Saturday or Sunday is never one of the last days of the calendar, so
    the shift to Monday stays in range. *)
Lemma weekend_shift_in_range (p : date) (k : Z) :
  valid p ->
  (weekday p = 5 /\ k = 2) \/ (weekday p = 6 /\ k = 1) ->
  1 <= toordinal p + k <= _MAXORDINAL.
Proof.
  intros Hv Hk. pose proof (valid_toordinal p Hv) as Ho.
  unfold weekday, _MAXORDINAL in *. Z.div_mod_to_equations. lia.
Qed.

Lemma fromordinal_inv (o : Z) (q : date) :
  fromordinal o = Ok q ->
  q = Spec.of_triple (_ord2ymd o).
Proof.
  unfold fromordinal. destruct (_ord2ymd o) as [[y m] d].
  intros H. apply new_inv in H as [-> _]. reflexivity.
Qed.

Lemma plusDays_unfold (p : date) (k : Z) :
  Spec.plusDays p k = Spec.of_triple (_ord2ymd (toordinal p + k)).
Proof. unfold Spec.plusDays. reflexivity. Qed.

Lemma add_days_plusDays (p : date) (k : Z) :
  1 <= toordinal p + k <= _MAXORDINAL ->
  add_days p k = Ok (Spec.plusDays p k)
  /\ valid (Spec.plusDays p k)
  /\ toordinal (Spec.plusDays p k) = toordinal p + k.
Proof.
  intros H.
  destruct (fromordinal_ok (toordinal p + k) H) as (q & Hq & Hv & Ho).
  pose proof (fromordinal_inv _ _ Hq) as Heq.
  rewrite <- plusDays_unfold in Heq. subst q.
  split; [|split; assumption].
  unfold add_days. rewrite Hq.
  destruct (Z.ltb_spec 0 (toordinal p + k)); [|lia].
  destruct (Z.leb_spec (toordinal p + k) _MAXORDINAL); [|lia].
  reflexivity.
Qed.

Lemma strip_zeros_four_digits (y : Z) :
  1000 <= y <= 9999 -> strip_zeros (four_digits y) = four_digits y.
Proof.
  intros Hy. unfold four_digits, strip_zeros.
  destruct (N.eqb_spec (digit (y / 1000 mod 10)) 48) as [E|E]; [|reflexivity].
  exfalso. unfold digit in E. Z.div_mod_to_equations. lia.
Qed.

Lemma strftime_Ymd_format (c : libc) (d : date) :
  c = pads_year \/ 1000 <= year d <= 9999 ->
  strftime c Ymd_format d = Spec.format_YYYY_MM_DD d.
Proof.
  intros H. rewrite strftime_Ymd. unfold Spec.format_YYYY_MM_DD.
  f_equal. destruct c; cbn; [reflexivity|].
  destruct H as [|H]; [discriminate|]. apply strip_zeros_four_digits, H.
Qed.

Lemma projected_ok (today b : date) :
  projectable today b = true ->
  (p0 <- replace_year b (year today) ;;
   if lt p0 today then replace_year p0 (year today + 1) else Ok p0)
  = Ok (Spec.projected today b)
  /\ valid (Spec.projected today b)
  /\ year today <= year (Spec.projected today b).
Proof.
  unfold projectable, Spec.projected, replace_year.
  rewrite andb_true_iff. intros [H0 H1].
  apply exists_date_valid in H0.
  rewrite (new_ok _ _ _ H0). cbn.
  fold (Spec.withYear b (year today)).
  destruct (lt (Spec.withYear b (year today)) today).
  - apply exists_date_valid in H1. split; [apply new_ok, H1|].
    split; [exact H1|cbn; lia].
  - split; [reflexivity|]. split; [exact H0|cbn; lia].
Qed.

(** With its projections defined, one pass of the loop body appends what
    step 6 of the specification prescribes for the record. *)
Lemma upcoming_body_spec (c : libc) (today : date) (acc : list greeting)
    (r : record) :
  c = pads_year \/ 1000 <= year today ->
  (forall b, birthday r = Some b -> projectable today (value b) = true) ->
  upcoming_body c today acc r
  = Ok (acc ++ option_list (Spec.entry today r)).
Proof.
  intros Hc Hproj. unfold upcoming_body, Spec.entry.
  destruct (birthday r) as [b|]; [|cbn; rewrite app_nil_r; reflexivity].
  specialize (Hproj b eq_refl).
  destruct (projected_ok today (value b) Hproj) as (Hp & Hv & Hy).
  set (p := Spec.projected today (value b)) in *.
  unfold bind in Hp |- *.
  destruct (replace_year (value b) (year today)) as [p0|]; [|discriminate].
  rewrite Hp.
  change (sub_days p today) with (Spec.daysAhead today (value b)).
  unfold Spec.qualifies.
  destruct (_ && _); [|cbn; rewrite app_nil_r; reflexivity].
  assert (Hfmt : forall q, valid q -> year p <= year q ->
            strftime c Ymd_format q = Spec.format_YYYY_MM_DD q).
  { intros q Hq Hpq. apply strftime_Ymd_format.
    destruct Hc as [->|Hc]; [left; reflexivity|right].
    destruct Hq as (Hqy & _). unfold MINYEAR, MAXYEAR in Hqy. lia. }
  unfold Spec.congratulationDate. fold p.
  unfold Spec.Saturday, Spec.Sunday.
  destruct (Z.eqb_spec (weekday p) 5) as [H5|H5];
    [|destruct (Z.eqb_spec (weekday p) 6) as [H6|H6]].
  - destruct (add_days_plusDays p 2) as (-> & Hq & Ho);
      [apply weekend_shift_in_range; auto|].
    cbn [bind]. rewrite Hfmt; [reflexivity|exact Hq|].
    apply toordinal_year_mono; [exact Hv|exact Hq|lia].
  - destruct (add_days_plusDays p 1) as (-> & Hq & Ho);
      [apply weekend_shift_in_range; auto|].
    cbn [bind]. rewrite Hfmt; [reflexivity|exact Hq|].
    apply toordinal_year_mono; [exact Hv|exact Hq|lia].
  - cbn [bind]. rewrite Hfmt; [reflexivity|exact Hv|lia].
Qed.

Lemma for_each_append {A B : Type} (body : list B -> A -> result (list B))
    (f : A -> option B) (l : list A) :
  (forall acc a, a ∈ l -> body acc a = Ok (acc ++ option_list (f a))) ->
  forall acc, for_each body acc l = Ok (acc ++ omap f l).
Proof.
  induction l as [|a l IH]; intros Hbody acc; cbn.
  - rewrite app_nil_r. reflexivity.
  - rewrite Hbody by left. cbn.
    rewrite IH by (intros; apply Hbody; right; assumption).
    destruct (f a); cbn; [rewrite <- app_assoc|rewrite app_nil_r];
      reflexivity.
Qed.

Lemma new_feb29_raises (y : Z) :
  _is_leap y = false -> new y 2 29 = Raise ValueError.
Proof.
  intros H. unfold new.
  replace (_days_in_month y 2) with 28
    by (unfold _days_in_month; rewrite H; reflexivity).
  destruct (negb (_ && _)); reflexivity.
Qed.

Lemma leap_not_twice (y : Z) : _is_leap y = true -> _is_leap (y + 1) = false.
Proof.
  unfold _is_leap. rewrite andb_true_iff, Z.eqb_eq. intros [H4 _].
  replace ((y + 1) mod 4 =? 0) with false; [reflexivity|].
  symmetry. apply Z.eqb_neq. Z.div_mod_to_equations. lia.
Qed.

(** The shift of step 5 lands on the Monday after the weekend. *)
Lemma congratulationDate_shift (today b : date) :
  valid (Spec.projected today b) ->
  let p := Spec.projected today b in
  let q := Spec.congratulationDate today b in
  valid q
  /\ (weekday p = Spec.Saturday ->
      toordinal q = toordinal p + 2 /\ weekday q = 0)
  /\ (weekday p = Spec.Sunday ->
      toordinal q = toordinal p + 1 /\ weekday q = 0)
  /\ (weekday p <> Spec.Saturday -> weekday p <> Spec.Sunday -> q = p).
Proof.
  intros Hv p q. subst q. unfold Spec.congratulationDate. fold p.
  unfold Spec.Saturday, Spec.Sunday.
  destruct (Z.eqb_spec (weekday p) 5) as [H5|H5];
    [|destruct (Z.eqb_spec (weekday p) 6) as [H6|H6]].
  - destruct (add_days_plusDays p 2) as (_ & Hq & Ho);
      [apply weekend_shift_in_range; auto|].
    split; [exact Hq|]. split; [|split; [lia|contradiction]].
    intros _. split; [exact Ho|]. unfold weekday in *. rewrite Ho.
    Z.div_mod_to_equations. lia.
  - destruct (add_days_plusDays p 1) as (_ & Hq & Ho);
      [apply weekend_shift_in_range; auto|].
    split; [exact Hq|]. split; [contradiction|]. split; [|contradiction].
    intros _. split; [exact Ho|]. unfold weekday in *. rewrite Ho.
    Z.div_mod_to_equations. lia.
  - split; [exact Hv|]. repeat split; try contradiction; reflexivity.
Qed.

(** Which birthdays can be projected: a birthday on 29 February only in a
    leap year and as long as it has not passed; a birthday that has passed
    only before the last year of the calendar. *)
Lemma projectable_iff (today b : date) :
  valid today -> valid b ->
  (projectable today b = true <->
   (feb29 b = true ->
    _is_leap (year today) = true
    /\ lt (Spec.withYear b (year today)) today = false)
   /\ (lt (Spec.withYear b (year today)) today = true ->
       year today < MAXYEAR)).
Proof.
  intros (Hty & _) (Hby & Hbm & Hbd).
  assert (Hex : forall y, exists_date y (month b) (day b) = true <->
                  (MINYEAR <= y <= MAXYEAR
                   /\ (feb29 b = true -> _is_leap y = true))).
  { intros y. rewrite exists_date_valid. unfold valid, feb29. cbn.
    rewrite andb_true_iff, !Z.eqb_eq.
    unfold _days_in_month in *.
    destruct (Z.eqb_spec (month b) 2) as [E|E]; cbn [andb] in *.
    - rewrite E in *. eval_index. split.
      + intros (Hy & _ & Hd). split; [exact Hy|]. intros [_ H29].
        destruct (_is_leap y); [reflexivity|lia].
      + intros (Hy & Hf). split; [exact Hy|]. split; [lia|].
        destruct (_is_leap y); [destruct (_is_leap (year b)); lia|].
        destruct (Z.eq_dec (day b) 29) as [H29|H29];
          [specialize (Hf (conj eq_refl H29)); discriminate|].
        destruct (_is_leap (year b)); lia.
    - split.
      + intros (Hy & _ & _). split; [exact Hy|]. intros [H2 _]. contradiction.
      + intros (Hy & _). auto. }
  unfold projectable. rewrite andb_true_iff, Hex.
  destruct (lt (Spec.withYear b (year today)) today) eqn:Hlt.
  - rewrite Hex. unfold MINYEAR, MAXYEAR in *. split.
    + intros [[_ H1] [H2 H3]]. split; [|lia].
      intros Hf. pose proof (leap_not_twice (year today) (H1 Hf)).
      rewrite (H3 Hf) in *. discriminate.
    + intros [H1 H2]. specialize (H2 eq_refl).
      assert (feb29 b = false) as Hf
        by (destruct (feb29 b); [destruct (H1 eq_refl); discriminate
                                |reflexivity]).
      rewrite Hf. repeat split; (lia || discriminate).
  - split.
    + intros [[_ H1] _]. split; [|discriminate].
      intros Hf. split; [auto|reflexivity].
    + intros [H1 _]. split; [|reflexivity]. split; [exact Hty|].
      intros Hf. apply (H1 Hf).
Qed.

(** Claim C1, amended.  Whenever each set birthday can be projected (its
    month and day exist in the year of [today], and in the next year when
    that date is before [today]) and the year is printed with four digits,
    the query returns exactly what the algorithm of the specification
    prescribes: it looks at the records with a birthday, projects the
    birthday onto this year and onto the next one when it has passed, keeps
    the record when the projection is 0 to 6 days ahead, moves a Saturday
    by two days and a Sunday by one, to the following Monday, leaves any
    other day where it is, and lists one [name] and [YYYY.MM.DD] entry per
    kept record in the iteration order of the book. *)
Theorem upcoming_birthdays_spec (c : libc) (today : date) (book : AddressBook) :
  c = pads_year \/ 1000 <= year today ->
  (forall r b, r ∈ dict_values book -> birthday r = Some b ->
               projectable today (value b) = true) ->
  AddressBook_get_upcoming_birthdays c today book
  = Ok (Spec.upcomingBirthdays today book)
  /\ (forall r b, r ∈ dict_values book -> birthday r = Some b ->
        let p := Spec.projected today (value b) in
        let q := Spec.congratulationDate today (value b) in
        valid q
        /\ (weekday p = Spec.Saturday ->
            toordinal q = toordinal p + 2 /\ weekday q = 0)
        /\ (weekday p = Spec.Sunday ->
            toordinal q = toordinal p + 1 /\ weekday q = 0)
        /\ (weekday p <> Spec.Saturday -> weekday p <> Spec.Sunday -> q = p)).
Proof.
  intros Hc Hproj. split.
  - unfold AddressBook_get_upcoming_birthdays, Spec.upcomingBirthdays.
    rewrite (for_each_append _ (Spec.entry today)); [reflexivity|].
    intros acc r Hr. apply upcoming_body_spec; [exact Hc|].
    intros b Hb. eapply Hproj; eauto.
  - intros r b Hr Hb. apply congratulationDate_shift.
    apply (projected_ok today (value b) (Hproj r b Hr Hb)).
Qed.

Lemma for_each_raises {A S : Type} (body : S -> A -> result S) (l : list A)
    (a : A) :
  a ∈ l -> (forall s, raises (body s a)) -> forall s, raises (for_each body s l).
Proof.
  intros Hin Ha. induction l as [|x l IH]; intros s; [inversion Hin|].
  cbn. apply elem_of_cons in Hin as [<-|Hin].
  - destruct (Ha s) as [e ->]. exists e. reflexivity.
  - destruct (body s x) as [s'|e]; cbn; [apply IH, Hin|eexists; reflexivity].
Qed.

(** A birthday on 29 February stops the query as soon as it has to be
    projected onto a common year: either this year is one, or the day has
    passed and the next year is one. *)
Lemma feb29_projection_raises (c : libc) (today : date) (book : AddressBook)
    (r : record) (b : Birthday) :
  r ∈ dict_values book -> birthday r = Some b -> feb29 (value b) = true ->
  _is_leap (year today) = false
  \/ lt (Spec.withYear (value b) (year today)) today = true ->
  raises (AddressBook_get_upcoming_birthdays c today book).
Proof.
  intros Hin Hb Hfeb Hcase. unfold AddressBook_get_upcoming_birthdays.
  apply (for_each_raises _ _ r Hin). intros acc.
  unfold upcoming_body. rewrite Hb.
  unfold feb29 in Hfeb. rewrite andb_true_iff, !Z.eqb_eq in Hfeb.
  destruct Hfeb as [Hm Hd]. unfold replace_year. rewrite Hm, Hd.
  destruct (_is_leap (year today)) eqn:Hleap.
  - destruct Hcase as [|Hlt]; [discriminate|].
    destruct (new (year today) 2 29) as [p|e] eqn:Ep; cbn;
      [|eexists; reflexivity].
    apply new_inv in Ep as [-> _].
    unfold Spec.withYear in Hlt. rewrite Hm, Hd in Hlt. rewrite Hlt.
    cbn [month day].
    rewrite new_feb29_raises by (apply leap_not_twice, Hleap).
    eexists; reflexivity.
  - rewrite new_feb29_raises by assumption. eexists; reflexivity.
Qed.

(** Claim C2, at the failing input.  With Ann born on 29 February in the
    book, the query raises [ValueError] instead of resolving the projected
    birthday to a date: on 25 February 2023, a common year, and on 1 March
    2024, when the birthday has passed and is projected onto 2025. *)
Theorem leap_day_birthday_raises (c : libc) :
  AddressBook_get_upcoming_birthdays c (mkdate 2023 2 25) leap_day_book
  = Raise ValueError
  /\ AddressBook_get_upcoming_birthdays c (mkdate 2024 3 1) leap_day_book
     = Raise ValueError.
Proof. split; reflexivity. Qed.

(** Claim C1 fails on 30 December 9999 for a contact born on 1 January:
    the algorithm of the specification projects the birthday onto the year
    10000, two days ahead, and lists the contact; the query raises
    [ValueError], because [date] has no year 10000. *)
Lemma upcoming_birthdays_last_year_raises :
  Spec.entry (mkdate 9999 12 30) (contact "Eve" (Some (mkdate 2000 1 1)))
  <> None
  /\ forall c, AddressBook_get_upcoming_birthdays c (mkdate 9999 12 30)
                 new_year_book = Raise ValueError.
Proof. split; [discriminate|intros c; reflexivity]. Qed.

Lemma upcoming_birthdays_spec_witness :
  AddressBook_get_upcoming_birthdays plain_year scenario_today scenario_book
  = Ok [mkGreeting (str "Alice") (str "2024.06.17");
        mkGreeting (str "Bob") (str "2024.06.17")]
  /\ Spec.congratulationDate scenario_today (mkdate 1990 6 15)
     = mkdate 2024 6 17.
Proof.
  assert (Hproj : forall r b, r ∈ dict_values scenario_book ->
            birthday r = Some b -> projectable scenario_today (value b) = true).
  { intros r b Hr Hb. cbn in Hr.
    repeat (apply elem_of_cons in Hr as [->|Hr]);
      [..|inversion Hr]; cbn in Hb; try discriminate;
      injection Hb as <-; reflexivity. }
  assert (Hyear : plain_year = pads_year \/ 1000 <= year scenario_today)
    by (right; cbn; lia).
  split.
  - exact (proj1 (upcoming_birthdays_spec plain_year scenario_today
                    scenario_book Hyear Hproj)).
  - reflexivity.
Defined.

Lemma upcoming_birthdays_on_weekdays_witness :
  on_weekday plain_year (mkGreeting (str "Alice") (str "2024.06.17")).
Proof.
  apply (upcoming_birthdays_on_weekdays plain_year scenario_today scenario_book
           [mkGreeting (str "Alice") (str "2024.06.17");
            mkGreeting (str "Bob") (str "2024.06.17")]).
  - reflexivity.
  - left.
Defined.

(** ** Phone numbers *)

Lemma ascii_digit_isdigit (ch : N) :
  Unicode.is_ascii_digit ch = true -> Unicode.isdigit ch = true.
Proof.
  intros H. unfold Unicode.isdigit, Unicode.in_ranges, Unicode.decimal_ranges.
  cbn [existsb].
  change (Unicode.in_range ch (48%N, 57%N)) with (Unicode.is_ascii_digit ch).
  rewrite H. reflexivity.
Qed.

Lemma forallb_false {A : Type} (f : A -> bool) (l : list A) :
  forallb f l = false <-> exists x, x ∈ l /\ f x = false.
Proof.
  induction l as [|a l IH]; cbn.
  - split; [discriminate|]. intros (x & Hx & _). inversion Hx.
  - rewrite andb_false_iff, IH. split.
    + intros [H|(x & Hx & H)]; [exists a|exists x];
        (split; [|exact H]); [left|right; exact Hx].
    + intros (x & Hx & H). apply elem_of_cons in Hx as [->|Hx]; eauto.
Qed.

Lemma str_isdigit_false (s : pystr) :
  str_isdigit s = false <->
  s = [] \/ exists ch, ch ∈ s /\ Unicode.isdigit ch = false.
Proof.
  unfold str_isdigit.
  rewrite andb_false_iff, negb_false_iff, Nat.eqb_eq, forallb_false.
  destruct s; cbn; intuition (auto; discriminate).
Qed.

Lemma Phone_init_Ok (s : pystr) (p : Phone) :
  Phone_init s = Ok p -> p = mkField s.
Proof.
  unfold Phone_init. destruct (negb _); [discriminate|]. congruence.
Qed.

Lemma Phone_init_raises (s : pystr) (e : exception) :
  Phone_init s = Raise e -> e = ValueError.
Proof.
  unfold Phone_init. destruct (negb _); congruence.
Qed.

(** Claim C3, amended.  The constructor of [Phone] raises [ValueError]
    exactly when the string does not have length 10 or contains a
    character that is not a digit in the sense of [str.isdigit], which
    accepts every Unicode digit and not only the ASCII ones.  A string of
    exactly ten ASCII digits is accepted, and the value of the constructed
    phone, also when printed, is that same string. *)
Theorem Phone_init_spec (s : pystr) :
  (Phone_init s = Raise ValueError <->
   len s <> 10 \/ exists ch, ch ∈ s /\ Unicode.isdigit ch = false)
  /\ (len s = 10 -> (forall ch, ch ∈ s -> Unicode.is_ascii_digit ch = true) ->
      exists p, Phone_init s = Ok p /\ value p = s /\ Field_str p = s).
Proof.
  split.
  - unfold Phone_init.
    destruct (str_isdigit s) eqn:Hd; cbn [andb negb].
    + destruct (Z.eqb_spec (len s) 10) as [Hl|Hl]; cbn [negb].
      * split; [discriminate|]. intros [H|(ch & Hin & Hch)]; [contradiction|].
        assert (str_isdigit s = false) by (apply str_isdigit_false; eauto).
        congruence.
      * split; auto.
    + split; [|reflexivity]. intros _.
      apply str_isdigit_false in Hd as [->|H]; [left; discriminate|auto].
  - intros Hl Hascii. exists (mkField s). split; [|split; reflexivity].
    unfold Phone_init.
    assert (Hd : str_isdigit s = true).
    { destruct (str_isdigit s) eqn:Hd; [reflexivity|].
      apply str_isdigit_false in Hd as [->|(ch & Hin & Hch)];
        [discriminate|].
      rewrite (ascii_digit_isdigit ch (Hascii ch Hin)) in Hch. discriminate. }
    rewrite Hd, Hl. reflexivity.
Qed.

Lemma Phone_init_spec_witness :
  exists p, Phone_init (str "0501234567") = Ok p
            /\ value p = str "0501234567" /\ Field_str p = str "0501234567".
Proof.
  apply (proj2 (Phone_init_spec (str "0501234567"))).
  - reflexivity.
  - intros ch Hin. cbn in Hin.
    repeat (apply elem_of_cons in Hin as [->|Hin]); [..|inversion Hin];
      reflexivity.
Defined.

(** Claim C3 fails on ten Arabic-Indic digits: none of them is an ASCII
    digit, and the constructor accepts the string. *)
Lemma Phone_init_accepts_unicode_digits :
  len arabic_indic_digits = 10
  /\ (forall ch, ch ∈ arabic_indic_digits -> Unicode.is_ascii_digit ch = false)
  /\ Phone_init arabic_indic_digits = Ok (mkField arabic_indic_digits).
Proof.
  split; [reflexivity|]. split; [|reflexivity].
  intros ch Hin. unfold arabic_indic_digits in Hin.
  repeat (apply elem_of_cons in Hin as [->|Hin]); [..|inversion Hin];
    reflexivity.
Qed.

(** ** The phones of a record *)

Lemma value_is_true (s : pystr) (p : Phone) : value_is s p = true <-> value p = s.
Proof. unfold value_is. apply bool_decide_eq_true. Qed.

Lemma value_is_false (s : pystr) (p : Phone) :
  value_is s p = false <-> value p <> s.
Proof. unfold value_is. apply bool_decide_eq_false. Qed.

(** [first_index] finds the first phone with the given value. *)
Lemma first_index_Some (s : pystr) (ps : list Phone) (i : nat) :
  first_index s ps = Some i <->
  exists l1 p l2, ps = l1 ++ p :: l2 /\ length l1 = i /\ value p = s
                  /\ forall q, q ∈ l1 -> value q <> s.
Proof.
  revert i. induction ps as [|ph ps IH]; intros i; cbn.
  - split; [discriminate|]. intros (l1 & p & l2 & H & _).
    destruct l1; discriminate.
  - destruct (value_is s ph) eqn:E.
    + apply value_is_true in E. split.
      * intros [= <-]. exists [], ph, ps. repeat split; auto.
        intros q Hq. inversion Hq.
      * intros (l1 & p & l2 & H & Hl & Hp & Hno).
        destruct l1 as [|x l1]; cbn in *; [congruence|].
        injection H as <- ->. exfalso. apply (Hno ph); [left|exact E].
    + apply value_is_false in E. split.
      * destruct (first_index s ps) as [j|] eqn:Ej; [|discriminate].
        intros [= <-]. destruct (proj1 (IH j) eq_refl)
          as (l1 & p & l2 & -> & Hl & Hp & Hno).
        exists (ph :: l1), p, l2. cbn. repeat split; auto.
        intros q Hq. apply elem_of_cons in Hq as [->|Hq]; auto.
      * intros (l1 & p & l2 & H & Hl & Hp & Hno).
        destruct l1 as [|x l1]; cbn in *.
        -- injection H as -> ->. contradiction.
        -- injection H as <- ->. subst i.
           rewrite (proj2 (IH (length l1))); [reflexivity|].
           exists l1, p, l2. repeat split; auto.
           intros q Hq. apply Hno. right. exact Hq.
Qed.

Lemma first_index_None (s : pystr) (ps : list Phone) :
  first_index s ps = None <-> forall q, q ∈ ps -> value q <> s.
Proof.
  induction ps as [|ph ps IH]; cbn.
  - split; [|reflexivity]. intros _ q Hq. inversion Hq.
  - destruct (value_is s ph) eqn:E.
    + apply value_is_true in E. split; [discriminate|].
      intros H. exfalso. apply (H ph); [left|exact E].
    + apply value_is_false in E.
      destruct (first_index s ps) as [j|]; cbn.
      * split; [discriminate|]. intros H.
        assert (Some j = None) as Hn; [|discriminate].
        apply IH. intros q Hq. apply H. right. exact Hq.
      * split; [|reflexivity]. intros _ q Hq.
        apply elem_of_cons in Hq as [->|Hq]; [exact E|].
        apply (proj1 IH eq_refl q Hq).
Qed.

Lemma insert_middle {A : Type} (l1 l2 : list A) (x y : A) :
  <[length l1 := y]> (l1 ++ x :: l2) = l1 ++ y :: l2.
Proof. induction l1 as [|a l1 IH]; cbn; [reflexivity|]. f_equal. exact IH. Qed.

Lemma delete_middle {A : Type} (l1 l2 : list A) (x : A) :
  delete (length l1) (l1 ++ x :: l2) = l1 ++ l2.
Proof. induction l1 as [|a l1 IH]; cbn; [reflexivity|]. f_equal. exact IH. Qed.

(** Claim C5, amended.  [edit_phone] looks for the old number first.  When
    some stored phone equals [old], the new number is validated: if it is
    not a phone number the [ValueError] of the validation propagates,
    otherwise the first phone equal to [old] is replaced at its position
    and the result is [True].  When no stored phone equals [old] the result
    is [False], nothing is raised and the record is unchanged, whether or
    not [new] is a valid phone number. *)
Theorem edit_phone_spec (self : record) (old new : pystr) :
  (forall l1 p l2,
      phones self = l1 ++ p :: l2 -> value p = old ->
      (forall q, q ∈ l1 -> value q <> old) ->
      match Phone_init new with
      | Ok new_phone_obj =>
          Record_edit_phone self old new
          = Ok (set_phones self (l1 ++ new_phone_obj :: l2), true)
      | Raise e => Record_edit_phone self old new = Raise e
      end)
  /\ ((forall q, q ∈ phones self -> value q <> old) ->
      Record_edit_phone self old new = Ok (self, false)).
Proof.
  unfold Record_edit_phone. split.
  - intros l1 p l2 Hps Hp Hno.
    assert (Hi : first_index old (phones self) = Some (length l1)).
    { apply first_index_Some. exists l1, p, l2. auto. }
    rewrite Hi. destruct (Phone_init new) as [pn|e]; cbn; [|reflexivity].
    rewrite Hps, insert_middle. reflexivity.
  - intros Hno. apply first_index_None in Hno. rewrite Hno. reflexivity.
Qed.

Lemma edit_phone_spec_witness :
  Record_edit_phone ann (str "2222222222") (str "3333333333")
  = Ok (set_phones ann [mkField (str "1111111111");
                        mkField (str "3333333333")], true)
  /\ Record_edit_phone ann (str "0000000000") (str "3333333333")
     = Ok (ann, false).
Proof.
  split.
  - apply (proj1 (edit_phone_spec ann (str "2222222222") (str "3333333333"))
             [mkField (str "1111111111")] (mkField (str "2222222222")) []).
    + reflexivity.
    + reflexivity.
    + intros q Hq. apply list_elem_of_singleton in Hq as ->. discriminate.
  - apply (proj2 (edit_phone_spec ann (str "0000000000") (str "3333333333"))).
    intros q Hq. unfold ann in Hq. cbn [phones] in Hq.
    repeat (apply elem_of_cons in Hq as [->|Hq]); [..|inversion Hq];
      discriminate.
Defined.

(** Claim C5 fails when the old number is absent and the new one is not a
    phone number: the validation of [new] raises [ValueError], but
    [edit_phone] never validates it and returns [False]. *)
Lemma edit_phone_skips_validation :
  Phone_init (str "abc") = Raise ValueError
  /\ Record_edit_phone ann (str "0000000000") (str "abc") = Ok (ann, false).
Proof. split; reflexivity. Qed.

(** [add_phone] keeps the phone values distinct and appends at the end. *)
Lemma add_phone_cases (self self' : record) (s : pystr) :
  Record_add_phone self s = Ok self' ->
  (s ∈ phone_values self /\ self' = self)
  \/ ((s ∉ phone_values self)
      /\ self' = set_phones self (phones self ++ [mkField s])).
Proof.
  unfold Record_add_phone.
  destruct (Phone_init s) as [p|] eqn:Ep; cbn; [|discriminate].
  apply Phone_init_Ok in Ep as ->. cbn [value].
  destruct (existsb (value_is s) (phones self)) eqn:E; cbn; intros [= <-].
  - left. split; [|reflexivity].
    apply existsb_exists in E as (q & Hq & Hv).
    apply value_is_true in Hv as <-.
    apply list_elem_of_fmap. exists q. rewrite list_elem_of_In. auto.
  - right. split; [|reflexivity]. intros Hin.
    apply list_elem_of_fmap in Hin as (q & -> & Hq).
    assert (existsb (value_is (value q)) (phones self) = true); [|congruence].
    apply existsb_exists. exists q. rewrite <- list_elem_of_In.
    split; [exact Hq|]. apply value_is_true. reflexivity.
Qed.

Lemma add_phone_NoDup (self self' : record) (s : pystr) :
  NoDup (phone_values self) -> Record_add_phone self s = Ok self' ->
  NoDup (phone_values self').
Proof.
  intros Hnd H. apply add_phone_cases in H as [[_ ->]|[Hnot ->]]; [exact Hnd|].
  unfold phone_values, set_phones. cbn [phones].
  rewrite fmap_app. cbn. apply list.NoDup_app. split; [exact Hnd|].
  split; [|apply list.NoDup_singleton].
  intros x Hx Hx'. apply list_elem_of_singleton in Hx' as ->. contradiction.
Qed.

(** Adding the same phone twice is adding it once. *)
Lemma add_phone_idempotent (self self' : record) (s : pystr) :
  Record_add_phone self s = Ok self' -> Record_add_phone self' s = Ok self'.
Proof.
  intros H.
  destruct (add_phone_cases _ _ _ H) as [[Hin ->]|[Hnot ->]]; [exact H|].
  unfold Record_add_phone in *.
  destruct (Phone_init s) as [p|] eqn:Ep; cbn [bind] in *; [|discriminate].
  apply Phone_init_Ok in Ep as ->.
  cbn [phones set_phones value]. rewrite existsb_app. cbn [existsb].
  replace (value_is s (mkField s)) with true
    by (symmetry; apply value_is_true; reflexivity).
  rewrite orb_true_r. reflexivity.
Qed.

Lemma remove_phone_cases (self : record) (s : pystr) :
  ((s ∉ phone_values self) /\ Record_remove_phone self s = self)
  \/ exists l1 p l2, phones self = l1 ++ p :: l2 /\ value p = s
        /\ (forall q, q ∈ l1 -> value q <> s)
        /\ Record_remove_phone self s = set_phones self (l1 ++ l2).
Proof.
  unfold Record_remove_phone.
  destruct (first_index s (phones self)) as [i|] eqn:E.
  - right. apply first_index_Some in E as (l1 & p & l2 & Hps & <- & Hp & Hno).
    exists l1, p, l2. rewrite Hps at 2. rewrite delete_middle. auto.
  - left. split; [|reflexivity]. intros Hin.
    apply list_elem_of_fmap in Hin as (q & -> & Hq).
    rewrite first_index_None in E. exact (E q Hq eq_refl).
Qed.

Lemma remove_phone_NoDup (self : record) (s : pystr) :
  NoDup (phone_values self) -> NoDup (phone_values (Record_remove_phone self s)).
Proof.
  intros Hnd.
  destruct (remove_phone_cases self s)
    as [[_ ->]|(l1 & p & l2 & Hps & _ & _ & ->)]; [exact Hnd|].
  unfold phone_values in *. cbn [phones set_phones]. rewrite Hps in Hnd.
  rewrite fmap_app in *. cbn in Hnd.
  apply list.NoDup_app in Hnd as (H1 & H12 & H2).
  apply list.NoDup_cons in H2 as [_ H2].
  apply list.NoDup_app. repeat split; auto.
  intros x Hx Hx'. apply (H12 x Hx). right. exact Hx'.
Qed.

(** [edit_phone] keeps the values distinct when the new number is not
    already stored under another entry. *)
Lemma edit_phone_NoDup (self self' : record) (old new : pystr) (b : bool) :
  NoDup (phone_values self) ->
  new ∉ phone_values self \/ new = old ->
  Record_edit_phone self old new = Ok (self', b) ->
  NoDup (phone_values self').
Proof.
  intros Hnd Hnew. unfold Record_edit_phone.
  destruct (first_index old (phones self)) as [i|] eqn:E;
    [|intros [= <- <-]; exact Hnd].
  apply first_index_Some in E as (l1 & p & l2 & Hps & <- & Hp & Hno).
  destruct (Phone_init new) as [pn|] eqn:En; cbn; [|discriminate].
  apply Phone_init_Ok in En as ->. intros [= <- <-].
  unfold phone_values in *. cbn [phones set_phones].
  rewrite Hps, insert_middle. rewrite Hps in Hnd, Hnew.
  rewrite fmap_app in *. cbn in *. rewrite Hp in *.
  apply list.NoDup_app in Hnd as (H1 & H12 & H2).
  apply list.NoDup_cons in H2 as [Hold H2].
  destruct Hnew as [Hnew| ->].
  - rewrite elem_of_app, elem_of_cons in Hnew.
    apply list.NoDup_app. split; [exact H1|]. split.
    + intros x Hx Hx'. apply elem_of_cons in Hx' as [->|Hx'].
      * apply Hnew. left. exact Hx.
      * apply (H12 x Hx). right. exact Hx'.
    + apply list.NoDup_cons. split; [|exact H2]. intros Hx. apply Hnew. auto.
  - apply list.NoDup_app. split; [exact H1|]. split; [exact H12|].
    apply list.NoDup_cons. auto.
Qed.

(** Claim C6, at the failing input.  Ann gets the phones 1111111111 and
    2222222222 through [add_phone]; editing the first into the second
    succeeds and leaves the list with the same number twice. *)
Theorem edit_phone_makes_duplicate :
  exists r,
    (r1 <- Record_add_phone (Record_init (str "Ann")) (str "1111111111") ;;
     r2 <- Record_add_phone r1 (str "2222222222") ;;
     Record_edit_phone r2 (str "1111111111") (str "2222222222"))
    = Ok (r, true)
    /\ phone_values r = [str "2222222222"; str "2222222222"]
    /\ ~ NoDup (phone_values r).
Proof.
  eexists. split; [reflexivity|]. split; [reflexivity|].
  cbn. intros H. apply list.NoDup_cons in H as [H _]. apply H. left.
Qed.

(** ** The dictionary of the address book *)

Lemma key_is_true (k : pystr) (kv : pystr * record) :
  key_is k kv = true <-> kv.1 = k.
Proof. unfold key_is. apply bool_decide_eq_true. Qed.

Lemma key_is_false (k : pystr) (kv : pystr * record) :
  key_is k kv = false <-> kv.1 <> k.
Proof. unfold key_is. apply bool_decide_eq_false. Qed.

Lemma dict_contains_true (d : AddressBook) (k : pystr) :
  dict_contains d k = true <-> k ∈ d.*1.
Proof.
  unfold dict_contains. induction d as [|kv d IH]; cbn.
  - split; [discriminate|]. intros H. inversion H.
  - rewrite orb_true_iff, IH, key_is_true, elem_of_cons. intuition congruence.
Qed.

Lemma dict_get_None (d : AddressBook) (k : pystr) :
  dict_get d k = None <-> k ∉ d.*1.
Proof.
  unfold dict_get. induction d as [|kv d IH]; cbn.
  - split; [|reflexivity]. intros _ H. inversion H.
  - rewrite not_elem_of_cons. destruct (key_is k kv) eqn:E.
    + apply key_is_true in E. cbn. split; [discriminate|]. intros [H _].
      congruence.
    + apply key_is_false in E. rewrite IH. intuition congruence.
Qed.

(** With distinct keys, looking a key up gives the record stored with it. *)
Lemma dict_get_Some (d : AddressBook) (k : pystr) (r : record) :
  NoDup d.*1 -> (dict_get d k = Some r <-> (k, r) ∈ d).
Proof.
  unfold dict_get. induction d as [|[k' r'] d IH]; cbn; intros Hnd.
  - split; [discriminate|]. intros H. inversion H.
  - apply list.NoDup_cons in Hnd as [Hk' Hnd]. rewrite elem_of_cons.
    destruct (key_is k (k', r')) eqn:E.
    + apply key_is_true in E. cbn in E. subst k'. cbn. split.
      * intros [= ->]. left. reflexivity.
      * intros [[= ->]|Hin]; [reflexivity|]. exfalso. apply Hk'.
        apply list_elem_of_fmap. exists (k, r). auto.
    + apply key_is_false in E. cbn in E. rewrite (IH Hnd). split; [auto|].
      intros [[= -> ->]|Hin]; [contradiction|exact Hin].
Qed.

Lemma filter_all {A : Type} (P : A -> Prop) `{forall x, Decision (P x)}
    (l : list A) :
  (forall x, x ∈ l -> P x) -> filter P l = l.
Proof.
  induction l as [|a l IH]; intros Hall; [reflexivity|].
  rewrite filter_cons_True by (apply Hall; left).
  f_equal. apply IH. intros x Hx. apply Hall. right. exact Hx.
Qed.

(** With distinct keys, [del] removes the entry of the key and nothing
    else. *)
Lemma dict_del_Ok (d : AddressBook) (k : pystr) :
  NoDup d.*1 -> k ∈ d.*1 ->
  dict_del d k = Ok (filter (fun kv => kv.1 <> k) d).
Proof.
  induction d as [|kv d IH]; intros Hnd Hin; [inversion Hin|].
  rewrite fmap_cons in Hnd, Hin. cbn [dict_del].
  apply list.NoDup_cons in Hnd as [Hkv Hnd].
  destruct (key_is k kv) eqn:E.
  - apply key_is_true in E.
    rewrite filter_cons_False by (intros H; contradiction).
    f_equal. symmetry. apply filter_all.
    intros kv' Hkv' Heq. apply Hkv.
    apply list_elem_of_fmap. exists kv'. split; [congruence|exact Hkv'].
  - apply key_is_false in E.
    apply elem_of_cons in Hin as [Hin|Hin]; [congruence|].
    rewrite (IH Hnd Hin). cbn [bind]. rewrite filter_cons_True by exact E.
    reflexivity.
Qed.

Lemma dict_del_returns (d : AddressBook) (k : pystr) :
  k ∈ d.*1 -> returns (dict_del d k).
Proof.
  induction d as [|kv d IH]; cbn; intros Hin; [inversion Hin|].
  destruct (key_is k kv) eqn:E; [eexists; reflexivity|].
  apply key_is_false in E.
  apply elem_of_cons in Hin as [Hin|Hin]; [congruence|].
  destruct (IH Hin) as [d' ->]. eexists; reflexivity.
Qed.

(** [delete] never raises, on any association list. *)
Lemma AddressBook_delete_returns (book : AddressBook) (n : pystr) :
  returns (AddressBook_delete book n).
Proof.
  unfold AddressBook_delete.
  destruct (dict_contains book n) eqn:E; [|eexists; reflexivity].
  apply dict_contains_true, dict_del_returns in E as [d' ->].
  eexists; reflexivity.
Qed.

(** Claim C7.  In an address book, a dictionary with distinct keys:
    [find] returns the stored record when the name has an entry and raises
    [KeyError] when it has none; [delete] never raises, removes the entry
    of the name and returns [True] when there is one, and returns [False]
    and leaves the book as it is when there is none. *)
Theorem find_delete_spec (book : AddressBook) (n : pystr) :
  NoDup book.*1 ->
  (forall r, (n, r) ∈ book -> AddressBook_find book n = Ok r)
  /\ (n ∉ book.*1 -> AddressBook_find book n = Raise KeyError)
  /\ returns (AddressBook_delete book n)
  /\ (n ∈ book.*1 ->
      AddressBook_delete book n
      = Ok (filter (fun kv => kv.1 <> n) book, true))
  /\ (n ∉ book.*1 -> AddressBook_delete book n = Ok (book, false)).
Proof.
  intros Hnd. unfold AddressBook_find. repeat split.
  - intros r Hr. apply (dict_get_Some _ _ _ Hnd) in Hr. rewrite Hr.
    reflexivity.
  - intros Hn. apply dict_get_None in Hn. rewrite Hn. reflexivity.
  - apply AddressBook_delete_returns.
  - intros Hn. unfold AddressBook_delete.
    rewrite (proj2 (dict_contains_true book n) Hn).
    rewrite (dict_del_Ok _ _ Hnd Hn). reflexivity.
  - intros Hn. unfold AddressBook_delete.
    destruct (dict_contains book n) eqn:E; [|reflexivity].
    apply dict_contains_true in E. contradiction.
Qed.

Lemma find_delete_spec_witness :
  AddressBook_find scenario_book (str "Bob")
  = Ok (contact "Bob" (Some (mkdate 1985 6 16)))
  /\ AddressBook_find scenario_book (str "Zed") = Raise KeyError
  /\ AddressBook_delete scenario_book (str "Bob")
     = Ok (filter (fun kv => kv.1 <> str "Bob") scenario_book, true)
  /\ AddressBook_delete scenario_book (str "Zed") = Ok (scenario_book, false).
Proof.
  assert (Hnd : NoDup scenario_book.*1)
    by (apply (proj1 (bool_decide_eq_true _)); vm_compute; reflexivity).
  assert (Hzed : str "Zed" ∉ scenario_book.*1)
    by (apply (proj1 (bool_decide_eq_false _)); vm_compute; reflexivity).
  assert (Hbob : str "Bob" ∈ scenario_book.*1)
    by (apply (proj1 (bool_decide_eq_true _)); vm_compute; reflexivity).
  destruct (find_delete_spec scenario_book (str "Bob") Hnd)
    as (Hfind & _ & _ & Hdel & _).
  destruct (find_delete_spec scenario_book (str "Zed") Hnd)
    as (_ & Hfind' & _ & _ & Hdel').
  split; [|split; [|split]].
  - apply Hfind. right. left.
  - apply Hfind', Hzed.
  - apply Hdel, Hbob.
  - apply Hdel', Hzed.
Defined.

(** ** Keys and names *)

Lemma dict_set_keys (d : AddressBook) (k : pystr) (v : record) :
  (dict_set d k v).*1 = if dict_contains d k then d.*1 else d.*1 ++ [k].
Proof.
  unfold dict_contains. induction d as [|kv d IH]; cbn; [reflexivity|].
  destruct (key_is k kv) eqn:E; cbn.
  - apply key_is_true in E. rewrite E. reflexivity.
  - rewrite IH. destruct (existsb (key_is k) d); reflexivity.
Qed.

Lemma dict_set_NoDup (d : AddressBook) (k : pystr) (v : record) :
  NoDup d.*1 -> NoDup (dict_set d k v).*1.
Proof.
  intros Hnd. rewrite dict_set_keys.
  destruct (dict_contains d k) eqn:E; [exact Hnd|].
  apply list.NoDup_app. split; [exact Hnd|]. split; [|apply list.NoDup_singleton].
  intros x Hx Hx'. apply list_elem_of_singleton in Hx' as ->.
  apply dict_contains_true in Hx. congruence.
Qed.

Lemma dict_set_entries (d : AddressBook) (k k' : pystr) (v r : record) :
  (k', r) ∈ dict_set d k v -> (k', r) = (k, v) \/ (k', r) ∈ d.
Proof.
  induction d as [|kv d IH]; cbn.
  - intros H. apply list_elem_of_singleton in H. auto.
  - destruct (key_is k kv); rewrite !elem_of_cons; intuition.
Qed.

Lemma set_phones_name (r : record) (ps : list Phone) :
  name (set_phones r ps) = name r.
Proof. reflexivity. Qed.

(** No method of [Record] changes the name. *)
Lemma record_op_name (r r' : record) : record_op r r' -> name r' = name r.
Proof.
  intros [r0 s r1 H|r0 s|r0 old new r1 b H|r0 s r1 H].
  - apply add_phone_cases in H as [[_ ->]|[_ ->]]; reflexivity.
  - unfold Record_remove_phone. destruct (first_index _ _); reflexivity.
  - unfold Record_edit_phone in H. destruct (first_index _ _).
    + destruct (Phone_init new); cbn in H; [|discriminate].
      injection H as <- _. reflexivity.
    + injection H as <- _. reflexivity.
  - unfold Record_add_birthday in H.
    destruct (Birthday_init s); cbn in H; [|discriminate].
    injection H as <-. reflexivity.
Qed.

(** Claim C9, amended.  In every address book built by [add_record] and
    [delete], with the methods of [Record] applied to the stored records
    in between, no two entries share a key and the key of an entry is the
    name of its record; no method of [Record] changes the name.  (That the
    name is non-empty is not part of it: the constructor of [Record] takes
    any string.) *)
Theorem reachable_book_keys (book : AddressBook) :
  reachable book ->
  NoDup book.*1
  /\ (forall k r, (k, r) ∈ book -> value (name r) = k)
  /\ (forall r r', record_op r r' -> name r' = name r).
Proof.
  intros Hreach. split; [|split; [|apply record_op_name]].
  - induction Hreach as [|book r _ IH _|book n book' b _ IH Hdel
                         |book n r r' _ IH _ _].
    + constructor.
    + apply dict_set_NoDup, IH.
    + unfold AddressBook_delete in Hdel.
      destruct (dict_contains book n) eqn:E; [|injection Hdel as <- _; exact IH].
      apply dict_contains_true in E. rewrite (dict_del_Ok _ _ IH E) in Hdel.
      injection Hdel as <- _.
      apply (NoDup_fmap_2_strong fst).
      * intros [k1 r1] [k2 r2] H1 H2 Hk. cbn in Hk. subst k2.
        apply list_elem_of_filter in H1 as [_ H1].
        apply list_elem_of_filter in H2 as [_ H2].
        apply (dict_get_Some _ _ _ IH) in H1, H2. congruence.
      * apply list.NoDup_filter. apply (NoDup_fmap_1 fst), IH.
    + apply dict_set_NoDup, IH.
  - induction Hreach as [|book r Hb IH _|book n book' b Hb IH Hdel
                         |book n r r' Hb IH Hfind Hop]; intros k r0 Hin.
    + inversion Hin.
    + apply dict_set_entries in Hin as [[= -> ->]|Hin]; [reflexivity|eauto].
    + unfold AddressBook_delete in Hdel.
      destruct (dict_contains book n) eqn:E;
        [|injection Hdel as <- _; eauto].
      destruct (dict_del book n) as [d'|] eqn:Ed; cbn in Hdel; [|discriminate].
      injection Hdel as <- _.
      apply (IH k r0). clear IH E Hb.
      revert d' Ed Hin. induction book as [|kv book IHb]; cbn; [discriminate|].
      destruct (key_is n kv).
      * intros d' [= <-] Hin. right. exact Hin.
      * destruct (dict_del book n) as [d''|]; cbn; [|discriminate].
        intros d' [= <-] Hin. apply elem_of_cons in Hin as [->|Hin];
          [left|right; eauto].
    + apply dict_set_entries in Hin as [[= -> ->]|Hin]; [|eauto].
      rewrite (record_op_name _ _ Hop).
      unfold AddressBook_find, dict_get in Hfind.
      destruct (find (key_is n) book) as [[k1 r1]|] eqn:Ef; [|discriminate].
      injection Hfind as <-.
      apply find_some in Ef as [Hin Hk]. apply key_is_true in Hk. cbn in Hk.
      subst k1. apply IH. apply list_elem_of_In. exact Hin.
Qed.

Lemma reachable_book_keys_witness :
  NoDup new_year_book.*1
  /\ (forall k r, (k, r) ∈ new_year_book -> value (name r) = k)
  /\ (forall r r', record_op r r' -> name r' = name r).
Proof.
  apply reachable_book_keys. apply reach_add_record; [apply reach_empty|].
  apply (created_op (Record_init (str "Eve"))); [apply created_init|].
  apply (op_add_birthday _ (str "01.01.2000")). reflexivity.
Defined.

(** Claim C9 fails on the record with the empty name: the constructor
    accepts it, [add_record] stores it, and the book holds a record whose
    name is the empty string. *)
Lemma empty_name_is_reachable :
  reachable (AddressBook_add_record [] (Record_init []))
  /\ ([], Record_init []) ∈ AddressBook_add_record [] (Record_init [])
  /\ value (name (Record_init [])) = [].
Proof.
  split; [|split; [left|reflexivity]].
  apply reach_add_record; [apply reach_empty|apply created_init].
Qed.

(** ** The pattern of [%d.%m.%Y] *)

Import re _strptime.

Lemma prepend_prepend (t1 t2 : pystr) (g1 g2 : groupdict) (f : found) :
  prepend t1 g1 (prepend t2 g2 f) = prepend (t1 ++ t2) (g1 ++ g2) f.
Proof. unfold prepend. cbn. rewrite !app_assoc. reflexivity. Qed.

Lemma run_cat (r1 r2 : regex) (s : pystr) :
  run (Cat r1 r2) s
  = flat_map (fun f1 => map (prepend (text f1) (groups f1)) (run r2 (rest f1)))
             (run r1 s).
Proof. reflexivity. Qed.

Lemma map_flat_map {A B C : Type} (g : B -> C) (f : A -> list B) (l : list A) :
  map g (flat_map f l) = flat_map (fun a => map g (f a)) l.
Proof.
  induction l as [|a l IH]; cbn; [reflexivity|].
  rewrite map_app, IH. reflexivity.
Qed.

Lemma flat_map_map {A B C : Type} (g : A -> B) (f : B -> list C) (l : list A) :
  flat_map f (map g l) = flat_map (fun a => f (g a)) l.
Proof.
  induction l as [|a l IH]; cbn; [reflexivity|]. rewrite IH. reflexivity.
Qed.

Lemma flat_map_flat_map {A B C : Type} (g : B -> list C) (f : A -> list B)
    (l : list A) :
  flat_map g (flat_map f l) = flat_map (fun a => flat_map g (f a)) l.
Proof.
  induction l as [|a l IH]; cbn; [reflexivity|].
  rewrite flat_map_app, IH. reflexivity.
Qed.

(** Concatenation of patterns is associative. *)
Lemma run_cat_assoc (a b c : regex) (s : pystr) :
  run (Cat a (Cat b c)) s = run (Cat (Cat a b) c) s.
Proof.
  rewrite !run_cat, flat_map_flat_map.
  apply flat_map_ext. intros f1.
  rewrite run_cat, map_flat_map, flat_map_map.
  apply flat_map_ext. intros f2.
  rewrite !map_map. apply map_ext. intros f3.
  rewrite prepend_prepend. reflexivity.
Qed.

Ltac cases_0_99 n :=
  let rec go k :=
    lazymatch k with
    | 100 => exfalso; lia
    | _ => let k' := eval vm_compute in (k + 1) in
           destruct (Z.eq_dec n k) as [->|?]; [|go k']
    end in
  go 0.

(** Evaluate the run of a closed pattern on a string with a known head. *)
Ltac eval_run :=
  match goal with
  | |- context [run ?r ?s] =>
      let v := eval vm_compute in (run r s) in
      change (run r s) with v
  end.

Lemma run_day (dd : Z) (r : regex) (T : pystr) :
  0 <= dd <= 99 ->
  run (Cat re_d (Cat (Lit (chr ".")) r)) (two_digits dd ++ chr "." :: T)
  = if (1 <=? dd) && (dd <=? 31)
    then map (prepend (two_digits dd ++ [chr "."]) [("d"%char, two_digits dd)])
             (run r T)
    else [].
Proof.
  intros Hdd. rewrite run_cat_assoc, run_cat.
  cases_0_99 dd; eval_run; cbn [flat_map]; rewrite ?app_nil_r; reflexivity.
Qed.

Lemma run_month (mm : Z) (r : regex) (T : pystr) :
  0 <= mm <= 99 ->
  run (Cat re_m (Cat (Lit (chr ".")) r)) (two_digits mm ++ chr "." :: T)
  = if (1 <=? mm) && (mm <=? 12)
    then map (prepend (two_digits mm ++ [chr "."]) [("m"%char, two_digits mm)])
             (run r T)
    else [].
Proof.
  intros Hmm. rewrite run_cat_assoc, run_cat.
  cases_0_99 mm; eval_run; cbn [flat_map]; rewrite ?app_nil_r; reflexivity.
Qed.

Lemma run_digit_cat (r : regex) (x : N) (T : pystr) :
  Unicode.isdecimal x = true ->
  run (Cat Digit r) (x :: T) = map (prepend [x] []) (run r T).
Proof.
  intros H. rewrite run_cat. cbn [run one]. rewrite H. cbn [flat_map].
  apply app_nil_r.
Qed.

Lemma run_year (y1 y2 y3 y4 : N) :
  Unicode.isdecimal y1 = true -> Unicode.isdecimal y2 = true ->
  Unicode.isdecimal y3 = true -> Unicode.isdecimal y4 = true ->
  run re_Y [y1; y2; y3; y4]
  = [([y1; y2; y3; y4], [("Y"%char, [y1; y2; y3; y4])], [])].
Proof.
  intros H1 H2 H3 H4. unfold re_Y. cbn [run].
  fold (run (Cat Digit (Cat Digit (Cat Digit Digit))) [y1; y2; y3; y4]).
  rewrite !run_digit_cat by assumption.
  cbn [run one]. rewrite H4. reflexivity.
Qed.

Lemma pattern_Birthday_format :
  pattern Birthday_format
  = Some (Cat re_d (Cat (Lit (chr ".")) (Cat re_m (Cat (Lit (chr ".")) re_Y)))).
Proof. reflexivity. Qed.

(** ** ASCII digits *)

Lemma ascii_digit_cases (c : N) :
  Unicode.is_ascii_digit c = true ->
  (c = 48 \/ c = 49 \/ c = 50 \/ c = 51 \/ c = 52 \/ c = 53 \/ c = 54
   \/ c = 55 \/ c = 56 \/ c = 57)%N.
Proof.
  unfold Unicode.is_ascii_digit. rewrite andb_true_iff, !N.leb_le. lia.
Qed.

Ltac ascii_digit c H :=
  apply ascii_digit_cases in H;
  repeat (destruct H as [H|H]); subst c.

Lemma ascii_digit_isdecimal (c : N) :
  Unicode.is_ascii_digit c = true -> Unicode.isdecimal c = true.
Proof. intros H. ascii_digit c H; reflexivity. Qed.

Lemma ascii_digit_todecimal (c : N) :
  Unicode.is_ascii_digit c = true ->
  Unicode.todecimal c = Some (digit_value c).
Proof. intros H. ascii_digit c H; reflexivity. Qed.

Lemma ascii_digit_isspace (c : N) :
  Unicode.is_ascii_digit c = true -> isspace c = false.
Proof. intros H. ascii_digit c H; reflexivity. Qed.

Lemma ascii_digit_value (c : N) :
  Unicode.is_ascii_digit c = true ->
  0 <= digit_value c <= 9 /\ digit (digit_value c) = c.
Proof.
  intros H. ascii_digit c H;
    (split; [unfold digit_value; cbn; lia|reflexivity]).
Qed.

Lemma two_digits_ascii (c1 c2 : N) :
  Unicode.is_ascii_digit c1 = true -> Unicode.is_ascii_digit c2 = true ->
  two_digits (10 * digit_value c1 + digit_value c2) = [c1; c2].
Proof.
  intros H1 H2.
  destruct (ascii_digit_value c1 H1) as [Hr1 Hd1].
  destruct (ascii_digit_value c2 H2) as [Hr2 Hd2].
  unfold two_digits.
  replace ((10 * digit_value c1 + digit_value c2) / 10 mod 10)
    with (digit_value c1) by (Z.div_mod_to_equations; lia).
  replace ((10 * digit_value c1 + digit_value c2) mod 10)
    with (digit_value c2) by (Z.div_mod_to_equations; lia).
  rewrite Hd1, Hd2. reflexivity.
Qed.

Lemma four_digits_ascii (c1 c2 c3 c4 : N) :
  Unicode.is_ascii_digit c1 = true -> Unicode.is_ascii_digit c2 = true ->
  Unicode.is_ascii_digit c3 = true -> Unicode.is_ascii_digit c4 = true ->
  four_digits (1000 * digit_value c1 + 100 * digit_value c2
               + 10 * digit_value c3 + digit_value c4)
  = [c1; c2; c3; c4].
Proof.
  intros H1 H2 H3 H4.
  destruct (ascii_digit_value c1 H1) as [Hr1 Hd1].
  destruct (ascii_digit_value c2 H2) as [Hr2 Hd2].
  destruct (ascii_digit_value c3 H3) as [Hr3 Hd3].
  destruct (ascii_digit_value c4 H4) as [Hr4 Hd4].
  unfold four_digits.
  set (y := 1000 * digit_value c1 + 100 * digit_value c2
            + 10 * digit_value c3 + digit_value c4).
  replace (y / 1000 mod 10) with (digit_value c1)
    by (subst y; Z.div_mod_to_equations; lia).
  replace (y / 100 mod 10) with (digit_value c2)
    by (subst y; Z.div_mod_to_equations; lia).
  replace (y / 10 mod 10) with (digit_value c3)
    by (subst y; Z.div_mod_to_equations; lia).
  replace (y mod 10) with (digit_value c4)
    by (subst y; Z.div_mod_to_equations; lia).
  rewrite Hd1, Hd2, Hd3, Hd4. reflexivity.
Qed.

Lemma int_two_digits (n : Z) : 0 <= n <= 99 -> int (two_digits n) = Ok n.
Proof. intros Hn. cases_0_99 n; reflexivity. Qed.

Lemma int_four_ascii_digits (c1 c2 c3 c4 : N) :
  Unicode.is_ascii_digit c1 = true -> Unicode.is_ascii_digit c2 = true ->
  Unicode.is_ascii_digit c3 = true -> Unicode.is_ascii_digit c4 = true ->
  int [c1; c2; c3; c4]
  = Ok (1000 * digit_value c1 + 100 * digit_value c2
        + 10 * digit_value c3 + digit_value c4).
Proof.
  intros H1 H2 H3 H4. unfold int, strip.
  cbn [lstrip]. rewrite (ascii_digit_isspace c1 H1).
  cbn [rev app lstrip]. rewrite (ascii_digit_isspace c4 H4).
  cbn [rev app digits_value].
  rewrite !ascii_digit_todecimal by assumption.
  f_equal. lia.
Qed.

(** ** [strptime] on strict strings *)

Lemma strict_inv (s : pystr) (d : date) :
  strict_DD_MM_YYYY s = Some d ->
  exists d1 d2 m1 m2 y1 y2 y3 y4,
    s = [d1; d2; chr "."; m1; m2; chr "."; y1; y2; y3; y4]
    /\ Forall (fun c => Unicode.is_ascii_digit c = true)
              [d1; d2; m1; m2; y1; y2; y3; y4]
    /\ d = mkdate (1000 * digit_value y1 + 100 * digit_value y2
                   + 10 * digit_value y3 + digit_value y4)
                  (10 * digit_value m1 + digit_value m2)
                  (10 * digit_value d1 + digit_value d2).
Proof.
  unfold strict_DD_MM_YYYY.
  do 10 (destruct s as [|? s]; [discriminate|]).
  destruct s; [|discriminate].
  destruct (forallb _ _ && _ && _) eqn:E; [|discriminate].
  intros [= <-].
  rewrite !andb_true_iff, !N.eqb_eq in E. destruct E as [[Hd ->] ->].
  rewrite forallb_forall in Hd.
  do 8 eexists. split; [reflexivity|]. split; [|reflexivity].
  apply Forall_forall. intros c Hc. apply Hd, Hc.
Qed.

Lemma run_strict (dd mm : Z) (y1 y2 y3 y4 : N) :
  1 <= dd <= 31 -> 1 <= mm <= 12 ->
  Unicode.isdecimal y1 = true -> Unicode.isdecimal y2 = true ->
  Unicode.isdecimal y3 = true -> Unicode.isdecimal y4 = true ->
  run (Cat re_d (Cat (Lit (chr ".")) (Cat re_m (Cat (Lit (chr ".")) re_Y))))
      (two_digits dd ++ chr "." :: two_digits mm ++ chr "." :: [y1; y2; y3; y4])
  = [(two_digits dd ++ chr "." :: two_digits mm ++ chr "." :: [y1; y2; y3; y4],
      [("d"%char, two_digits dd); ("m"%char, two_digits mm);
       ("Y"%char, [y1; y2; y3; y4])],
      [])].
Proof.
  intros Hdd Hmm H1 H2 H3 H4.
  rewrite run_day by lia.
  replace ((1 <=? dd) && (dd <=? 31)) with true
    by (symmetry; apply andb_true_iff; rewrite !Z.leb_le; lia).
  rewrite run_month by lia.
  replace ((1 <=? mm) && (mm <=? 12)) with true
    by (symmetry; apply andb_true_iff; rewrite !Z.leb_le; lia).
  rewrite run_year by assumption.
  reflexivity.
Qed.

Lemma new_twice (y m d : Z) : (_ <- new y m d ;; new y m d) = new y m d.
Proof. destruct (new y m d); reflexivity. Qed.

(** On a strict string the parser reads the three numbers when the day is
    in 1..31 and the month in 1..12, and does not match otherwise. *)
Lemma strptime_strict (s : pystr) (d : date) :
  strict_DD_MM_YYYY s = Some d ->
  strptime s Birthday_format
  = if (1 <=? day d) && (day d <=? 31) && (1 <=? month d) && (month d <=? 12)
    then new (year d) (month d) (day d)
    else Raise ValueError.
Proof.
  intros Hs.
  apply strict_inv in Hs
    as (d1 & d2 & m1 & m2 & y1 & y2 & y3 & y4 & -> & Hdig & ->).
  apply Forall_cons_iff in Hdig as [Hd1 Hdig].
  apply Forall_cons_iff in Hdig as [Hd2 Hdig].
  apply Forall_cons_iff in Hdig as [Hm1 Hdig].
  apply Forall_cons_iff in Hdig as [Hm2 Hdig].
  apply Forall_cons_iff in Hdig as [Hy1 Hdig].
  apply Forall_cons_iff in Hdig as [Hy2 Hdig].
  apply Forall_cons_iff in Hdig as [Hy3 Hdig].
  apply Forall_cons_iff in Hdig as [Hy4 _].
  cbn [year month day].
  set (dd := 10 * digit_value d1 + digit_value d2).
  set (mm := 10 * digit_value m1 + digit_value m2).
  set (yy := 1000 * digit_value y1 + 100 * digit_value y2
             + 10 * digit_value y3 + digit_value y4).
  assert (Hdd : 0 <= dd <= 99)
    by (pose proof (ascii_digit_value d1 Hd1);
        pose proof (ascii_digit_value d2 Hd2); subst dd; lia).
  assert (Hmm : 0 <= mm <= 99)
    by (pose proof (ascii_digit_value m1 Hm1);
        pose proof (ascii_digit_value m2 Hm2); subst mm; lia).
  change [d1; d2; chr "."; m1; m2; chr "."; y1; y2; y3; y4]
    with ([d1; d2] ++ chr "." :: [m1; m2] ++ chr "." :: [y1; y2; y3; y4]).
  rewrite <- (two_digits_ascii d1 d2), <- (two_digits_ascii m1 m2)
    by assumption.
  fold dd mm.
  unfold strptime. rewrite pattern_Birthday_format. unfold match_.
  destruct (Z.leb_spec 1 dd); [|rewrite run_day, (proj2 (Z.leb_gt _ _))
                                  by lia; reflexivity].
  destruct (Z.leb_spec dd 31);
    [|rewrite run_day, (proj2 (Z.leb_gt dd 31)), andb_false_r by lia;
      reflexivity].
  destruct (Z.leb_spec 1 mm);
    [|rewrite run_day, run_month, (proj2 (Z.leb_gt 1 mm)) by lia;
      replace ((1 <=? dd) && (dd <=? 31)) with true
        by (symmetry; apply andb_true_iff; rewrite !Z.leb_le; lia);
      reflexivity].
  destruct (Z.leb_spec mm 12);
    [|rewrite run_day, run_month, (proj2 (Z.leb_gt mm 12)), andb_false_r
        by lia;
      replace ((1 <=? dd) && (dd <=? 31)) with true
        by (symmetry; apply andb_true_iff; rewrite !Z.leb_le; lia);
      reflexivity].
  rewrite run_strict by (try lia; apply ascii_digit_isdecimal; assumption).
  cbn [head end_ text fst snd groups andb].
  replace (len (two_digits dd ++ chr "." :: two_digits mm ++ chr "."
                :: [y1; y2; y3; y4])
           =? len (two_digits dd ++ chr "." :: two_digits mm ++ chr "."
                   :: [y1; y2; y3; y4]))
    with true by (symmetry; apply Z.eqb_refl).
  cbn [negb].
  change (int_group _ "Y" None) with (v <- int [y1; y2; y3; y4] ;; Ok (Some v)).
  change (int_group _ "m" (Some 1)) with (v <- int (two_digits mm) ;; Ok (Some v)).
  change (int_group _ "d" (Some 1)) with (v <- int (two_digits dd) ;; Ok (Some v)).
  rewrite int_four_ascii_digits, !int_two_digits by assumption.
  cbn [bind default]. fold yy. apply new_twice.
Qed.

(** ** The matcher against the declarative reading of a pattern *)

Lemma one_inv (p : N -> bool) (s : pystr) (f : found) :
  In f (one p s) -> exists x, p x = true /\ f = ([x], [], rest f) /\ s = x :: rest f.
Proof.
  destruct s as [|x s]; cbn; [tauto|].
  destruct (p x) eqn:E; cbn; [|tauto].
  intros [<-|[]]. exists x. auto.
Qed.

(** Every way found by the matcher is a match of the pattern, and the
    input is the matched text followed by the rest. *)
Lemma run_sound (r : regex) (s : pystr) (f : found) :
  In f (run r s) -> matches r (text f) (groups f) /\ s = text f ++ rest f.
Proof.
  revert s f. induction r as [c|lo hi| |r1 IH1 r2 IH2|r1 IH1 r2 IH2|name r IH];
    intros s f; cbn [run].
  - intros H. apply one_inv in H as (x & Hx & -> & ->).
    apply N.eqb_eq in Hx as ->. split; [constructor|reflexivity].
  - intros H. apply one_inv in H as (x & Hx & -> & ->).
    split; [constructor; exact Hx|reflexivity].
  - intros H. apply one_inv in H as (x & Hx & -> & ->).
    split; [constructor; exact Hx|reflexivity].
  - rewrite in_flat_map. intros (f1 & H1 & H2).
    apply in_map_iff in H2 as (f2 & <- & H2).
    apply IH1 in H1 as [M1 ->]. apply IH2 in H2 as [M2 E2].
    unfold prepend. cbn [text groups rest fst snd].
    split; [constructor; assumption|]. rewrite E2, app_assoc. reflexivity.
  - rewrite in_app_iff. intros [H|H].
    + apply IH1 in H as [M ->]. split; [apply matches_alt_l, M|reflexivity].
    + apply IH2 in H as [M ->]. split; [apply matches_alt_r, M|reflexivity].
  - intros H. apply in_map_iff in H as (f0 & <- & H).
    apply IH in H as [M ->]. unfold capture. cbn [text groups rest fst snd].
    split; [constructor; exact M|reflexivity].
Qed.

(** Every match of the pattern at the head of the input is found. *)
Lemma run_complete (r : regex) (t : pystr) (g : groupdict) :
  matches r t g -> forall s, In (t, g, s) (run r (t ++ s)).
Proof.
  induction 1 as [c|lo hi x Hx|x Hx|r1 r2 t1 g1 t2 g2 _ IH1 _ IH2
                  |r1 r2 t g _ IH|r1 r2 t g _ IH|name r t g _ IH];
    intros s; cbn [run].
  - cbn [app one]. rewrite N.eqb_refl. left. reflexivity.
  - cbn [app one]. rewrite Hx. left. reflexivity.
  - cbn [app one]. rewrite Hx. left. reflexivity.
  - rewrite in_flat_map. exists (t1, g1, t2 ++ s). split.
    + rewrite <- app_assoc. apply IH1.
    + apply in_map_iff. exists (t2, g2, s). split; [reflexivity|apply IH2].
  - apply in_app_iff. left. apply IH.
  - apply in_app_iff. right. apply IH.
  - apply in_map_iff. exists (t, g, s). split; [reflexivity|apply IH].
Qed.

Lemma matches_groupless (r : regex) (t : pystr) (g : groupdict) :
  matches r t g -> groupless r = true -> g = [].
Proof.
  induction 1; cbn; try reflexivity; try discriminate;
    rewrite ?andb_true_iff; try tauto.
  intros [H1 H2]. rewrite IHmatches1, IHmatches2 by assumption. reflexivity.
Qed.

(** ** The pattern of a birthday matches in one way only *)

Ltac invert_matches :=
  repeat match goal with
         | H : matches (Lit _) _ _ |- _ => inversion H; subst; clear H
         | H : matches (Range _ _) _ _ |- _ => inversion H; subst; clear H
         | H : matches Digit _ _ |- _ => inversion H; subst; clear H
         | H : matches (Cat _ _) _ _ |- _ => inversion H; subst; clear H
         | H : matches (Alt _ _) _ _ |- _ => inversion H; subst; clear H
         | H : matches (Group _ _) _ _ |- _ => inversion H; subst; clear H
         end.

(** A character test on a known character that cannot hold. *)
Ltac absurd_test :=
  match goal with
  | H : Unicode.in_range ?c _ = true |- _ =>
      is_ground c; vm_compute in H; discriminate H
  | H : Unicode.isdecimal ?c = true |- _ =>
      is_ground c; vm_compute in H; discriminate H
  end.

Lemma not_dot (c : N) :
  Unicode.in_range c (chr "0", chr "1") = true
  \/ Unicode.in_range c (chr "1", chr "9") = true
  \/ Unicode.in_range c (chr "0", chr "2") = true
  \/ Unicode.isdecimal c = true ->
  c <> chr ".".
Proof. intros H ->. vm_compute in H. intuition discriminate. Qed.

(** A day is one or two characters, and the second is not a dot. *)
Lemma day_shape (D : pystr) (g : groupdict) :
  matches re_d D g ->
  g = [("d"%char, D)]
  /\ ((exists c1, D = [c1])
      \/ (exists c1 c2, D = [c1; c2] /\ c2 <> chr ".")).
Proof.
  unfold re_d. intros H. invert_matches; (split; [reflexivity|]);
    first [left; eexists; reflexivity
          |right; do 2 eexists; split; [reflexivity|apply not_dot; auto]].
Qed.

Lemma month_shape (M : pystr) (g : groupdict) :
  matches re_m M g ->
  g = [("m"%char, M)]
  /\ ((exists c1, M = [c1])
      \/ (exists c1 c2, M = [c1; c2] /\ c2 <> chr ".")).
Proof.
  unfold re_m. intros H. invert_matches; (split; [reflexivity|]);
    first [left; eexists; reflexivity
          |right; do 2 eexists; split; [reflexivity|apply not_dot; auto]].
Qed.

Lemma year_shape (Y : pystr) (g : groupdict) :
  matches re_Y Y g ->
  g = [("Y"%char, Y)] /\ exists c1 c2 c3 c4, Y = [c1; c2; c3; c4].
Proof.
  unfold re_Y. intros H. invert_matches. split; [reflexivity|].
  do 4 eexists. reflexivity.
Qed.

(** A field of one or two characters followed by a dot is read in one way
    only. *)
Lemma field_unique (F F' T T' : pystr) :
  (exists c1, F = [c1]) \/ (exists c1 c2, F = [c1; c2] /\ c2 <> chr ".") ->
  (exists c1, F' = [c1]) \/ (exists c1 c2, F' = [c1; c2] /\ c2 <> chr ".") ->
  F ++ chr "." :: T = F' ++ chr "." :: T' ->
  F = F' /\ T = T'.
Proof.
  intros [(c1 & ->)|(c1 & c2 & -> & H2)] [(c1' & ->)|(c1' & c2' & -> & H2')];
    cbn [app]; intros E; inversion E; subst;
    try (exfalso; congruence); auto.
Qed.

Lemma birthday_pattern_inv (t : pystr) (g : groupdict) :
  matches birthday_pattern t g ->
  exists D M Y,
    t = D ++ chr "." :: M ++ chr "." :: Y
    /\ g = [("d"%char, D); ("m"%char, M); ("Y"%char, Y)]
    /\ matches re_d D [("d"%char, D)]
    /\ matches re_m M [("m"%char, M)]
    /\ matches re_Y Y [("Y"%char, Y)].
Proof.
  unfold birthday_pattern. intros H. invert_matches.
  match goal with
  | Hd : matches re_d ?D ?gd, Hm : matches re_m ?M ?gm,
    Hy : matches re_Y ?Y ?gy |- _ =>
      destruct (day_shape _ _ Hd) as [-> _];
      destruct (month_shape _ _ Hm) as [-> _];
      destruct (year_shape _ _ Hy) as [-> _];
      exists D, M, Y; auto
  end.
Qed.

Lemma birthday_pattern_intro (D M Y : pystr) :
  matches re_d D [("d"%char, D)] -> matches re_m M [("m"%char, M)] ->
  matches re_Y Y [("Y"%char, Y)] ->
  matches birthday_pattern (D ++ chr "." :: M ++ chr "." :: Y)
          [("d"%char, D); ("m"%char, M); ("Y"%char, Y)].
Proof.
  intros Hd Hm Hy. unfold birthday_pattern.
  apply (matches_cat _ _ D [_] (chr "." :: M ++ chr "." :: Y) [_; _]);
    [exact Hd|].
  apply (matches_cat _ _ [chr "."] [] (M ++ chr "." :: Y) [_; _]);
    [constructor|].
  apply (matches_cat _ _ M [_] (chr "." :: Y) [_]); [exact Hm|].
  apply (matches_cat _ _ [chr "."] [] Y [_]); [constructor|exact Hy].
Qed.

(** Whatever the input, the matcher finds the pattern of a birthday in one
    way at most. *)
Lemma birthday_pattern_unique (s : pystr) (f f' : found) :
  In f (run birthday_pattern s) -> In f' (run birthday_pattern s) -> f = f'.
Proof.
  intros H H'. apply run_sound in H as [Hm Hs], H' as [Hm' Hs'].
  destruct f as [[t g] r], f' as [[t' g'] r']. cbn [text groups rest fst snd] in *.
  apply birthday_pattern_inv in Hm as (D & M & Y & -> & -> & Hd & Hmo & Hy).
  apply birthday_pattern_inv in Hm'
    as (D' & M' & Y' & -> & -> & Hd' & Hmo' & Hy').
  rewrite Hs in Hs'. clear Hs.
  rewrite <- !app_assoc in Hs'. cbn [app] in Hs'.
  rewrite <- !app_assoc in Hs'. cbn [app] in Hs'.
  apply field_unique in Hs' as [<- Hs'];
    [|apply (day_shape _ _ Hd)|apply (day_shape _ _ Hd')].
  apply field_unique in Hs' as [<- Hs'];
    [|apply (month_shape _ _ Hmo)|apply (month_shape _ _ Hmo')].
  destruct (year_shape _ _ Hy) as [_ (c1 & c2 & c3 & c4 & ->)].
  destruct (year_shape _ _ Hy') as [_ (c1' & c2' & c3' & c4' & ->)].
  cbn [app] in Hs'. injection Hs' as -> -> -> -> ->. reflexivity.
Qed.

(** [strptime] with the format of the address book succeeds exactly on the
    strings that spell a real date, and returns that date. *)
Lemma strptime_spells (s : pystr) (d : date) :
  strptime s Birthday_format = Ok d <-> spells s d /\ valid d.
Proof.
  unfold strptime. rewrite pattern_Birthday_format.
  fold birthday_pattern. unfold match_. split.
  - destruct (run birthday_pattern s) as [|f l] eqn:Er; cbn [head];
      [discriminate|].
    assert (Hin : In f (run birthday_pattern s)) by (rewrite Er; left; auto).
    apply run_sound in Hin as [Hm Hs].
    apply birthday_pattern_inv in Hm as (D & M & Y & Ht & Hg & Hd & Hmo & Hy).
    destruct (Z.eqb_spec (len s) (end_ f)) as [Hl|Hl]; cbn [negb];
      [|discriminate].
    assert (Hr : rest f = []).
    { apply (f_equal (@length N)) in Hs. rewrite length_app in Hs.
      unfold end_, len in Hl.
      destruct (rest f) as [|x r]; [reflexivity|]. cbn [length] in Hs.
      exfalso. lia. }
    rewrite Hr, app_nil_r, Ht in Hs. rewrite Hg.
    change (int_group _ "Y" None) with (v <- int Y ;; Ok (Some v)).
    change (int_group _ "m" (Some 1)) with (v <- int M ;; Ok (Some v)).
    change (int_group _ "d" (Some 1)) with (v <- int D ;; Ok (Some v)).
    destruct (int Y) as [y|] eqn:Ey; cbn [bind]; [|discriminate].
    destruct (int M) as [m|] eqn:Em; cbn [bind]; [|discriminate].
    destruct (int D) as [dd|] eqn:Ed; cbn [bind default]; [|discriminate].
    rewrite new_twice. intros Hnew. apply new_inv in Hnew as [-> Hv].
    split; [|exact Hv]. exists D, M, Y. cbn [year month day]. auto 10.
  - intros [(D & M & Y & -> & Hd & Hmo & Hy & Ed & Em & Ey) Hv].
    pose proof (run_complete _ _ _ (birthday_pattern_intro D M Y Hd Hmo Hy) [])
      as Hin.
    rewrite app_nil_r in Hin.
    destruct (run birthday_pattern (D ++ chr "." :: M ++ chr "." :: Y))
      as [|f l] eqn:Er; [destruct Hin|].
    assert (Hf : In f (run birthday_pattern (D ++ chr "." :: M ++ chr "." :: Y)))
      by (rewrite Er; left; auto).
    rewrite <- Er in Hin.
    rewrite (birthday_pattern_unique _ _ _ Hf Hin).
    cbn [head end_ text groups fst snd].
    rewrite Z.eqb_refl. cbn [negb].
    change (int_group _ "Y" None) with (v <- int Y ;; Ok (Some v)).
    change (int_group _ "m" (Some 1)) with (v <- int M ;; Ok (Some v)).
    change (int_group _ "d" (Some 1)) with (v <- int D ;; Ok (Some v)).
    rewrite Ey, Em, Ed. cbn [bind default]. rewrite new_twice.
    destruct d as [y m dd]. apply new_ok, Hv.
Qed.

(** ** The constructor of [Birthday] *)

Lemma new_invalid (y m d : Z) :
  ~ valid (mkdate y m d) -> new y m d = Raise ValueError.
Proof.
  intros H. destruct (new y m d) as [x|e] eqn:E.
  - apply new_inv in E as [-> Hv]. contradiction.
  - apply new_raises in E as ->. reflexivity.
Qed.

Lemma int_raises (s : pystr) (e : exception) : int s = Raise e -> e = ValueError.
Proof.
  unfold int. destruct (strip s); [congruence|].
  destruct (digits_value 0 _); congruence.
Qed.

Lemma int_group_raises (g : groupdict) (k : ascii) (o : option Z)
    (e : exception) :
  int_group g k o = Raise e -> e = ValueError.
Proof.
  unfold int_group. destruct (get g k) as [t|]; [|discriminate].
  destruct (int t) eqn:E; cbn; [discriminate|].
  intros [= <-]. apply (int_raises _ _ E).
Qed.

(** What [strptime] returns is a date; what it raises is a [ValueError]. *)
Lemma strptime_result (s format : pystr) :
  match strptime s format with
  | Ok d => valid d
  | Raise e => e = ValueError
  end.
Proof.
  unfold strptime.
  destruct (pattern format); [|reflexivity].
  destruct (match_ _ _); [|reflexivity].
  destruct (negb _); [reflexivity|].
  destruct (int_group _ "Y" _) as [y|e] eqn:Ey; cbn [bind];
    [|apply (int_group_raises _ _ _ _ Ey)].
  destruct (int_group _ "m" _) as [m|e] eqn:Em; cbn [bind];
    [|apply (int_group_raises _ _ _ _ Em)].
  destruct (int_group _ "d" _) as [d|e] eqn:Ed; cbn [bind];
    [|apply (int_group_raises _ _ _ _ Ed)].
  match goal with
  | |- context [bind (new ?a ?b ?c) _] =>
      destruct (new a b c) as [x|e] eqn:E1; cbn [bind];
      [|apply (new_raises _ _ _ _ E1)]
  end.
  match goal with
  | |- context [new ?a ?b ?c] => destruct (new a b c) as [x'|e] eqn:E2
  end.
  - apply new_inv in E2 as [_ Hv]. exact Hv.
  - apply (new_raises _ _ _ _ E2).
Qed.

Lemma Birthday_init_strptime (s : pystr) :
  Birthday_init s
  = match strptime s Birthday_format with
    | Ok d => Ok (mkField d)
    | Raise _ => Raise ValueError
    end.
Proof.
  unfold Birthday_init. pose proof (strptime_result s Birthday_format) as H.
  destruct (strptime s Birthday_format) as [d|e]; [reflexivity|].
  subst e. reflexivity.
Qed.

Lemma Birthday_str_eq (c : libc) (d : date) :
  Birthday_str c (mkField d)
  = two_digits (day d) ++ chr "." :: two_digits (month d) ++ chr "."
    :: directive_Y c (year d).
Proof.
  destruct c; [reflexivity|].
  change (Birthday_str plain_year (mkField d))
    with (two_digits (day d) ++ chr "." :: two_digits (month d) ++ chr "."
          :: (directive_Y plain_year (year d) ++ [])).
  rewrite app_nil_r. reflexivity.
Qed.

(** Claim C4, amended.  For a string of two ASCII digits, a dot, two ASCII
    digits, a dot and four ASCII digits: when the three numbers are a real
    calendar date (year 1 to 9999), the constructor of [Birthday] succeeds,
    stores that date, and formats it back to the same string, provided the
    year is printed with four digits (the year is at least 1000, or the C
    library pads [%Y]); when they are not a real date, the constructor
    raises [ValueError].  For every string: the constructor succeeds
    exactly when the string is a day, a dot, a month, a dot and a year as
    the patterns of [%d], [%m] and [%Y] match them, the three numbers being
    a real calendar date, which is the date it stores; otherwise it raises
    [ValueError] and nothing else.  The patterns accept more than the
    strict form, a day or a month of one digit for instance. *)
Theorem Birthday_init_spec (s : pystr) :
  (forall d, strict_DD_MM_YYYY s = Some d -> valid d ->
     Birthday_init s = Ok (mkField d)
     /\ forall c, c = pads_year \/ 1000 <= year d ->
                  Birthday_str c (mkField d) = s)
  /\ (forall d, strict_DD_MM_YYYY s = Some d -> ~ valid d ->
        Birthday_init s = Raise ValueError)
  /\ (forall b, Birthday_init s = Ok b <->
                 spells s (value b) /\ valid (value b))
  /\ (forall e, Birthday_init s = Raise e -> e = ValueError).
Proof.
  split; [|split; [|split]].
  - intros d Hs Hv. split.
    + rewrite Birthday_init_strptime, (strptime_strict s d Hs).
      destruct (valid_fields d Hv) as (_ & Hm & Hd).
      replace ((1 <=? day d) && (day d <=? 31) && (1 <=? month d)
               && (month d <=? 12)) with true
        by (symmetry; rewrite !andb_true_iff, !Z.leb_le; lia).
      destruct d as [y m dd]. rewrite new_ok by exact Hv. reflexivity.
    + intros c Hc. rewrite Birthday_str_eq.
      apply strict_inv in Hs
        as (d1 & d2 & m1 & m2 & y1 & y2 & y3 & y4 & -> & Hdig & ->).
      apply Forall_cons_iff in Hdig as [Hd1 Hdig].
      apply Forall_cons_iff in Hdig as [Hd2 Hdig].
      apply Forall_cons_iff in Hdig as [Hm1 Hdig].
      apply Forall_cons_iff in Hdig as [Hm2 Hdig].
      apply Forall_cons_iff in Hdig as [Hy1 Hdig].
      apply Forall_cons_iff in Hdig as [Hy2 Hdig].
      apply Forall_cons_iff in Hdig as [Hy3 Hdig].
      apply Forall_cons_iff in Hdig as [Hy4 _].
      cbn [year month day] in *.
      rewrite !two_digits_ascii by assumption.
      assert (HY : directive_Y c (1000 * digit_value y1 + 100 * digit_value y2
                                  + 10 * digit_value y3 + digit_value y4)
                   = [y1; y2; y3; y4]).
      { rewrite <- (four_digits_ascii y1 y2 y3 y4) by assumption.
        destruct c; cbn [directive_Y]; [reflexivity|].
        destruct Hc as [|Hc]; [discriminate|].
        apply strip_zeros_four_digits.
        destruct Hv as ((_ & Hy) & _). cbn in Hy. unfold MAXYEAR in Hy. lia. }
      rewrite HY. reflexivity.
  - intros d Hs Hv.
    rewrite Birthday_init_strptime, (strptime_strict s d Hs).
    destruct (_ && _); [|reflexivity].
    destruct d as [y m dd]. cbn [year month day].
    rewrite new_invalid by exact Hv. reflexivity.
  - intros [d]. cbn [value]. rewrite <- strptime_spells.
    rewrite Birthday_init_strptime.
    destruct (strptime s Birthday_format) as [d'|e'].
    + split; intros [= ->]; reflexivity.
    + split; discriminate.
  - intros e. rewrite Birthday_init_strptime.
    destruct (strptime s Birthday_format); [discriminate|]. congruence.
Qed.

Lemma Birthday_init_spec_witness :
  (Birthday_init (str "15.06.1990") = Ok (mkField (mkdate 1990 6 15))
   /\ forall c, c = pads_year \/ 1000 <= 1990 ->
                Birthday_str c (mkField (mkdate 1990 6 15)) = str "15.06.1990")
  /\ Birthday_init (str "31.04.2024") = Raise ValueError.
Proof.
  split.
  - apply (proj1 (Birthday_init_spec (str "15.06.1990")) (mkdate 1990 6 15)).
    + reflexivity.
    + apply exists_date_valid. reflexivity.
  - apply (proj1 (proj2 (Birthday_init_spec (str "31.04.2024")))
             (mkdate 2024 4 31)).
    + reflexivity.
    + intros H. apply exists_date_valid in H. discriminate.
Defined.

(** Claim C4 fails on [1.2.2024]: the string is not in the form
    [DD.MM.YYYY], yet the constructor accepts it, stores 1 February 2024,
    and formats it back as [01.02.2024], which is not the string given. *)
Lemma Birthday_init_accepts_short_fields :
  strict_DD_MM_YYYY (str "1.2.2024") = None
  /\ Birthday_init (str "1.2.2024") = Ok (mkField (mkdate 2024 2 1))
  /\ (forall c, Birthday_str c (mkField (mkdate 2024 2 1)) = str "01.02.2024")
  /\ str "01.02.2024" <> str "1.2.2024".
Proof.
  split; [reflexivity|]. split; [reflexivity|].
  split; [intros []; reflexivity|discriminate].
Qed.

(** ** The scenarios of the specification *)

(** Today is Monday 10 June 2024: Alice (Saturday 15 June) and Bob (Sunday
    16 June) are greeted on Monday 17 June, Carol (20 June, ten days ahead)
    and Dave (no birthday) are left out. *)
Example scenario_june_2024 (c : libc) :
  AddressBook_get_upcoming_birthdays c scenario_today scenario_book
  = Ok [mkGreeting (str "Alice") (str "2024.06.17");
        mkGreeting (str "Bob") (str "2024.06.17")].
Proof. destruct c; reflexivity. Qed.

(** Six days ahead is inside the window, seven days ahead is outside. *)
Example scenario_window (c : libc) :
  AddressBook_get_upcoming_birthdays c (mkdate 2024 6 12)
    (fold_left AddressBook_add_record
       [contact "Six" (Some (mkdate 1990 6 18));
        contact "Seven" (Some (mkdate 1990 6 19))] [])
  = Ok [mkGreeting (str "Six") (str "2024.06.18")].
Proof. destruct c; reflexivity. Qed.

(** On 30 December 2024 a birthday on 2 January has passed this year and
    is three days ahead in 2025. *)
Example scenario_rollover (c : libc) :
  AddressBook_get_upcoming_birthdays c (mkdate 2024 12 30)
    (AddressBook_add_record [] (contact "Eve" (Some (mkdate 1990 1 2))))
  = Ok [mkGreeting (str "Eve") (str "2025.01.02")].
Proof. destruct c; reflexivity. Qed.

(** Where the C library does not pad [%Y], a year below 1000 is printed
    with fewer than four digits. *)
Example plain_year_below_1000 :
  Birthday_init (str "01.01.0999") = Ok (mkField (mkdate 999 1 1))
  /\ Birthday_str plain_year (mkField (mkdate 999 1 1)) = str "01.01.999"
  /\ Birthday_str pads_year (mkField (mkdate 999 1 1)) = str "01.01.0999".
Proof. repeat split; reflexivity. Qed.

(** [strptime] takes a decimal digit of any script where the pattern says
    [\d]: the day 15 written with an Arabic-Indic five. *)
Example Birthday_init_unicode_digit :
  Birthday_init [49; 1637; 46; 48; 54; 46; 50; 48; 50; 52]%N
  = Ok (mkField (mkdate 2024 6 15)).
Proof. reflexivity. Qed.

(** ** Adding and removing phones *)

(** A decidable statement about given values, by evaluation. *)
Ltac by_evaluation := apply (bool_decide_unpack _); vm_compute; reflexivity.

Lemma phone_values_set_phones (r : record) (ps : list Phone) :
  phone_values (set_phones r ps) = value <$> ps.
Proof. reflexivity. Qed.

Lemma set_phones_phones (r : record) : set_phones r (phones r) = r.
Proof. destruct r; reflexivity. Qed.

Lemma set_phones_twice (r : record) (ps ps' : list Phone) :
  set_phones (set_phones r ps) ps' = set_phones r ps'.
Proof. reflexivity. Qed.

Lemma values_not_elem (s : pystr) (ps : list Phone) :
  (forall q, q ∈ ps -> value q <> s) <-> s ∉ value <$> ps.
Proof.
  rewrite list_elem_of_fmap. split.
  - intros H (q & -> & Hq). exact (H q Hq eq_refl).
  - intros H q Hq E. apply H. exists q. auto.
Qed.



(** Property X2.  Adding a number that is not stored and removing it again
    gives the record back. *)
Theorem add_remove_phone (self self' : record) (s : pystr) :
  s ∉ phone_values self -> Record_add_phone self s = Ok self' ->
  Record_remove_phone self' s = self.
Proof.
  intros Hn Hadd.
  destruct (add_phone_cases _ _ _ Hadd) as [[Hin _]|[_ ->]]; [done|].
  unfold Record_remove_phone. cbn [phones set_phones].
  assert (E : first_index s (phones self ++ [mkField s])
              = Some (length (phones self))).
  { apply first_index_Some. exists (phones self), (mkField s), [].
    repeat split. apply values_not_elem, Hn. }
  rewrite E, delete_middle, app_nil_r, set_phones_twice.
  apply set_phones_phones.
Qed.

Lemma add_remove_phone_witness :
  Record_remove_phone
    (set_phones ann (phones ann ++ [mkField (str "3333333333")]))
    (str "3333333333")
  = ann.
Proof.
  apply (add_remove_phone ann _ (str "3333333333")).
  - by_evaluation.
  - reflexivity.
Defined.

(** Property X3.  When the stored numbers are distinct and [edit_phone]
    replaces one, they stay distinct exactly when the new number is the old
    one or is not stored yet. *)
Theorem edit_phone_keeps_distinct (self self' : record) (old new : pystr) :
  NoDup (phone_values self) ->
  Record_edit_phone self old new = Ok (self', true) ->
  (NoDup (phone_values self') <-> new = old \/ new ∉ phone_values self).
Proof.
  intros Hnd Hedit. split.
  - revert Hedit. unfold Record_edit_phone.
    destruct (first_index old (phones self)) as [idx|] eqn:Hi;
      [|discriminate].
    apply first_index_Some in Hi as (l1 & p & l2 & Hp & <- & Hv & Hl1).
    destruct (Phone_init new) as [q|] eqn:Hq; cbn [bind]; [|discriminate].
    apply Phone_init_Ok in Hq as ->. intros [= <-].
    rewrite phone_values_set_phones, Hp, insert_middle.
    rewrite fmap_app, fmap_cons. cbn [value].
    intros Hnd'. destruct (decide (new = old)) as [|Hne]; [left; done|right].
    apply list.NoDup_app in Hnd' as (Hnd1 & Hx & Hnd2).
    apply list.NoDup_cons in Hnd2 as (Hn2 & _).
    unfold phone_values. rewrite Hp, fmap_app, fmap_cons, Hv.
    rewrite elem_of_app, elem_of_cons. intros [Hin|[Heq|Hin]].
    + apply (Hx new Hin). apply elem_of_cons. auto.
    + done.
    + done.
  - intros Hcase. eapply edit_phone_NoDup; [exact Hnd| |exact Hedit].
    destruct Hcase; auto.
Qed.

Lemma edit_phone_keeps_distinct_witness :
  NoDup (phone_values
           (set_phones ann [mkField (str "1111111111");
                            mkField (str "3333333333")]))
  <-> str "3333333333" = str "2222222222"
      \/ str "3333333333" ∉ phone_values ann.
Proof.
  apply (edit_phone_keeps_distinct ann _ (str "2222222222")
           (str "3333333333")).
  - by_evaluation.
  - reflexivity.
Defined.
(** ** What a record holds *)

Lemma Phone_init_phone_ok (s : pystr) (p : Phone) :
  Phone_init s = Ok p -> phone_ok p.
Proof.
  unfold Phone_init, phone_ok.
  destruct (str_isdigit s) eqn:Hd; [|discriminate].
  destruct (Z.eqb_spec (len s) 10) as [Hl|]; [|discriminate].
  intros [= <-]. auto.
Qed.

Lemma Birthday_init_valid (s : pystr) (b : Birthday) :
  Birthday_init s = Ok b -> valid (value b).
Proof.
  rewrite Birthday_init_strptime.
  pose proof (strptime_result s Birthday_format) as H.
  destruct (_strptime.strptime s Birthday_format); [|discriminate].
  intros [= <-]. exact H.
Qed.

Lemma record_op_ok (r r' : record) :
  record_op r r' -> record_ok r -> record_ok r'.
Proof.
  intros Hop [Hph Hb]. destruct Hop as [r s r' H|r s|r old new r' ch H|r s r' H].
  - revert H. unfold Record_add_phone.
    destruct (Phone_init s) as [p|] eqn:Hp; cbn [bind]; [|discriminate].
    destruct (negb _); intros [= <-]; [|split; assumption].
    split; [|exact Hb]. cbn [phones set_phones].
    apply Forall_app. split; [exact Hph|].
    apply Forall_singleton. eapply Phone_init_phone_ok, Hp.
  - unfold Record_remove_phone.
    destruct (first_index s (phones r)); [|split; assumption].
    split; [|exact Hb]. cbn [phones set_phones]. apply Forall_delete, Hph.
  - revert H. unfold Record_edit_phone.
    destruct (first_index old (phones r)); [|intros [= <- _]; split; assumption].
    destruct (Phone_init new) as [p|] eqn:Hp; cbn [bind]; [|discriminate].
    intros [= <- _]. split; [|exact Hb]. cbn [phones set_phones].
    apply Forall_insert; [exact Hph|]. eapply Phone_init_phone_ok, Hp.
  - revert H. unfold Record_add_birthday.
    destruct (Birthday_init s) as [b|] eqn:Hs; cbn [bind]; [|discriminate].
    intros [= <-]. split; [exact Hph|]. cbn [birthday set_birthday].
    intros b' [= <-]. eapply Birthday_init_valid, Hs.
Qed.

(** Property X4.  Whatever methods are called on a [Record] after its
    creation, every number it stores is ten characters that [str.isdigit]
    accepts, and its birthday, when set, is a date of the calendar. *)
Theorem created_record_ok (r : record) : created r -> record_ok r.
Proof.
  induction 1 as [n|r r' _ IH Hop].
  - split; [constructor|discriminate].
  - eapply record_op_ok; eassumption.
Qed.

Lemma created_record_ok_witness :
  record_ok (mkRecord (Name_init (str "Ann")) [mkField (str "0501234567")]
               None).
Proof.
  apply created_record_ok.
  apply (created_op (Record_init (str "Ann"))); [constructor|].
  apply (op_add_phone _ (str "0501234567")). reflexivity.
Defined.

(** ** The text of a birthday *)

(** The text for a birthday that is not set, code point by code point. *)
Example birthday_not_set_text :
  birthday_not_set
  = [1044; 1077; 1085; 1100; 32; 1085; 1072; 1088; 1086; 1076; 1078; 1077;
     1085; 1085; 1103; 32; 1085; 1077; 32; 1079; 1072; 1076; 1072;
     1085; 1086]%N.
Proof. vm_compute. reflexivity. Qed.

(** What [Birthday.__str__] prints starts with a digit, so it is never the
    text that stands for a birthday that is not set. *)
Lemma Birthday_str_set (c : libc) (b : Birthday) :
  Birthday_str c b <> birthday_not_set.
Proof.
  destruct b as [d]. rewrite Birthday_str_eq.
  assert (E : exists t, birthday_not_set = 1044%N :: t)
    by (eexists; vm_compute; reflexivity).
  destruct E as [t ->]. unfold two_digits. cbn [app].
  intros [= H _]. unfold digit in H.
  pose proof (Z.mod_pos_bound (day d / 10) 10 eq_refl). lia.
Qed.

(** Property X5.  [Record.show_birthday] answers that no birthday is set
    exactly when none is set. *)
Theorem show_birthday_not_set (c : libc) (self : record) :
  Record_show_birthday c self = birthday_not_set <-> birthday self = None.
Proof.
  unfold Record_show_birthday. destruct (birthday self) as [b|]; [|done].
  split; [|discriminate]. intros H. destruct (Birthday_str_set c b H).
Qed.
(** ** Storing, finding and deleting a record *)

(** Case analysis on the key tests of a goal. *)
Ltac key_facts :=
  repeat match goal with
  | H : key_is _ _ = true |- _ => apply key_is_true in H; cbn [fst] in H
  | H : key_is _ _ = false |- _ => apply key_is_false in H; cbn [fst] in H
  end.

Ltac key_cases :=
  repeat (match goal with
          | |- context [key_is ?a ?b] => destruct (key_is a b) eqn:?
          end; cbn [List.find dict_set dict_del app bind]);
  key_facts.

Lemma dict_get_set (d : AddressBook) (k n : pystr) (v : record) :
  dict_get (dict_set d k v) n
  = if bool_decide (n = k) then Some v else dict_get d n.
Proof.
  unfold dict_get. induction d as [|[k' r'] d IH]; cbn [dict_set List.find].
  - key_cases; case_bool_decide; solve [reflexivity|congruence].
  - key_cases; case_bool_decide; solve [reflexivity|congruence].
Qed.

Lemma dict_set_absent (d : AddressBook) (k : pystr) (v : record) :
  k ∉ d.*1 -> dict_set d k v = d ++ [(k, v)].
Proof.
  induction d as [|[k' r'] d IH]; [reflexivity|].
  rewrite fmap_cons, not_elem_of_cons. cbn [fst]. intros [Hne Hn].
  cbn [dict_set]. key_cases; [congruence|].
  rewrite (IH Hn). reflexivity.
Qed.

(** Writing back the record that [get] returns changes nothing. *)
Lemma dict_set_same (d : AddressBook) (k : pystr) (v : record) :
  dict_get d k = Some v -> dict_set d k v = d.
Proof.
  unfold dict_get. induction d as [|[k' r'] d IH]; [discriminate|].
  cbn [dict_set List.find]. key_cases.
  - intros [= ->]. congruence.
  - intros H. rewrite (IH H). reflexivity.
Qed.

Lemma dict_del_absent_last (d : AddressBook) (k : pystr) (v : record) :
  k ∉ d.*1 -> dict_del (d ++ [(k, v)]) k = Ok d.
Proof.
  induction d as [|[k' r'] d IH].
  - intros _. cbn [app dict_del]. key_cases; congruence.
  - rewrite fmap_cons, not_elem_of_cons. cbn [fst]. intros [Hne Hn].
    cbn [app dict_del]. key_cases; [congruence|].
    rewrite (IH Hn). reflexivity.
Qed.

(** Property X6.  After [add_record], [find] gives the stored record under
    its name and what it gave before under any other name.  A record with
    a new name goes to the end of the book; one with a name of the book
    takes the place of the old record, and the order of the names stays. *)
Theorem add_record_find (book : AddressBook) (r : record) :
  (forall n, AddressBook_find (AddressBook_add_record book r) n
             = if bool_decide (n = value (name r)) then Ok r
               else AddressBook_find book n)
  /\ (value (name r) ∉ book.*1 ->
      AddressBook_add_record book r = book ++ [(value (name r), r)])
  /\ (value (name r) ∈ book.*1 ->
      (AddressBook_add_record book r).*1 = book.*1).
Proof.
  unfold AddressBook_add_record, AddressBook_find. repeat split.
  - intros n. rewrite dict_get_set. destruct (bool_decide _); reflexivity.
  - apply dict_set_absent.
  - intros Hin. rewrite dict_set_keys.
    apply dict_contains_true in Hin. rewrite Hin. reflexivity.
Qed.

Lemma add_record_find_witness :
  AddressBook_add_record new_year_book (contact "Ann" None)
  = new_year_book ++ [(str "Ann", contact "Ann" None)].
Proof.
  apply (add_record_find new_year_book (contact "Ann" None)).
  by_evaluation.
Defined.

(** Property X7.  Storing a record under a name that the book does not
    have and deleting that name gives the book back, and [delete] reports
    a removal. *)
Theorem add_record_delete (book : AddressBook) (r : record) :
  value (name r) ∉ book.*1 ->
  AddressBook_delete (AddressBook_add_record book r) (value (name r))
  = Ok (book, true).
Proof.
  intros Hn. unfold AddressBook_delete, AddressBook_add_record.
  rewrite (dict_set_absent _ _ _ Hn).
  assert (Hc : dict_contains (book ++ [(value (name r), r)]) (value (name r))
               = true).
  { apply dict_contains_true. rewrite fmap_app. apply elem_of_app. right.
    apply elem_of_cons. auto. }
  rewrite Hc, (dict_del_absent_last _ _ _ Hn). reflexivity.
Qed.

Lemma add_record_delete_witness :
  AddressBook_delete
    (AddressBook_add_record new_year_book (contact "Ann" None)) (str "Ann")
  = Ok (new_year_book, true).
Proof.
  apply (add_record_delete new_year_book (contact "Ann" None)).
  by_evaluation.
Defined.

Lemma dict_get_filter (d : AddressBook) (n n' : pystr) :
  dict_get (filter (fun kv => kv.1 <> n) d) n'
  = if bool_decide (n' = n) then None else dict_get d n'.
Proof.
  unfold dict_get. induction d as [|[k r] d IH].
  - destruct (bool_decide _); reflexivity.
  - destruct (decide (k = n)) as [->|Hk].
    + rewrite filter_cons_False by (intros H; apply H; reflexivity).
      rewrite IH. cbn [List.find]. key_cases; case_bool_decide; solve [reflexivity|congruence].
    + rewrite filter_cons_True by exact Hk. cbn [List.find].
      key_cases; [case_bool_decide; solve [reflexivity|congruence]|exact IH].
Qed.

(** Property X8.  After [delete n], [find n] raises [KeyError], [find]
    gives under every other name what it gave before, and the flag that
    [delete] returns tells whether the name was in the book. *)
Theorem delete_find (book book' : AddressBook) (n : pystr) (removed : bool) :
  NoDup book.*1 ->
  AddressBook_delete book n = Ok (book', removed) ->
  AddressBook_find book' n = Raise KeyError
  /\ (forall n', n' <> n ->
        AddressBook_find book' n' = AddressBook_find book n')
  /\ (removed = true <-> n ∈ book.*1)
  /\ book'.*1 = filter (fun k => k <> n) book.*1.
Proof.
  intros Hnd. unfold AddressBook_delete.
  destruct (dict_contains book n) eqn:Hc.
  - apply dict_contains_true in Hc.
    rewrite (dict_del_Ok _ _ Hnd Hc). cbn [bind]. intros [= <- <-].
    unfold AddressBook_find. repeat split; auto.
    + rewrite dict_get_filter, bool_decide_eq_true_2 by reflexivity.
      reflexivity.
    + intros n' Hne. rewrite dict_get_filter.
      rewrite bool_decide_eq_false_2 by exact Hne. reflexivity.
    + clear. induction book as [|[k r] d IH]; [reflexivity|].
      rewrite fmap_cons. cbn [fst]. destruct (decide (k = n)) as [->|Hk].
      * rewrite !filter_cons_False by (intros H; apply H; reflexivity).
        exact IH.
      * rewrite !filter_cons_True by exact Hk. rewrite fmap_cons, IH.
        reflexivity.
  - intros [= <- <-].
    assert (Hn : n ∉ book.*1).
    { intros Hin. apply dict_contains_true in Hin. congruence. }
    unfold AddressBook_find. repeat split; try done.
    + apply dict_get_None in Hn. rewrite Hn. reflexivity.
    + symmetry. apply filter_all. intros k Hin ->. exact (Hn Hin).
Qed.

Lemma delete_find_witness :
  AddressBook_find [] (str "Eve") = Raise KeyError
  /\ (forall n', n' <> str "Eve" ->
        AddressBook_find [] n' = AddressBook_find new_year_book n')
  /\ (true = true <-> str "Eve" ∈ new_year_book.*1)
  /\ ([] : AddressBook).*1 = filter (fun k => k <> str "Eve") new_year_book.*1.
Proof.
  apply (delete_find new_year_book [] (str "Eve") true).
  - by_evaluation.
  - reflexivity.
Defined.
(** ** The query: when it fails and whom it lists *)

(** One pass of the loop body, in full: a record without a birthday is
    skipped; a birthday that cannot be projected raises [ValueError]; any
    other record is skipped or appended with a date at most eight days
    ahead. *)
Lemma upcoming_body_cases (c : libc) (today : date) (acc : list greeting)
    (r : record) :
  match birthday r with
  | None => upcoming_body c today acc r = Ok acc
  | Some b =>
      if projectable today (value b)
      then upcoming_body c today acc r = Ok acc
           \/ exists d,
                valid d
                /\ toordinal today <= toordinal d <= toordinal today + 8
                /\ upcoming_body c today acc r
                   = Ok (acc ++ [mkGreeting (value (name r))
                                   (strftime c Ymd_format d)])
      else upcoming_body c today acc r = Raise ValueError
  end.
Proof.
  unfold upcoming_body. destruct (birthday r) as [b|]; [|reflexivity].
  destruct (projectable today (value b)) eqn:Hproj.
  - destruct (projected_ok today (value b) Hproj) as (Hp & Hv & _).
    set (p := Spec.projected today (value b)) in *.
    unfold bind in Hp |- *.
    destruct (replace_year (value b) (year today)) as [p0|]; [|discriminate].
    rewrite Hp. unfold sub_days.
    destruct (Z.leb_spec 0 (toordinal p - toordinal today)) as [H0|];
      [|left; reflexivity].
    destruct (Z.leb_spec (toordinal p - toordinal today) 6) as [H6|];
      [|left; reflexivity].
    cbn [andb]. right.
    destruct (Z.eqb_spec (weekday p) 5) as [W5|W5];
      [|destruct (Z.eqb_spec (weekday p) 6) as [W6|W6]].
    + destruct (add_days_plusDays p 2) as (-> & Hq & Ho);
        [apply weekend_shift_in_range; auto|].
      eexists. split; [exact Hq|]. split; [lia|reflexivity].
    + destruct (add_days_plusDays p 1) as (-> & Hq & Ho);
        [apply weekend_shift_in_range; auto|].
      eexists. split; [exact Hq|]. split; [lia|reflexivity].
    + exists p. split; [exact Hv|]. split; [lia|reflexivity].
  - unfold projectable in Hproj. unfold replace_year.
    destruct (exists_date (year today) (month (value b)) (day (value b)))
      eqn:H0.
    + apply exists_date_valid in H0. rewrite (new_ok _ _ _ H0).
      cbn [bind andb] in Hproj |- *.
      fold (Spec.withYear (value b) (year today)) in *.
      destruct (lt (Spec.withYear (value b) (year today)) today);
        [|discriminate].
      cbn [month day Spec.withYear].
      rewrite new_invalid; [reflexivity|].
      intros Hv. apply exists_date_valid in Hv. congruence.
    + rewrite new_invalid; [reflexivity|].
      intros Hv. apply exists_date_valid in Hv. congruence.
Qed.

(** The loop either raises [ValueError] at a birthday that cannot be
    projected, or appends greetings for some of the records, in their
    order. *)
Lemma for_each_upcoming (c : libc) (today : date) (l : list record) :
  forall acc,
    match for_each (upcoming_body c today) acc l with
    | Ok acc' =>
        (forall r b, r ∈ l -> birthday r = Some b ->
                     projectable today (value b) = true)
        /\ exists gs rs,
             acc' = acc ++ gs
             /\ rs `sublist_of` l
             /\ Forall2 (fun g r =>
                  greeting_name g = value (name r)
                  /\ exists d, greets_on c g d
                       /\ toordinal today <= toordinal d
                          <= toordinal today + 8) gs rs
    | Raise e =>
        e = ValueError
        /\ exists r b, r ∈ l /\ birthday r = Some b
                       /\ projectable today (value b) = false
    end.
Proof.
  induction l as [|r l IH]; intros acc; cbn [for_each].
  - split; [intros r b Hin; inversion Hin|].
    exists [], []. rewrite app_nil_r. repeat split; constructor.
  - pose proof (upcoming_body_cases c today acc r) as Hr.
    destruct (birthday r) as [b|] eqn:Hb.
    + destruct (projectable today (value b)) eqn:Hproj.
      * destruct Hr as [Hr|(d & Hd & Hwin & Hr)]; rewrite Hr; cbn [bind].
        -- specialize (IH acc).
           destruct (for_each _ acc l) as [acc'|e].
           ++ destruct IH as (Hall & gs & rs & -> & Hsub & Hf). split.
              ** intros r' b' Hin Hb'. apply elem_of_cons in Hin as [->|Hin];
                   [congruence|eauto].
              ** exists gs, rs. repeat split; [|exact Hf].
                 apply sublist_cons, Hsub.
           ++ destruct IH as (-> & r' & b' & Hin & Hb' & Hp').
              split; [reflexivity|]. exists r', b'. split; [|auto].
              apply elem_of_cons. auto.
        -- specialize (IH (acc ++ [mkGreeting (value (name r))
                                     (strftime c Ymd_format d)])).
           destruct (for_each _ _ l) as [acc'|e].
           ++ destruct IH as (Hall & gs & rs & -> & Hsub & Hf). split.
              ** intros r' b' Hin Hb'. apply elem_of_cons in Hin as [->|Hin];
                   [congruence|eauto].
              ** eexists (_ :: gs), (r :: rs). split; [|split].
                 --- rewrite <- app_assoc. reflexivity.
                 --- apply sublist_skip, Hsub.
                 --- constructor; [|exact Hf]. split; [reflexivity|].
                     exists d. split; [split; [exact Hd|reflexivity]|exact Hwin].
           ++ destruct IH as (-> & r' & b' & Hin & Hb' & Hp').
              split; [reflexivity|]. exists r', b'. split; [|auto].
              apply elem_of_cons. auto.
      * rewrite Hr. cbn [bind]. split; [reflexivity|].
        exists r, b. split; [apply elem_of_cons; auto|auto].
    + rewrite Hr. cbn [bind]. specialize (IH acc).
      destruct (for_each _ acc l) as [acc'|e].
      * destruct IH as (Hall & gs & rs & -> & Hsub & Hf). split.
        -- intros r' b' Hin Hb'. apply elem_of_cons in Hin as [->|Hin];
             [congruence|eauto].
        -- exists gs, rs. repeat split; [|exact Hf].
           apply sublist_cons, Hsub.
      * destruct IH as (-> & r' & b' & Hin & Hb' & Hp').
        split; [reflexivity|]. exists r', b'. split; [|auto].
        apply elem_of_cons. auto.
Qed.

(** Property X9.  The query raises exactly when the book has a birthday
    that cannot be projected onto this year, or onto the next when the day
    has passed; and whatever it raises is a [ValueError]. *)
Theorem upcoming_birthdays_raises_iff (c : libc) (today : date)
    (book : AddressBook) :
  (raises (AddressBook_get_upcoming_birthdays c today book)
   <-> exists r b, r ∈ dict_values book /\ birthday r = Some b
                   /\ projectable today (value b) = false)
  /\ (forall e, AddressBook_get_upcoming_birthdays c today book = Raise e ->
                e = ValueError).
Proof.
  unfold AddressBook_get_upcoming_birthdays.
  pose proof (for_each_upcoming c today (dict_values book) []) as H.
  destruct (for_each _ _ _) as [acc|e].
  - destruct H as [Hall _]. split; [|discriminate]. split.
    + intros [e He]. discriminate.
    + intros (r & b & Hin & Hb & Hp). rewrite (Hall r b Hin Hb) in Hp.
      discriminate.
  - destruct H as (-> & Hex). split.
    + split; [intros _; exact Hex|intros _; eexists; reflexivity].
    + intros e [= <-]. reflexivity.
Qed.

(** Property X10.  The names that the query returns are names of records
    of the book, in the order of the book, each record at most once. *)
Theorem upcoming_birthdays_names (c : libc) (today : date)
    (book : AddressBook) (upcoming : list greeting) :
  AddressBook_get_upcoming_birthdays c today book = Ok upcoming ->
  greeting_name <$> upcoming
  `sublist_of` (fun r => value (name r)) <$> dict_values book.
Proof.
  unfold AddressBook_get_upcoming_birthdays. intros H.
  pose proof (for_each_upcoming c today (dict_values book) []) as Hs.
  rewrite H in Hs. destruct Hs as (_ & gs & rs & -> & Hsub & Hf).
  cbn [app].
  assert (E : greeting_name <$> gs = (fun r => value (name r)) <$> rs).
  { clear -Hf. induction Hf as [|g r gs rs [Hg _] _ IH]; [reflexivity|].
    rewrite !fmap_cons, Hg, IH. reflexivity. }
  rewrite E. apply fmap_sublist, Hsub.
Qed.

Lemma upcoming_birthdays_names_witness :
  greeting_name <$> [mkGreeting (str "Alice") (str "2024.06.17");
                     mkGreeting (str "Bob") (str "2024.06.17")]
  `sublist_of` (fun r => value (name r)) <$> dict_values scenario_book.
Proof.
  apply (upcoming_birthdays_names plain_year scenario_today).
  reflexivity.
Defined.

(** Property X11.  Every congratulation date that the query returns is a
    day from today to eight days ahead. *)
Theorem upcoming_birthdays_window (c : libc) (today : date)
    (book : AddressBook) (upcoming : list greeting) :
  AddressBook_get_upcoming_birthdays c today book = Ok upcoming ->
  forall g, g ∈ upcoming ->
    exists d, greets_on c g d
              /\ toordinal today <= toordinal d <= toordinal today + 8.
Proof.
  unfold AddressBook_get_upcoming_birthdays. intros H.
  pose proof (for_each_upcoming c today (dict_values book) []) as Hs.
  rewrite H in Hs. destruct Hs as (_ & gs & rs & -> & _ & Hf).
  cbn [app]. clear H. induction Hf as [|g r gs rs [_ Hg] _ IH].
  - intros g Hin. inversion Hin.
  - intros g' Hin. apply elem_of_cons in Hin as [->|Hin]; [exact Hg|auto].
Qed.

Lemma upcoming_birthdays_window_witness :
  exists d, greets_on plain_year (mkGreeting (str "Bob") (str "2024.06.17")) d
            /\ toordinal scenario_today <= toordinal d
               <= toordinal scenario_today + 8.
Proof.
  apply (upcoming_birthdays_window plain_year scenario_today scenario_book
           [mkGreeting (str "Alice") (str "2024.06.17");
            mkGreeting (str "Bob") (str "2024.06.17")]).
  - reflexivity.
  - rewrite !elem_of_cons. auto.
Defined.
(** ** The handlers of [add], [change] and [phone] *)

(** The literals of a goal, as code points. *)
Ltac eval_literals :=
  repeat match goal with
  | |- context [u ?s] =>
      let v := eval vm_compute in (u s) in change (u s) with v
  end;
  cbn [app].

Lemma find_set (book : AddressBook) (n n' : pystr) (r : record) :
  AddressBook_find (dict_set book n r) n'
  = if bool_decide (n' = n) then Ok r else AddressBook_find book n'.
Proof.
  unfold AddressBook_find. rewrite dict_get_set.
  destruct (bool_decide _); reflexivity.
Qed.

Lemma find_Ok (book : AddressBook) (n : pystr) (r : record) :
  AddressBook_find book n = Ok r <-> dict_get book n = Some r.
Proof.
  unfold AddressBook_find. destruct (dict_get book n); split; congruence.
Qed.

Lemma find_raises (book : AddressBook) (n : pystr) (e : exception) :
  AddressBook_find book n = Raise e -> e = KeyError /\ n ∉ book.*1.
Proof.
  unfold AddressBook_find. destruct (dict_get book n) eqn:E; [discriminate|].
  intros [= <-]. split; [reflexivity|]. apply dict_get_None, E.
Qed.

Lemma find_elem (book : AddressBook) (n : pystr) (r : record) :
  AddressBook_find book n = Ok r -> (n, r) ∈ book.
Proof.
  rewrite find_Ok. unfold dict_get.
  induction book as [|[k x] d IH]; [discriminate|].
  cbn [List.find]. key_cases.
  - intros [= <-]. subst. apply elem_of_cons. auto.
  - intros H. apply elem_of_cons. auto.
Qed.

Lemma find_keys (book : AddressBook) (n : pystr) :
  n ∈ book.*1 <-> exists r, AddressBook_find book n = Ok r.
Proof.
  split.
  - intros Hin. destruct (AddressBook_find book n) as [r|e] eqn:E; [eauto|].
    apply find_raises in E as [_ Hn]. contradiction.
  - intros [r Hr]. apply find_elem in Hr.
    apply list_elem_of_fmap. exists (n, r). auto.
Qed.

Lemma add_phone_result (r : record) (s : pystr) :
  match Phone_init s with
  | Ok _ =>
      exists r', Record_add_phone r s = Ok r'
                 /\ s ∈ phone_values r'
                 /\ name r' = name r /\ birthday r' = birthday r
                 /\ phone_values r `prefix_of` phone_values r'
  | Raise _ => Record_add_phone r s = Raise ValueError
  end.
Proof.
  unfold Record_add_phone. destruct (Phone_init s) as [p|e] eqn:Hp; cbn [bind].
  - apply Phone_init_Ok in Hp as ->. cbn [value].
    destruct (existsb (value_is s) (phones r)) eqn:Hex; cbn [negb].
    + exists r. split; [reflexivity|].
      split; [|split; [reflexivity|split; reflexivity]].
      apply existsb_exists in Hex as (q & Hq & Hv).
      apply value_is_true in Hv. apply list_elem_of_fmap. exists q.
      split; [auto|]. apply list_elem_of_In, Hq.
    + eexists. split; [reflexivity|].
      rewrite phone_values_set_phones, fmap_app.
      split; [|split; [reflexivity|split; [reflexivity|]]].
      * apply elem_of_app. right. apply elem_of_cons. auto.
      * apply prefix_app_r. reflexivity.
  - apply Phone_init_raises in Hp as ->. reflexivity.
Qed.

(** Property X12.  [add_contact] with a name and a number.  A number that
    [Phone] refuses gives the [ValueError] of [Phone] and leaves the book
    as it was, with no contact created.  Otherwise the command answers,
    the contact of this name has the number, and no other contact has
    changed: an existing contact keeps its name, its birthday and its
    earlier numbers in their order, and a new contact has this number
    alone. *)
Theorem add_contact_spec (n phone : pystr) (rest : list pystr)
    (book : AddressBook) :
  let result := add_contact (n :: phone :: rest) book in
  match Phone_init phone with
  | Raise _ => result = (Threw (Raised_ValueError Phone_message), book)
  | Ok _ =>
      (exists r',
          AddressBook_find result.2 n = Ok r'
          /\ phone ∈ phone_values r'
          /\ match AddressBook_find book n with
             | Ok r =>
                 result.1
                 = Returned (u "Для контакту " ++ n ++ u " додано номер "
                             ++ phone ++ u ".")
                 /\ name r' = name r /\ birthday r' = birthday r
                 /\ phone_values r `prefix_of` phone_values r'
             | Raise _ =>
                 result.1
                 = Returned (u "Створено новий контакт: " ++ n
                             ++ u " з номером " ++ phone ++ u ".")
                 /\ r' = mkRecord (Name_init n) [mkField phone] None
             end)
      /\ (forall n', n' <> n ->
            AddressBook_find result.2 n' = AddressBook_find book n')
  end.
Proof.
  cbn zeta. unfold add_contact.
  destruct (AddressBook_find book n) as [r|e] eqn:Hfind.
  - pose proof (add_phone_result r phone) as H.
    destruct (Phone_init phone) as [p|e].
    + destruct H as (r' & -> & Hin & Hname & Hb & Hpre). cbn [fst snd].
      split.
      * exists r'. rewrite find_set, bool_decide_eq_true_2 by reflexivity.
        split; [reflexivity|]. split; [exact Hin|].
        split; [reflexivity|]. auto.
      * intros n' Hne. rewrite find_set, bool_decide_eq_false_2 by exact Hne.
        reflexivity.
    + rewrite H. reflexivity.
  - apply find_raises in Hfind as [-> Hn].
    pose proof (add_phone_result (Record_init n) phone) as H.
    destruct (Phone_init phone) as [p|e] eqn:Hp.
    + destruct H as (r' & Hadd & _). rewrite Hadd. cbn [fst snd].
      assert (Hr' : r' = mkRecord (Name_init n) [mkField phone] None).
      { revert Hadd. unfold Record_add_phone. rewrite Hp. cbn.
        apply Phone_init_Ok in Hp as ->. intros [= <-]. reflexivity. }
      subst r'. unfold AddressBook_add_record. cbn [name value Name_init].
      split.
      * eexists. rewrite find_set, bool_decide_eq_true_2 by reflexivity.
        repeat split. apply elem_of_cons. auto.
      * intros n' Hne. rewrite find_set, bool_decide_eq_false_2 by exact Hne.
        reflexivity.
    + rewrite H. reflexivity.
Qed.

Lemma edit_phone_result (r : record) (old new : pystr) :
  ((old ∉ phone_values r) /\ Record_edit_phone r old new = Ok (r, false))
  \/ (exists i : nat,
        phone_values r !! i = Some old
        /\ (forall j : nat, (j < i)%nat -> phone_values r !! j <> Some old)
        /\ match Phone_init new with
           | Ok _ =>
               exists r', Record_edit_phone r old new = Ok (r', true)
                          /\ phone_values r' = <[i := new]> (phone_values r)
                          /\ name r' = name r /\ birthday r' = birthday r
           | Raise _ => Record_edit_phone r old new = Raise ValueError
           end).
Proof.
  unfold Record_edit_phone.
  destruct (first_index old (phones r)) as [i|] eqn:Hi.
  - right. exists i.
    apply first_index_Some in Hi as (l1 & p & l2 & Hp & <- & Hv & Hl1).
    unfold phone_values. rewrite Hp, fmap_app, fmap_cons, Hv.
    split; [|split].
    + rewrite lookup_app_r by (rewrite length_fmap; reflexivity).
      rewrite length_fmap, Nat.sub_diag. reflexivity.
    + intros j Hj. rewrite lookup_app_l by (rewrite length_fmap; exact Hj).
      rewrite list_lookup_fmap. intros E.
      apply fmap_Some in E as (q & Hq & E). apply (Hl1 q); [|congruence].
      eapply list_elem_of_lookup_2, Hq.
    + destruct (Phone_init new) as [q|e] eqn:Hq; cbn [bind].
      * apply Phone_init_Ok in Hq as ->. eexists. split; [reflexivity|].
        cbn [phones set_phones name birthday]. repeat split.
        rewrite insert_middle, fmap_app, fmap_cons. cbn [value].
        rewrite <- (insert_middle (value <$> l1) (value <$> l2) old new).
        rewrite length_fmap. reflexivity.
      * apply Phone_init_raises in Hq as ->. reflexivity.
  - left. split; [|reflexivity].
    apply values_not_elem. apply first_index_None, Hi.
Qed.

(** Property X13.  [change_phone] for a contact of the book.  When the old
    number is not stored, the command says so and the book stays as it
    was, whatever the new number is.  When it is stored, a new number that
    [Phone] refuses gives the [ValueError] of [Phone] and the book stays as
    it was; otherwise the first entry with the old number holds the new
    one, and nothing else in the book has changed. *)
Theorem change_phone_spec (n old new : pystr) (rest : list pystr)
    (book : AddressBook) (r : record) :
  AddressBook_find book n = Ok r ->
  let result := change_phone (n :: old :: new :: rest) book in
  (old ∉ phone_values r ->
   result = (Returned (u "У " ++ n ++ u " не знайдено номер " ++ old
                       ++ u "."), book))
  /\ (old ∈ phone_values r ->
      match Phone_init new with
      | Raise _ => result = (Threw (Raised_ValueError Phone_message), book)
      | Ok _ =>
          result.1 = Returned (u "У " ++ n ++ u " замінено номер " ++ old
                               ++ u " на " ++ new ++ u ".")
          /\ (exists (r' : record) (i : nat),
                 AddressBook_find result.2 n = Ok r'
                 /\ phone_values r !! i = Some old
                 /\ (forall j : nat,
                       (j < i)%nat -> phone_values r !! j <> Some old)
                 /\ phone_values r' = <[i := new]> (phone_values r)
                 /\ name r' = name r /\ birthday r' = birthday r)
          /\ (forall n', n' <> n ->
                AddressBook_find result.2 n' = AddressBook_find book n')
      end).
Proof.
  intros Hfind. cbn zeta. unfold change_phone. rewrite Hfind.
  destruct (edit_phone_result r old new) as [[Hn ->]|(i & Hi & Hfirst & H)].
  - split; [|intros Hin; contradiction].
    intros _. rewrite dict_set_same by (apply find_Ok, Hfind). reflexivity.
  - assert (Hin : old ∈ phone_values r) by (eapply list_elem_of_lookup_2, Hi).
    split; [intros Hn; contradiction|]. intros _.
    destruct (Phone_init new) as [q|e].
    + destruct H as (r' & -> & Hvals & Hname & Hb). cbn [fst snd].
      split; [reflexivity|]. split.
      * exists r', i. rewrite find_set, bool_decide_eq_true_2 by reflexivity.
        auto 10.
      * intros n' Hne. rewrite find_set, bool_decide_eq_false_2 by exact Hne.
        reflexivity.
    + rewrite H. reflexivity.
Qed.

Lemma change_phone_spec_witness :
  change_phone [str "Ann"; str "0000000000"; str "abc"]
    (AddressBook_add_record [] ann)
  = (Returned (u "У " ++ str "Ann" ++ u " не знайдено номер "
               ++ str "0000000000" ++ u "."),
     AddressBook_add_record [] ann).
Proof.
  refine (proj1 (change_phone_spec (str "Ann") (str "0000000000") (str "abc")
                   [] (AddressBook_add_record [] ann) ann _) _).
  - reflexivity.
  - by_evaluation.
Defined.
(** ** All handlers *)

Lemma thrown_not_IndexError (message : pystr) (e : exception) :
  thrown message e <> Raised_IndexError.
Proof. destruct e; discriminate. Qed.

(** What a handler does to the book: nothing, a method call on a record
    it found, or a new record with one number under a new name. *)
Lemma handler_step (rt : runtime) (k : command) (args : list pystr)
    (book : AddressBook) :
  let result := handler rt k args book in
  (result.2 = book
   /\ (read_only k = true \/ exists e, result.1 = Threw e))
  \/ read_only k = false
     /\ (exists s, result.1 = Returned s)
     /\ ((exists n r r',
             head args = Some n
             /\ AddressBook_find book n = Ok r /\ record_op r r'
             /\ (length (phones r) <= length (phones r'))%nat
             /\ result.2 = dict_set book n r')
         \/ (exists n p,
               head args = Some n
               /\ AddressBook_find book n = Raise KeyError
               /\ phone_ok p
               /\ result.2
                  = AddressBook_add_record book
                      (mkRecord (Name_init n) [p] None))).
Proof.
  cbn zeta.
  destruct k; cbn [handler].
  - (* add *)
    unfold add_contact.
    destruct args as [|n [|phone rest]]; [left; eauto|left; eauto|].
    destruct (AddressBook_find book n) as [r|e] eqn:Hfind.
    + destruct (Record_add_phone r phone) as [r'|e] eqn:Hadd;
        [|left; eauto].
      right. split; [reflexivity|]. split; [eauto|]. left. exists n, r, r'.
      split; [reflexivity|]. split; [exact Hfind|]. split; [econstructor; exact Hadd|].
      split; [|reflexivity].
      destruct (add_phone_cases _ _ _ Hadd) as [[_ ->]|[_ ->]]; [lia|].
      cbn [phones set_phones]. rewrite length_app. lia.
    + apply find_raises in Hfind as [-> Hn].
      unfold Record_add_phone.
      destruct (Phone_init phone) as [p|e] eqn:Hp; cbn [bind]; [|left; eauto].
      cbn [Record_init phones existsb negb].
      right. split; [reflexivity|]. split; [eauto|]. right. exists n, p.
      split; [reflexivity|].
      split; [|split; [eapply Phone_init_phone_ok, Hp|reflexivity]].
      unfold AddressBook_find. apply dict_get_None in Hn. rewrite Hn.
      reflexivity.
  - (* change *)
    unfold change_phone.
    destruct args as [|n [|old [|new rest]]]; try (left; eauto; fail).
    destruct (AddressBook_find book n) as [r|e] eqn:Hfind; [|left; eauto].
    destruct (Record_edit_phone r old new) as [[r' ch]|e] eqn:Hed;
      [|left; eauto].
    right. split; [reflexivity|]. split; [eauto|]. left. exists n, r, r'.
    split; [reflexivity|]. split; [exact Hfind|]. split; [econstructor; exact Hed|].
    split; [|reflexivity].
    revert Hed. unfold Record_edit_phone.
    destruct (first_index old (phones r)); [|intros [= <- _]; lia].
    destruct (Phone_init new); cbn [bind]; [|discriminate].
    intros [= <- _]. cbn [phones set_phones]. rewrite length_insert. lia.
  - (* phone *)
    left. split; [|left; reflexivity].
    unfold show_phones. destruct args as [|n rest]; [reflexivity|].
    destruct (AddressBook_find book n) as [r|e]; [|reflexivity].
    destruct (phones r); reflexivity.
  - (* all *)
    left. split; [|left; reflexivity].
    unfold show_all. destruct book; reflexivity.
  - (* add-birthday *)
    unfold add_birthday.
    destruct args as [|n [|s rest]]; [left; eauto|left; eauto|].
    destruct (AddressBook_find book n) as [r|e] eqn:Hfind; [|left; eauto].
    destruct (Record_add_birthday r s) as [r'|e] eqn:Hadd; [|left; eauto].
    right. split; [reflexivity|]. split; [eauto|]. left. exists n, r, r'.
    split; [reflexivity|]. split; [exact Hfind|]. split; [econstructor; exact Hadd|].
    split; [|reflexivity].
    revert Hadd. unfold Record_add_birthday.
    destruct (Birthday_init s); cbn [bind]; [|discriminate].
    intros [= <-]. cbn [phones set_birthday]. lia.
  - (* show-birthday *)
    left. split; [|left; reflexivity].
    unfold show_birthday. destruct args as [|n rest]; [reflexivity|].
    destruct (AddressBook_find book n) as [r|e]; [|reflexivity].
    destruct (bool_decide _); reflexivity.
  - (* birthdays *)
    left. split; [|left; reflexivity].
    unfold show_upcoming_birthdays.
    destruct (AddressBook_get_upcoming_birthdays _ _ _) as [[|g gs]|e];
      reflexivity.
  - (* hello *)
    left. split; [reflexivity|left; reflexivity].
Qed.

(** The result of a handler body is not [IndexError]. *)
Ltac not_IndexError :=
  let H := fresh in
  cbn [fst]; intros H; try discriminate; injection H as H;
  destruct (thrown_not_IndexError _ _ H).

(** Property X14.  A handler raises [IndexError] exactly when it is given
    fewer arguments than it reads, and it ignores the arguments beyond
    those. *)
Theorem handler_arity (rt : runtime) (k : command) (args : list pystr)
    (book : AddressBook) :
  ((handler rt k args book).1 = Threw Raised_IndexError
   <-> (length args < arity k)%nat)
  /\ handler rt k args book = handler rt k (take (arity k) args) book.
Proof.
  destruct k; cbn [handler arity].
  - destruct args as [|n [|phone rest]];
      [split; [split; [intros _; cbn [length]; lia|reflexivity]|reflexivity]..|].
    split; [|reflexivity]. split; [|intros Hlen; cbn [length] in Hlen; lia].
    unfold add_contact.
    destruct (AddressBook_find book n) as [r|[]];
      [destruct (Record_add_phone r phone)|
      |destruct (Record_add_phone (Record_init n) phone)|];
      not_IndexError.
  - destruct args as [|n [|old [|new rest]]];
      [split; [split; [intros _; cbn [length]; lia|reflexivity]|reflexivity]..|].
    split; [|reflexivity]. split; [|intros Hlen; cbn [length] in Hlen; lia].
    unfold change_phone.
    destruct (AddressBook_find book n) as [r|e];
      [destruct (Record_edit_phone r old new) as [[r' ch]|e]|];
      not_IndexError.
  - destruct args as [|n rest];
      [split; [split; [intros _; cbn [length]; lia|reflexivity]|reflexivity]|].
    split; [|reflexivity]. split; [|intros Hlen; cbn [length] in Hlen; lia].
    unfold show_phones.
    destruct (AddressBook_find book n) as [r|e]; [destruct (phones r)|];
      not_IndexError.
  - split; [|unfold show_all; destruct book; reflexivity].
    split; [|intros Hlen; cbn [length] in Hlen; lia]. unfold show_all. destruct book; discriminate.
  - destruct args as [|n [|s rest]];
      [split; [split; [intros _; cbn [length]; lia|reflexivity]|reflexivity]..|].
    split; [|reflexivity]. split; [|intros Hlen; cbn [length] in Hlen; lia].
    unfold add_birthday.
    destruct (AddressBook_find book n) as [r|e];
      [destruct (Record_add_birthday r s) as [r'|e]|];
      not_IndexError.
  - destruct args as [|n rest];
      [split; [split; [intros _; cbn [length]; lia|reflexivity]|reflexivity]|].
    split; [|reflexivity]. split; [|intros Hlen; cbn [length] in Hlen; lia].
    unfold show_birthday.
    destruct (AddressBook_find book n) as [r|e]; [destruct (bool_decide _)|];
      not_IndexError.
  - split; [|reflexivity]. split; [|intros Hlen; cbn [length] in Hlen; lia].
    unfold show_upcoming_birthdays.
    destruct (AddressBook_get_upcoming_birthdays _ _ _) as [[|g gs]|e];
      not_IndexError.
  - split; [|reflexivity]. split; [discriminate|intros Hlen; cbn [length] in Hlen; lia].
Qed.

(** Property X15.  A command whose handler raises leaves the address book
    as it was, and the commands that only show something never change
    it. *)
Theorem failed_command_keeps_book (rt : runtime) (k : command)
    (args : list pystr) (book : AddressBook) :
  (forall e, (handler rt k args book).1 = Threw e ->
             (handler rt k args book).2 = book)
  /\ (read_only k = true -> (handler rt k args book).2 = book).
Proof.
  destruct (handler_step rt k args book) as [[Hsame _]|(Hk & [s Hs] & _)].
  - split; intros; exact Hsame.
  - split.
    + intros e He. rewrite Hs in He. discriminate.
    + intros Hk'. congruence.
Qed.
(** ** The books of a session *)

(** What a session keeps true: the invariant of the book, and at least one
    number in every contact. *)
Lemma session_invariant (rt : runtime) (book : AddressBook) :
  session rt book ->
  book_ok book /\ (forall k r, (k, r) ∈ book -> phones r <> []).
Proof.
  induction 1 as [|book k args _ [[Hnd Hok] Hne]].
  - split; [split; [constructor|]|]; intros k r Hin; inversion Hin.
  - destruct (handler_step rt k args book)
      as [[-> _]|(_ & _ & [(n & r & r' & _ & Hfind & Hop & Hlen & ->)
                          |(n & p & _ & Hfind & Hp & ->)])].
    + split; [split|]; assumption.
    + apply find_elem in Hfind. destruct (Hok _ _ Hfind) as [Hname Hr].
      split; [split|].
      * apply dict_set_NoDup, Hnd.
      * intros k' x Hin. apply dict_set_entries in Hin as [[= -> ->]|Hin];
          [|exact (Hok _ _ Hin)].
        split; [rewrite (record_op_name _ _ Hop); exact Hname|].
        eapply record_op_ok; eassumption.
      * intros k' x Hin. apply dict_set_entries in Hin as [[= -> ->]|Hin];
          [|exact (Hne _ _ Hin)].
        specialize (Hne _ _ Hfind). destruct (phones r); [done|].
        destruct (phones r'); [cbn in Hlen; lia|done].
    + unfold AddressBook_add_record. cbn [name value Name_init].
      split; [split|].
      * apply dict_set_NoDup, Hnd.
      * intros k' x Hin. apply dict_set_entries in Hin as [[= -> ->]|Hin];
          [|exact (Hok _ _ Hin)].
        split; [reflexivity|]. split; [|discriminate].
        cbn [phones]. apply Forall_singleton, Hp.
      * intros k' x Hin. apply dict_set_entries in Hin as [[= -> ->]|Hin];
          [|exact (Hne _ _ Hin)].
        discriminate.
Qed.

(** Property X16.  In every book that a session builds from the empty
    book, the names are distinct, every record is stored under its own
    name, every number is ten characters that [str.isdigit] accepts, and
    every birthday is a date of the calendar. *)
Theorem session_book_ok (rt : runtime) (book : AddressBook) :
  session rt book -> book_ok book.
Proof. intros H. apply (session_invariant rt book H). Qed.

Lemma session_book_ok_witness :
  book_ok (add_contact [str "Ann"; str "0501234567"] []).2.
Proof.
  apply (session_book_ok (mkRuntime plain_year scenario_today (fun _ => []))).
  apply (session_command _ [] cmd_add). constructor.
Defined.

(** Property X17.  In a session that starts from the empty book, the
    command [phone] never answers that a contact has no numbers: for a
    contact of the book it lists at least one. *)
Theorem show_phones_lists_numbers (rt : runtime) (book : AddressBook)
    (n : pystr) (rest : list pystr) :
  session rt book ->
  (show_phones (n :: rest) book).1
  <> Returned (u "У " ++ n ++ u " немає телефонних номерів.")
  /\ (forall r, AddressBook_find book n = Ok r ->
        phone_values r <> []
        /\ show_phones (n :: rest) book
           = (Returned (u "Контакт " ++ n ++ u ", телефони: "
                        ++ join (u ", ") (phone_values r)), book)).
Proof.
  intros Hs. apply session_invariant in Hs as [_ Hne].
  unfold show_phones.
  destruct (AddressBook_find book n) as [r|e] eqn:Hfind.
  - specialize (Hne _ _ (find_elem _ _ _ Hfind)). unfold phone_values.
    destruct (phones r) as [|p ps] eqn:E; [done|]. split.
    + cbn [fst]. eval_literals. discriminate.
    + intros r' [= <-]. rewrite E. split; [discriminate|reflexivity].
  - split; [destruct e; discriminate|discriminate].
Qed.

Lemma show_phones_lists_numbers_witness :
  (show_phones [str "Ann"] (add_contact [str "Ann"; str "0501234567"] []).2).1
  <> Returned (u "У " ++ str "Ann" ++ u " немає телефонних номерів.").
Proof.
  apply (show_phones_lists_numbers
           (mkRuntime plain_year scenario_today (fun _ => []))).
  apply (session_command _ [] cmd_add). constructor.
Defined.

(** ** Birthdays on the command line *)

(** Property X18.  For a contact of the book, [show_birthday] answers that
    the birthday is not specified exactly when none is set, and shows the
    text of the birthday otherwise. *)
Theorem show_birthday_reply (c : libc) (n : pystr) (rest : list pystr)
    (book : AddressBook) (r : record) :
  AddressBook_find book n = Ok r ->
  ((show_birthday c (n :: rest) book).1
   = Returned (u "У " ++ n ++ u " день народження не вказано.")
   <-> birthday r = None)
  /\ (forall b, birthday r = Some b ->
        (show_birthday c (n :: rest) book).1
        = Returned (u "День народження " ++ n ++ u ": " ++ Birthday_str c b)).
Proof.
  intros Hfind. unfold show_birthday, Record_show_birthday. rewrite Hfind.
  destruct (birthday r) as [b|].
  - rewrite bool_decide_eq_false_2 by apply Birthday_str_set. cbn [fst].
    split; [|intros b' [= <-]; reflexivity].
    split; [|discriminate]. eval_literals. discriminate.
  - rewrite bool_decide_eq_true_2 by reflexivity. cbn [fst].
    split; [split; reflexivity|discriminate].
Qed.

Lemma show_birthday_reply_witness :
  (show_birthday plain_year [str "Eve"] new_year_book).1
  = Returned (u "День народження " ++ str "Eve" ++ u ": "
              ++ Birthday_str plain_year (mkField (mkdate 2000 1 1))).
Proof.
  refine (proj2 (show_birthday_reply plain_year (str "Eve") [] new_year_book
                   (contact "Eve" (Some (mkdate 2000 1 1))) _) _ _);
    reflexivity.
Defined.

(** A string in the strict form that spells a date of the calendar is
    what [Birthday] reads and, for a year of four digits, what it prints. *)
Lemma Birthday_strict (s : pystr) (d : date) :
  strict_DD_MM_YYYY s = Some d -> valid d ->
  Birthday_init s = Ok (mkField d)
  /\ forall c, c = pads_year \/ 1000 <= year d ->
               Birthday_str c (mkField d) = s.
Proof.
  intros Hs Hv. split.
  - rewrite Birthday_init_strptime, (strptime_strict s d Hs).
    destruct (valid_fields d Hv) as (_ & Hm & Hd).
    replace ((1 <=? day d) && (day d <=? 31) && (1 <=? month d)
             && (month d <=? 12)) with true
      by (symmetry; rewrite !andb_true_iff, !Z.leb_le; lia).
    destruct d as [y m dd]. rewrite new_ok by exact Hv. reflexivity.
  - intros c Hc. rewrite Birthday_str_eq.
    apply strict_inv in Hs
      as (d1 & d2 & m1 & m2 & y1 & y2 & y3 & y4 & -> & Hdig & ->).
    repeat (apply Forall_cons_iff in Hdig as [? Hdig]).
    cbn [year month day] in *.
    rewrite !two_digits_ascii by assumption.
    assert (HY : directive_Y c (1000 * digit_value y1 + 100 * digit_value y2
                                + 10 * digit_value y3 + digit_value y4)
                 = [y1; y2; y3; y4]).
    { rewrite <- (four_digits_ascii y1 y2 y3 y4) by assumption.
      destruct c; cbn [directive_Y]; [reflexivity|].
      destruct Hc as [|Hc]; [discriminate|].
      apply strip_zeros_four_digits.
      destruct Hv as ((_ & Hy) & _). cbn in Hy. unfold MAXYEAR in Hy. lia. }
    rewrite HY. reflexivity.
Qed.

(** Property X19.  After [add-birthday] with a date of the calendar in
    the form [DD.MM.YYYY], [show-birthday] shows the string that was
    given, on every platform when the year has four digits without a
    leading zero. *)
Theorem add_birthday_show_birthday (c : libc) (n s : pystr)
    (rest rest' : list pystr) (book : AddressBook) (d : date) :
  n ∈ book.*1 ->
  strict_DD_MM_YYYY s = Some d -> valid d ->
  c = pads_year \/ 1000 <= year d ->
  (add_birthday (n :: s :: rest) book).1
  = Returned (u "Для " ++ n ++ u " встановлено день народження: " ++ s)
  /\ (show_birthday c (n :: rest') (add_birthday (n :: s :: rest) book).2).1
     = Returned (u "День народження " ++ n ++ u ": " ++ s).
Proof.
  intros Hin Hs Hv Hc. apply find_keys in Hin as [r Hfind].
  destruct (Birthday_strict s d Hs Hv) as [Hinit Hstr].
  unfold add_birthday. rewrite Hfind.
  unfold Record_add_birthday. rewrite Hinit. cbn [bind fst snd].
  split; [reflexivity|].
  unfold show_birthday. rewrite find_set, bool_decide_eq_true_2 by reflexivity.
  unfold Record_show_birthday. cbn [birthday set_birthday].
  rewrite bool_decide_eq_false_2 by apply Birthday_str_set.
  cbn [fst]. rewrite (Hstr c Hc). reflexivity.
Qed.

Lemma add_birthday_show_birthday_witness :
  (add_birthday [str "Eve"; str "15.06.1990"] new_year_book).1
  = Returned (u "Для " ++ str "Eve" ++ u " встановлено день народження: "
              ++ str "15.06.1990")
  /\ (show_birthday plain_year [str "Eve"]
        (add_birthday [str "Eve"; str "15.06.1990"] new_year_book).2).1
     = Returned (u "День народження " ++ str "Eve" ++ u ": "
                 ++ str "15.06.1990").
Proof.
  apply (add_birthday_show_birthday plain_year (str "Eve") (str "15.06.1990")
           [] [] new_year_book (mkdate 1990 6 15)).
  - by_evaluation.
  - reflexivity.
  - vm_compute. intuition discriminate.
  - right. cbn. lia.
Defined.
(** ** What the handlers raise *)

Lemma add_phone_raises (r : record) (s : pystr) (e : exception) :
  Record_add_phone r s = Raise e -> e = ValueError.
Proof.
  unfold Record_add_phone.
  destruct (Phone_init s) eqn:Hp; cbn [bind].
  - destruct (negb _); discriminate.
  - intros [= <-]. eapply Phone_init_raises, Hp.
Qed.

Lemma edit_phone_raises (r : record) (old new : pystr) (e : exception) :
  Record_edit_phone r old new = Raise e -> e = ValueError.
Proof.
  unfold Record_edit_phone.
  destruct (first_index old (phones r)); [|discriminate].
  destruct (Phone_init new) eqn:Hp; cbn [bind]; [discriminate|].
  intros [= <-]. eapply Phone_init_raises, Hp.
Qed.

Lemma add_birthday_raises (r : record) (s : pystr) (e : exception) :
  Record_add_birthday r s = Raise e -> e = ValueError.
Proof.
  unfold Record_add_birthday. rewrite Birthday_init_strptime.
  destruct (_strptime.strptime s Birthday_format); cbn [bind]; [discriminate|].
  congruence.
Qed.

(** Property X20.  The exceptions that leave a handler.  [IndexError]
    means too few arguments.  [KeyError] comes from [change], [phone],
    [add-birthday] and [show-birthday] only, for a name that is not in the
    book.  [ValueError] carries the message of [Phone] from [add] and
    [change], the message of [Birthday] from [add-birthday], and the
    message of [datetime] from [birthdays].  No other exception leaves a
    handler. *)
Theorem handler_exceptions (rt : runtime) (k : command) (args : list pystr)
    (book : AddressBook) (e : raised) :
  (handler rt k args book).1 = Threw e ->
  match e with
  | Raised_IndexError => (length args < arity k)%nat
  | Raised_KeyError =>
      looks_up k = true /\ exists n, head args = Some n /\ n ∉ book.*1
  | Raised_ValueError message =>
      ((k = cmd_add \/ k = cmd_change) /\ message = Phone_message)
      \/ (k = cmd_add_birthday /\ message = Birthday_message)
      \/ (k = cmd_birthdays /\ message = rt_library_message rt ValueError)
  | Raised_Exception _ => False
  end.
Proof.
  destruct k; cbn [handler].
  - unfold add_contact.
    destruct args as [|n [|phone rest]];
      [intros [= <-]; cbn; lia|intros [= <-]; cbn; lia|].
    destruct (AddressBook_find book n) as [r|e'] eqn:Hfind.
    + destruct (Record_add_phone r phone) as [r'|e''] eqn:Hadd;
        [discriminate|].
      apply add_phone_raises in Hadd as ->. intros [= <-]. auto.
    + apply find_raises in Hfind as [-> _].
      destruct (Record_add_phone (Record_init n) phone) as [r'|e''] eqn:Hadd;
        [discriminate|].
      apply add_phone_raises in Hadd as ->. intros [= <-]. auto.
  - unfold change_phone.
    destruct args as [|n [|old [|new rest]]];
      [intros [= <-]; cbn; lia..|].
    destruct (AddressBook_find book n) as [r|e'] eqn:Hfind.
    + destruct (Record_edit_phone r old new) as [[r' ch]|e''] eqn:Hed;
        [discriminate|].
      apply edit_phone_raises in Hed as ->. intros [= <-]. auto.
    + apply find_raises in Hfind as [-> Hn]. intros [= <-].
      split; [reflexivity|]. exists n. auto.
  - unfold show_phones.
    destruct args as [|n rest]; [intros [= <-]; cbn; lia|].
    destruct (AddressBook_find book n) as [r|e'] eqn:Hfind.
    + destruct (phones r); discriminate.
    + apply find_raises in Hfind as [-> Hn]. intros [= <-].
      split; [reflexivity|]. exists n. auto.
  - unfold show_all. destruct book; discriminate.
  - unfold add_birthday.
    destruct args as [|n [|s rest]];
      [intros [= <-]; cbn; lia|intros [= <-]; cbn; lia|].
    destruct (AddressBook_find book n) as [r|e'] eqn:Hfind.
    + destruct (Record_add_birthday r s) as [r'|e''] eqn:Hadd;
        [discriminate|].
      apply add_birthday_raises in Hadd as ->. intros [= <-]. auto.
    + apply find_raises in Hfind as [-> Hn]. intros [= <-].
      split; [reflexivity|]. exists n. auto.
  - unfold show_birthday.
    destruct args as [|n rest]; [intros [= <-]; cbn; lia|].
    destruct (AddressBook_find book n) as [r|e'] eqn:Hfind.
    + destruct (bool_decide _); discriminate.
    + apply find_raises in Hfind as [-> Hn]. intros [= <-].
      split; [reflexivity|]. exists n. auto.
  - unfold show_upcoming_birthdays, AddressBook_get_upcoming_birthdays.
    pose proof (for_each_upcoming (rt_libc rt) (rt_today rt)
                  (dict_values book) []) as H.
    destruct (for_each _ _ _) as [[|g gs]|e']; [discriminate..|].
    destruct H as [-> _]. intros [= <-]. auto.
  - discriminate.
Qed.

Lemma handler_exceptions_witness :
  looks_up cmd_phone = true
  /\ exists n, head [str "Zed"] = Some n /\ n ∉ scenario_book.*1.
Proof.
  apply (handler_exceptions
           (mkRuntime plain_year scenario_today (fun _ => []))
           cmd_phone [str "Zed"] scenario_book Raised_KeyError).
  reflexivity.
Defined.

(** Property X21.  A command that needs a contact, given its arguments,
    raises [KeyError] exactly when the name is not in the book; the
    decorated handler then prints that no contact of this name was found,
    returns nothing, and the book stays as it was. *)
Theorem unknown_contact (rt : runtime) (k : command) (n : pystr)
    (rest : list pystr) (book : AddressBook) :
  looks_up k = true -> (arity k <= length (n :: rest))%nat ->
  ((handler rt k (n :: rest) book).1 = Threw Raised_KeyError
   <-> n ∉ book.*1)
  /\ (n ∉ book.*1 ->
      input_error (handler rt k (n :: rest) book).1
      = mkHandled
          (Some (Fore_RED ++ u "Контакт з таким іменем не знайдено."
                 ++ Style_RESET_ALL))
          None
      /\ (handler rt k (n :: rest) book).2 = book).
Proof.
  intros Hk Hlen.
  assert (Hiff : (handler rt k (n :: rest) book).1 = Threw Raised_KeyError
                 <-> n ∉ book.*1).
  { destruct (AddressBook_find book n) as [r|e] eqn:Hfind.
    - assert (Hin : n ∈ book.*1) by (apply find_keys; eauto).
      split; [|intros Hn; contradiction]. intros H. exfalso. revert H.
      destruct k; try discriminate Hk; cbn [handler];
        cbn [arity length] in Hlen.
      + destruct rest as [|old [|new rest]]; [cbn [length] in Hlen; lia..|].
        unfold change_phone. rewrite Hfind.
        destruct (Record_edit_phone r old new) as [[r' ch]|e] eqn:Hed;
          [discriminate|].
        apply edit_phone_raises in Hed as ->. discriminate.
      + unfold show_phones. rewrite Hfind. destruct (phones r); discriminate.
      + destruct rest as [|s rest]; [cbn [length] in Hlen; lia|].
        unfold add_birthday. rewrite Hfind.
        destruct (Record_add_birthday r s) as [r'|e] eqn:Hadd; [discriminate|].
        apply add_birthday_raises in Hadd as ->. discriminate.
      + unfold show_birthday. rewrite Hfind.
        destruct (bool_decide _); discriminate.
    - apply find_raises in Hfind as [_ Hn]. split; [auto|]. intros _.
      apply dict_get_None in Hn.
      destruct k; try discriminate Hk; cbn [handler];
        cbn [arity length] in Hlen.
      + destruct rest as [|old [|new rest]]; [cbn [length] in Hlen; lia..|].
        unfold change_phone, AddressBook_find. rewrite Hn. reflexivity.
      + unfold show_phones, AddressBook_find. rewrite Hn. reflexivity.
      + destruct rest as [|s rest]; [cbn [length] in Hlen; lia|].
        unfold add_birthday, AddressBook_find. rewrite Hn. reflexivity.
      + unfold show_birthday, AddressBook_find. rewrite Hn. reflexivity. }
  split; [exact Hiff|]. intros Hn. apply Hiff in Hn.
  split; [rewrite Hn; reflexivity|].
  destruct (handler_step rt k (n :: rest) book) as [[Hsame _]|(_ & [s Hs] & _)];
    [exact Hsame|congruence].
Qed.

Lemma unknown_contact_witness :
  (handler (mkRuntime plain_year scenario_today (fun _ => [])) cmd_phone
     [str "Zed"] scenario_book).1 = Threw Raised_KeyError
  <-> str "Zed" ∉ scenario_book.*1.
Proof.
  refine (proj1 (unknown_contact _ cmd_phone (str "Zed") [] scenario_book
                   _ _)).
  - reflexivity.
  - cbn. lia.
Defined.

(** Property X22.  One birthday that cannot be projected makes the command
    [birthdays] fail for the whole book: the decorated handler prints the
    message of [datetime] and returns nothing, whoever else has a birthday
    in the coming days. *)
Theorem birthdays_command_fails (rt : runtime) (args : list pystr)
    (book : AddressBook) (r : record) (b : Birthday) :
  r ∈ dict_values book -> birthday r = Some b ->
  projectable (rt_today rt) (value b) = false ->
  input_error (handler rt cmd_birthdays args book).1
  = mkHandled
      (Some (Fore_RED ++ rt_library_message rt ValueError
             ++ Style_RESET_ALL))
      None.
Proof.
  intros Hin Hb Hp. cbn [handler].
  unfold show_upcoming_birthdays, AddressBook_get_upcoming_birthdays.
  pose proof (for_each_upcoming (rt_libc rt) (rt_today rt)
                (dict_values book) []) as H.
  destruct (for_each _ _ _) as [acc|e].
  - destruct H as [Hall _]. rewrite (Hall r b Hin Hb) in Hp. discriminate.
  - destruct H as [-> _]. reflexivity.
Qed.

Lemma birthdays_command_fails_witness :
  input_error
    (handler (mkRuntime plain_year (mkdate 2023 2 25)
                (fun _ => str "day is out of range for month"))
       cmd_birthdays [] leap_day_book).1
  = mkHandled
      (Some (Fore_RED ++ str "day is out of range for month"
             ++ Style_RESET_ALL))
      None.
Proof.
  apply (birthdays_command_fails
           (mkRuntime plain_year (mkdate 2023 2 25)
              (fun _ => str "day is out of range for month"))
           [] leap_day_book (contact "Ann" (Some (mkdate 2000 2 29)))
           (mkField (mkdate 2000 2 29))).
  - apply list_elem_of_In. left. reflexivity.
  - reflexivity.
  - reflexivity.
Defined.
(** ** The command loop *)

Lemma str_lstrip_head (s : pystr) (c : N) (t : pystr) :
  str_lstrip s = c :: t -> str_isspace c = false.
Proof.
  induction s as [|x s IH]; [discriminate|]. cbn [str_lstrip].
  destruct (str_isspace x) eqn:E; [exact IH|]. intros [= <- _]. exact E.
Qed.

(** A line that [strip] does not empty has a character that is not white
    space. *)
Lemma str_strip_nonempty (s : pystr) :
  str_strip s <> [] -> exists c, c ∈ str_strip s /\ str_isspace c = false.
Proof.
  unfold str_strip.
  destruct (str_lstrip (rev (str_lstrip s))) as [|c t] eqn:E; [done|].
  intros _. exists c. split; [|eapply str_lstrip_head, E].
  apply list_elem_of_In, in_rev. rewrite rev_involutive. left. reflexivity.
Qed.

Lemma split_words_nil (s w : pystr) :
  split_words s w = [] -> w = [] /\ Forall (fun c => str_isspace c = true) s.
Proof.
  revert w. induction s as [|c s IH]; intros w; cbn [split_words].
  - destruct w; [auto|discriminate].
  - destruct (str_isspace c) eqn:E.
    + destruct w; [|discriminate]. intros H. destruct (IH _ H) as [_ Hs].
      split; [reflexivity|]. constructor; assumption.
    + intros H. destruct (IH _ H) as [Hw _]. destruct w; discriminate.
Qed.

Lemma split_words_word (s w : pystr) :
  Forall (fun c => str_isspace c = false) w ->
  Forall word (split_words s w).
Proof.
  revert w. induction s as [|c s IH]; intros w Hw; cbn [split_words].
  - destruct w as [|x w]; constructor; [|constructor]. split; [done|exact Hw].
  - destruct (str_isspace c) eqn:E.
    + destruct w as [|x w]; [apply IH; constructor|].
      constructor; [split; [done|exact Hw]|apply IH; constructor].
    + apply IH. apply Forall_app. split; [exact Hw|].
      apply Forall_singleton, E.
Qed.

(** What [strip] leaves of a line, when it leaves anything, splits into a
    first word and more words. *)
Lemma split_stripped (line : pystr) :
  str_strip line <> [] ->
  exists part0 args,
    str_split (str_strip line) = part0 :: args /\ Forall word (part0 :: args).
Proof.
  intros Hne. unfold str_split.
  pose proof (split_words_word (str_strip line) [] (Forall_nil_2 _)) as Hw.
  destruct (split_words (str_strip line) []) as [|part0 args] eqn:E;
    [|eauto].
  apply split_words_nil in E as [_ Hs].
  destruct (str_strip_nonempty line Hne) as (c & Hin & Hc).
  rewrite Forall_forall in Hs. apply list_elem_of_In in Hin.
  rewrite (Hs c Hin) in Hc. discriminate.
Qed.


(** What the loop keeps true of the book. *)
Lemma main_pass_invariant (lower : pystr -> pystr) (rt : runtime)
    (line : pystr) (book : AddressBook) :
  book_ok book -> Forall word book.*1 ->
  exists book', book_of (main_pass lower rt line book) = Some book'
                /\ book_ok book' /\ Forall word book'.*1.
Proof.
  intros Hok Hw. unfold main_pass.
  destruct (str_strip line) as [|c t] eqn:E; [eauto|].
  destruct (split_stripped line) as (part0 & args & Hsplit & Hwords);
    [rewrite E; discriminate|].
  rewrite E in Hsplit. rewrite Hsplit. cbn zeta.
  apply Forall_cons_iff in Hwords as [_ Hargs].
  destruct (_ || _); [eauto|].
  destruct (bool_decide (lower part0 = str "help")); [eauto|].
  destruct (COMMANDS (lower part0)) as [k|]; [|eauto].
  cbn [book_of]. eexists. split; [reflexivity|].
  destruct Hok as [Hnd Hok].
  destruct (handler_step rt k args book)
    as [[-> _]|(_ & _ & [(n & r & r' & _ & Hfind & Hop & _ & ->)
                        |(n & p & Hhead & Hfind & Hp & ->)])].
  - split; [split|]; assumption.
  - pose proof (find_elem _ _ _ Hfind) as Hin.
    destruct (Hok _ _ Hin) as [Hname Hr].
    split; [split|].
    + apply dict_set_NoDup, Hnd.
    + intros k' x Hx. apply dict_set_entries in Hx as [[= -> ->]|Hx];
        [|exact (Hok _ _ Hx)].
      split; [rewrite (record_op_name _ _ Hop); exact Hname|].
      eapply record_op_ok; eassumption.
    + rewrite dict_set_keys.
      replace (dict_contains book n) with true; [exact Hw|].
      symmetry. apply dict_contains_true, list_elem_of_fmap.
      exists (n, r). auto.
  - unfold AddressBook_add_record. cbn [name value Name_init].
    split; [split|].
    + apply dict_set_NoDup, Hnd.
    + intros k' x Hx. apply dict_set_entries in Hx as [[= -> ->]|Hx];
        [|exact (Hok _ _ Hx)].
      split; [reflexivity|]. split; [|discriminate].
      cbn [phones]. apply Forall_singleton, Hp.
    + rewrite dict_set_keys. destruct (dict_contains book n); [exact Hw|].
      apply Forall_app. split; [exact Hw|]. apply Forall_singleton.
      destruct args as [|a args]; [discriminate|].
      injection Hhead as ->. apply Forall_cons_iff in Hargs as [Hn _].
      exact Hn.
Qed.

Lemma main_loop_invariant (lower : pystr -> pystr)
    (inputs : list (runtime * pystr)) :
  forall book,
    book_ok book -> Forall word book.*1 ->
    exists book', book_of (main_loop lower inputs book) = Some book'
                  /\ book_ok book' /\ Forall word book'.*1.
Proof.
  induction inputs as [|[rt line] inputs IH]; intros book Hok Hw;
    cbn [main_loop]; [eauto|].
  destruct (main_pass_invariant lower rt line book Hok Hw)
    as (book' & Hb & Hok' & Hw').
  destruct (main_pass lower rt line book) as [out b|out b|];
    [|eauto|discriminate].
  injection Hb as ->.
  destruct (IH book' Hok' Hw') as (book'' & Hb' & Hok'' & Hw'').
  destruct (main_loop lower inputs book') as [out' b'|out' b'|];
    [eauto..|discriminate].
Qed.

(** Property X24.  Whatever the user types, the loop that starts with the
    empty book never fails at [parts[0]], and in the book it leaves the
    names are distinct, not empty and free of white space, every record is
    stored under its own name, every number is ten characters that
    [str.isdigit] accepts, and every birthday is a date of the calendar. *)
Theorem main_loop_book (lower : pystr -> pystr)
    (inputs : list (runtime * pystr)) :
  exists book, book_of (main_loop lower inputs []) = Some book
               /\ book_ok book /\ Forall word book.*1.
Proof.
  apply main_loop_invariant; [|constructor].
  split; [constructor|]. intros k r Hin. inversion Hin.
Qed.
